(** * ONICS - Optical Navigation and Interference Control System

    A shallow embedding of [ONICS.py] and the properties of its device
    prober, its worker run loops, its supervisor loop and its log follower.

    Conventions of the embedding.
    - A Python [str] is the list of its code points ([N]); [text] turns a
      literal into one.
    - [subprocess.run] is answered by the environment with an [Outcome];
      the sequential helpers ([is_device_connected], [enumerate_devices])
      live in a small state-and-exception monad [M] that records every
      observable effect as an [Event].
    - The threads of supervision mode are run by an interleaving machine
      [step]: each input names the thread that executes its next statement
      and carries the outcome of the subprocess call that statement makes
      or waits for, if any, or says that the statement's file or console
      operation fails.
    - Writing to the console from the main thread and starting a thread
      are taken to succeed. *)

From Stdlib Require Import String Ascii NArith ZArith Lia.
From stdpp Require Import base numbers list.

(* ================================================================== *)
(** ** Text *)

Abbreviation char := N.
Abbreviation str := (list N).

Definition text (s : string) : str :=
  map N_of_ascii (list_ascii_of_string s).
Arguments text : simpl never.

(** The line boundaries of [str.splitlines]. *)
Definition is_linebreak (c : char) : bool :=
  ((10 <=? c) && (c <=? 13) || (28 <=? c) && (c <=? 30)
   || (c =? 133) || (c =? 8232) || (c =? 8233))%N.

(** The characters removed by [str.strip()] (those with [str.isspace]). *)
Definition is_space (c : char) : bool :=
  ((9 <=? c) && (c <=? 13) || (28 <=? c) && (c <=? 32)
   || (c =? 133) || (c =? 160) || (c =? 5760)
   || (8192 <=? c) && (c <=? 8202)
   || (c =? 8232) || (c =? 8233) || (c =? 8239) || (c =? 8287)
   || (c =? 12288))%N.

Definition CR : char := 13%N.
Definition LF : char := 10%N.

(** [s.splitlines()]: [cur] is the line being read. A carriage return
    followed by a line feed is one boundary; a trailing boundary opens no
    empty last line. *)
Fixpoint splitlines_from (cur : str) (s : str) : list str :=
  match s with
  | [] => match cur with [] => [] | _ => [cur] end
  | c :: rest =>
    if is_linebreak c then
      cur :: match rest with
             | c2 :: rest2 =>
               if ((c =? CR) && (c2 =? LF))%N
               then splitlines_from [] rest2
               else splitlines_from [] rest
             | [] => splitlines_from [] rest
             end
    else splitlines_from (cur ++ [c]) rest
  end.

Definition splitlines (s : str) : list str := splitlines_from [] s.

Fixpoint lstrip (s : str) : str :=
  match s with
  | c :: rest => if is_space c then lstrip rest else s
  | [] => []
  end.

(** [s.strip()] *)
Definition strip (s : str) : str := rev (lstrip (rev (lstrip s))).

Fixpoint startswith (p s : str) : bool :=
  match p, s with
  | [], _ => true
  | _ :: _, [] => false
  | a :: p', b :: s' => (a =? b)%N && startswith p' s'
  end.

(** [needle in hay] on strings *)
Fixpoint str_in (needle hay : str) : bool :=
  startswith needle hay ||
  match hay with
  | [] => false
  | _ :: hay' => str_in needle hay'
  end.

(** What [needle in hay] means: [needle] occurs as a contiguous run. *)
Definition occurs_in (needle hay : str) : Prop :=
  exists before after, hay = before ++ needle ++ after.

(* ================================================================== *)
(** ** Processes, exceptions, events *)

(** Every command is run with [subprocess.run]; the working directory
    given to the long-running ones is the script's own and plays no part
    here. How a call of [subprocess.run] ends: the child ran and exited with a
    status, and what it wrote to its standard output is the text [out]; or
    it ran and exited with a status, but what it wrote to its standard
    output or error is not text in the locale's encoding; or it could not
    be executed at all and [Popen] raised an [OSError]. *)
Inductive Outcome :=
| Exited (status : Z) (out : str)
| Undecodable (status : Z)
| NotExecuted.

Inductive exn :=
| CalledProcessError (returncode : Z) (cmd : list str)
| OSError
| UnicodeDecodeError
| NameError.

Inductive Res (A : Type) :=
| Ok (a : A)
| Raise (e : exn).
Arguments Ok {A} a.
Arguments Raise {A} e.

Record CompletedProcess := { returncode : Z; stdout : str }.

Inductive Level := ERROR | WARNING.

Inductive Event :=
| Invoke (cmd : list str) (check : bool)         (* subprocess.run(cmd, check=..) *)
| Log (level : Level) (fmt : str) (arg : option exn)  (* logging.error / .warning *)
| Print (s : str)                                (* print(s) *)
| Sleep (secs : nat).                            (* time.sleep(secs) *)

(** The world of a sequential helper: [tool n] is the outcome of the n-th
    call of [subprocess.run]. *)
Record World := { tool : nat -> Outcome; calls : nat; events : list Event }.

Definition M (A : Type) : Type := World -> Res A * World.

#[export] Instance M_ret : MRet M := fun A a w => (Ok a, w).
#[export] Instance M_bind : MBind M := fun A B f m w =>
  match m w with
  | (Ok a, w') => f a w'
  | (Raise e, w') => (Raise e, w')
  end.

Definition emit (e : Event) : M unit := fun w =>
  (Ok tt, {| tool := tool w; calls := calls w; events := events w ++ [e] |}).

(** [check=True] raises on every non-zero status; without it the status is
    only stored in the result. *)
Definition check_returncode (cmd : list str) (check : bool) (status : Z)
  (out : str) : Res CompletedProcess :=
  if check && negb (status =? 0)%Z
  then Raise (CalledProcessError status cmd)
  else Ok {| returncode := status; stdout := out |}.

(** The end of [subprocess.run(cmd, check=..)]. With
    [capture_output=True, text=True] ([capture]) the output of the child
    is decoded when it has exited, before its status is looked at, and
    what cannot be decoded raises [UnicodeDecodeError]; without it the
    output is not read at all. *)
Definition completed (cmd : list str) (capture check : bool) (o : Outcome)
  : Res CompletedProcess :=
  match o with
  | NotExecuted => Raise OSError
  | Undecodable status =>
    if capture then Raise UnicodeDecodeError
    else check_returncode cmd check status []
  | Exited status out => check_returncode cmd check status out
  end.

(** [subprocess.run(cmd, capture_output=True, text=True, check=..)], the
    form of the two calls of the device prober. *)
Definition subprocess_run (cmd : list str) (check : bool)
  : M CompletedProcess := fun w =>
  (completed cmd true check (tool w (calls w)),
   {| tool := tool w; calls := S (calls w);
      events := events w ++ [Invoke cmd check] |}).

(** [try: m  except <those e with h e = Some _>: h e] *)
Definition try_except {A} (m : M A) (h : exn -> option (M A)) : M A :=
  fun w =>
  match m w with
  | (Ok a, w') => (Ok a, w')
  | (Raise e, w') =>
    match h e with
    | Some handler => handler w'
    | None => (Raise e, w')
    end
  end.

Definition logging_error (fmt : str) (e : exn) : M unit :=
  emit (Log ERROR fmt (Some e)).
Definition logging_warning (fmt : str) : M unit :=
  emit (Log WARNING fmt None).
Definition print (s : str) : M unit := emit (Print s).

(* ================================================================== *)
(** ** Module-level configuration (lines 21-25) *)

Definition connection_in_port : string := "127.0.0.1:14550".
Definition connection_in_baud : string := "921600".
Definition connection_out_p01 : string := "127.0.0.1:14540".
Definition connection_out_p02 : string := "127.0.0.1:14560".
Definition connection_out_p03 : string := "/dev/ttyUSB0".

Definition rs_enumerate_devices : list str := [text "rs-enumerate-devices"].

(* ================================================================== *)
(** ** Device prober (lines 31-64) *)

(** Lines 35-38: the scan returns at the first line that holds the prefix. *)
Fixpoint is_device_connected_scan (device_prefix : str) (lines : list str)
  : bool :=
  match lines with
  | [] => false
  | line :: rest =>
    if str_in device_prefix line then true
    else is_device_connected_scan device_prefix rest
  end.

Definition is_device_connected (device_prefix : str) : M bool :=
  try_except
    (result ← subprocess_run rs_enumerate_devices false;
     let lines := splitlines (stdout result) in
     mret (is_device_connected_scan device_prefix lines))
    (fun e =>
       match e with
       | CalledProcessError _ _ =>
         Some (logging_error (text "Error checking for RealSense devices: %s") e;;
               mret false)
       | _ => None
       end).

Definition relevant_devices : list str := [text "T265"; text "D4"].

(** Lines 52-55: the inner loop over the prefixes, leaving at the first
    one found in [line]. *)
Fixpoint enumerate_devices_line (prefixes : list str) (line : str)
  (detected_devices : list str) : list str :=
  match prefixes with
  | [] => detected_devices
  | device_prefix :: rest =>
    if str_in device_prefix line
    then detected_devices ++ [strip line]      (* append, break *)
    else enumerate_devices_line rest line detected_devices
  end.

(** Lines 51-55: the outer loop over the lines. *)
Definition enumerate_devices_scan (lines : list str) : list str :=
  fold_left (fun detected_devices line =>
               enumerate_devices_line relevant_devices line detected_devices)
            lines [].

Fixpoint print_each (l : list str) : M unit :=
  match l with
  | [] => mret tt
  | device :: rest => print device;; print_each rest
  end.

Definition enumerate_devices : M unit :=
  detected_devices ←
    try_except
      (result ← subprocess_run rs_enumerate_devices false;
       let lines := splitlines (stdout result) in
       mret (enumerate_devices_scan lines))
      (fun e =>
         match e with
         | CalledProcessError _ _ =>
           Some (logging_error (text "Error enumerating RealSense devices: %s") e;;
                 mret [])
         | _ => None
         end);
  match detected_devices with
  | _ :: _ =>
    print (text "Detected RealSense Devices:");;
    print_each detected_devices
  | [] => print (text "No relevant RealSense devices detected.")
  end.

(** Running a helper against one answer of the environment. *)
Definition answering (o : Outcome) : World :=
  {| tool := fun _ => o; calls := 0; events := [] |}.

(* ================================================================== *)
(** ** Supervision mode: threads, flags, handles *)

(** The two workers with a hardware prerequisite. *)
Inductive Worker := T265 | D4XX.

(** The targets given to [threading.Thread]. *)
Inductive Func :=
| Mavproxy        (* mavproxy_create_connection *)
| Run (w : Worker) (* run_t265, run_d4xx *)
| PublishLogs.    (* publish_logs *)

#[export] Instance Worker_eq_dec : EqDecision Worker.
Proof. solve_decision. Defined.
#[export] Instance Func_eq_dec : EqDecision Func.
Proof. solve_decision. Defined.

(** Where a thread stands in its target.
    - [Entry]: started; a run loop is at its [while] test (also when it
      comes back to it), [mavproxy_create_connection] is before its
      [subprocess.run], [publish_logs] before its [open].
    - [AtProbe]: the [while] test was true, the call of
      [is_device_connected] is next.
    - [InCommand]: [subprocess.run(..., check=True)] has been called and
      the thread is blocked in it.
    - [Tailing]: [publish_logs] is inside its [while True].
    - [Finished]: the target returned or raised; [is_alive()] is false. *)
Inductive Pc := Entry | AtProbe | InCommand | Tailing | Finished.

Record Thread := { target : Func; pc : Pc }.

(** The namespace of [parser.parse_args()]. *)
Record Args := {
  enumerate : bool;
  disable_t265 : bool;
  disable_d4xx : bool;
  sik_only : bool
}.

(** The main thread's position in the [__main__] block. *)
Inductive MainPc :=
| MStart                               (* lines 126-137 *)
| MStartLog                            (* lines 140-141 *)
| MPrintInit                           (* line 144 *)
| MStart1                              (* lines 147-148 *)
| MStart2                              (* lines 150-152 *)
| MStart3                              (* lines 154-156 *)
| MBuild                               (* line 160 *)
| MAppend2 (threads : list (nat * Func)) (* lines 161-162 *)
| MAppend3 (threads : list (nat * Func)) (* lines 163-164 *)
| MFor (threads : list (nat * Func))   (* lines 165-168, pairs left *)
| MSleep                               (* line 169 *)
| MExit                                (* end of the module *)
| MCrashed (e : exn).                  (* uncaught exception *)

Inductive Actor := MainThread | Th (tid : nat).

(** The process: the module globals, every thread ever created (a thread
    object is its index in [pool]), the names bound in [__main__] and what
    has been observed so far. *)
Record State := {
  args : Args;
  t265_enabled : bool;
  d4xx_enabled : bool;
  pool : list Thread;
  log_thread : option nat;
  thread1 : option nat;
  thread2 : option nat;
  thread3 : option nat;
  thread : option nat;                 (* the loop variable of line 165 *)
  main : MainPc;
  trace : list (Actor * Event)
}.

Definition init (a : Args) : State :=
  {| args := a; t265_enabled := true; d4xx_enabled := true; pool := [];
     log_thread := None; thread1 := None; thread2 := None; thread3 := None;
     thread := None; main := MStart; trace := [] |}.

Definition enabled (w : Worker) (s : State) : bool :=
  match w with T265 => t265_enabled s | D4XX => d4xx_enabled s end.

(** [t265_enabled = False] and [d4xx_enabled = False] *)
Definition disable (w : Worker) (s : State) : State :=
  {| args := args s;
     t265_enabled := match w with T265 => false | D4XX => t265_enabled s end;
     d4xx_enabled := match w with D4XX => false | T265 => d4xx_enabled s end;
     pool := pool s; log_thread := log_thread s; thread1 := thread1 s;
     thread2 := thread2 s; thread3 := thread3 s; thread := thread s;
     main := main s; trace := trace s |}.

Definition goto (m : MainPc) (s : State) : State :=
  {| args := args s; t265_enabled := t265_enabled s;
     d4xx_enabled := d4xx_enabled s; pool := pool s;
     log_thread := log_thread s; thread1 := thread1 s;
     thread2 := thread2 s; thread3 := thread3 s; thread := thread s;
     main := m; trace := trace s |}.

Definition record (who : Actor) (evs : list Event) (s : State) : State :=
  {| args := args s; t265_enabled := t265_enabled s;
     d4xx_enabled := d4xx_enabled s; pool := pool s;
     log_thread := log_thread s; thread1 := thread1 s;
     thread2 := thread2 s; thread3 := thread3 s; thread := thread s;
     main := main s; trace := trace s ++ map (pair who) evs |}.

Definition with_pool (p : list Thread) (s : State) : State :=
  {| args := args s; t265_enabled := t265_enabled s;
     d4xx_enabled := d4xx_enabled s; pool := p;
     log_thread := log_thread s; thread1 := thread1 s;
     thread2 := thread2 s; thread3 := thread3 s; thread := thread s;
     main := main s; trace := trace s |}.

(** The names a new thread object can be bound to. *)
Inductive Name := N_log_thread | N_thread1 | N_thread2 | N_thread3 | N_thread.

Definition bind_name (n : Name) (h : nat) (s : State) : State :=
  {| args := args s; t265_enabled := t265_enabled s;
     d4xx_enabled := d4xx_enabled s; pool := pool s;
     log_thread := match n with N_log_thread => Some h | _ => log_thread s end;
     thread1 := match n with N_thread1 => Some h | _ => thread1 s end;
     thread2 := match n with N_thread2 => Some h | _ => thread2 s end;
     thread3 := match n with N_thread3 => Some h | _ => thread3 s end;
     thread := match n with N_thread => Some h | _ => thread s end;
     main := main s; trace := trace s |}.

(** [n = threading.Thread(target=f); n.start()] *)
Definition start_thread (n : Name) (f : Func) (s : State) : State :=
  bind_name n (length (pool s))
            (with_pool (pool s ++ [{| target := f; pc := Entry |}]) s).

(** [h.is_alive()] *)
Definition is_alive (h : nat) (s : State) : bool :=
  match pool s !! h with
  | Some th => match pc th with Finished => false | _ => true end
  | None => false
  end.

(* ================================================================== *)
(** ** The worker targets (lines 67-104) *)

Definition mavproxy_command : list str :=
  [text "mavproxy.py";
   text ("--master=" ++ connection_in_port);
   text ("--baudrate=" ++ connection_in_baud);
   text "--out"; text ("udp:" ++ connection_out_p01);
   text "--out"; text ("udp:" ++ connection_out_p02);
   text "--out"; text connection_out_p03].

(** What one statement of a thread target does: where the thread stands
    afterwards, what it emits, and whether it assigns [False] to the
    enabled flag of its worker. *)
Record Move := { next : Pc; emits : list Event; clears_flag : bool }.

Definition move (p : Pc) (evs : list Event) : Move :=
  {| next := p; emits := evs; clears_flag := false |}.

(** One statement of [mavproxy_create_connection]: the command is
    launched once; however it ends, the function returns (or raises an
    exception it does not catch) and the thread is over. *)
Definition mavproxy_create_connection (p : Pc) (o : Outcome) : Move :=
  match p with
  | Entry => move InCommand [Invoke mavproxy_command true]
  | InCommand =>
    match completed mavproxy_command false true o with
    | Ok _ => move Finished []
    | Raise (CalledProcessError _ _ as e) =>
      move Finished [Log ERROR (text "mavproxy error: %s") (Some e)]
    | Raise _ => move Finished []
    end
  | _ => move p []
  end.

Definition device_prefix (w : Worker) : str :=
  match w with T265 => text "T265" | D4XX => text "D4" end.

Definition command (w : Worker) : list str :=
  match w with
  | D4XX => [text "python3"; text "d4xx_to_mavlink.py";
             text ("--connect=" ++ connection_out_p02)]
  | T265 => [text "python3"; text "t265_precland_apriltags.py";
             text ("--connect=" ++ connection_out_p01)]
  end.

Definition error_text (w : Worker) : str :=
  match w with
  | D4XX => text "D4XX script error: %s"
  | T265 => text "T265 script error: %s"
  end.

Definition warning_text (w : Worker) : str :=
  match w with
  | D4XX => text "No D4XX device detected. Skipping D4XX script."
  | T265 => text "T265 device not detected. Skipping T265 script."
  end.

(** One statement of [run_d4xx] / [run_t265]; the two functions differ in
    their prefix, command, messages and flag only. [flag] is the value of
    the worker's enabled flag when the statement runs. *)
Definition run_worker (w : Worker) (flag : bool) (p : Pc) (o : Outcome)
  : Move :=
  match p with
  | Entry =>                                  (* while <w>_enabled: *)
    if flag then move AtProbe [] else move Finished []
  | AtProbe =>                                (* if is_device_connected(..): *)
    let (r, world) := is_device_connected (device_prefix w) (answering o) in
    match r with
    | Ok true =>                              (* subprocess.run(.., check=True) *)
      move InCommand (events world ++ [Invoke (command w) true])
    | Ok false =>                             (* warning; flag = False; break *)
      {| next := Finished;
         emits := events world ++ [Log WARNING (warning_text w) None];
         clears_flag := true |}
    | Raise _ => move Finished (events world)
    end
  | InCommand =>                              (* subprocess.run returns *)
    match completed (command w) false true o with
    | Ok _ => move Entry []
    | Raise (CalledProcessError _ _ as e) =>
      move Entry [Log ERROR (error_text w) (Some e)]
    | Raise _ => move Finished []
    end
  | _ => move p []
  end.

Definition run_t265 := run_worker T265.
Definition run_d4xx := run_worker D4XX.

(* ================================================================== *)
(** ** The log follower (lines 107-115) *)

(** [logfile.readline()] on the text from the read position on. The file
    is opened with [open(log_file_path, 'r')], so in text mode with
    universal newlines: a line ends at a line feed, at a carriage return,
    or at a carriage return followed by a line feed, and whichever it is
    the line is returned with a line feed as its end; without a line end
    whatever is left is returned. The result is the line and the number
    of characters of the file that were read for it. *)
Fixpoint take_line (s : str) : str * nat :=
  match s with
  | [] => ([], 0)
  | c :: rest =>
    if (c =? LF)%N then ([LF], 1)
    else if (c =? CR)%N then
      ([LF], match rest with
             | c2 :: _ => if (c2 =? LF)%N then 2 else 1
             | [] => 1
             end)
    else let (line, read) := take_line rest in (c :: line, S read)
  end.

Definition readline (content : str) (position : nat) : str * nat :=
  take_line (drop position content).

(** The log file and its follower: [position] is [None] until the file is
    open, then the read position; [console] is what the follower did;
    [over] says that [publish_logs] has been left by an exception. *)
Record Tail := {
  logfile : str;
  position : option nat;
  console : list Event;
  over : bool
}.

(** One move of [publish_logs]: first [open] and [seek(0, os.SEEK_END)],
    then one iteration of [while True] per move. The loop has no exit. *)
Definition publish_logs (t : Tail) : Tail :=
  if over t then t else
  match position t with
  | None =>
    {| logfile := logfile t; position := Some (length (logfile t));
       console := console t; over := false |}
  | Some p =>
    let (line, read) := readline (logfile t) p in
    match line with
    | [] =>
      {| logfile := logfile t; position := Some p;
         console := console t ++ [Sleep 1]; over := false |}
    | _ =>
      {| logfile := logfile t; position := Some (p + read);
         console := console t ++ [Print (strip line)]; over := false |}
    end
  end.

(** The next statement of [publish_logs] raises ([open], [seek],
    [readline] or [print] failed): nothing catches the exception and the
    function is left. *)
Definition publish_logs_raises (t : Tail) : Tail :=
  {| logfile := logfile t; position := position t; console := console t;
     over := true |}.

(** A producer appends [chunk] to the file. *)
Definition append_log (chunk : str) (t : Tail) : Tail :=
  {| logfile := logfile t ++ chunk; position := position t;
     console := console t; over := over t |}.

Inductive TailInput := Append (chunk : str) | Follow | Break.

Definition tail_step (t : Tail) (i : TailInput) : Tail :=
  match i with
  | Append chunk => append_log chunk t
  | Follow => publish_logs t
  | Break => publish_logs_raises t
  end.

Definition tail_run (t : Tail) (ins : list TailInput) : Tail :=
  fold_left tail_step ins t.

(** In the thread machine the follower only matters as a thread that
    touches neither flags nor threads: it opens the file, then stays in
    its [while True]. It has no statement that leaves the loop; it ends
    when one of its statements raises ([raises]: [open], [seek],
    [readline] or [print] failed, as in [publish_logs_raises]), for it
    catches nothing. *)
Definition publish_logs_thread (p : Pc) (raises : bool) : Move :=
  match p with
  | Finished => move Finished []
  | Entry => move (if raises then Finished else Tailing) []
  | _ => move (if raises then Finished else p) []
  end.

(* ================================================================== *)
(** ** The [__main__] block (lines 117-169) *)

(** Lines 130-137 *)
Definition handle_flags (s : State) : State :=
  if sik_only (args s) then disable D4XX (disable T265 s)
  else
    let s := if disable_t265 (args s) then disable T265 s else s in
    if disable_d4xx (args s) then disable D4XX s else s.

(** Reading a name of [__main__]; an unbound one raises [NameError]. *)
Definition read_name (v : option nat) : Res nat :=
  match v with Some h => Ok h | None => Raise NameError end.

Definition initializing : str :=
  text "ONICS - Optical Navigation and Interference Control System is initializing...".

Definition main_step (o : Outcome) (s : State) : State :=
  match main s with
  | MStart =>
    if enumerate (args s) then
      let (r, world) := enumerate_devices (answering o) in
      let s := record MainThread (events world) s in
      match r with
      | Ok _ => goto MExit s
      | Raise e => goto (MCrashed e) s
      end
    else goto MStartLog (handle_flags s)
  | MStartLog => goto MPrintInit (start_thread N_log_thread PublishLogs s)
  | MPrintInit => goto MStart1 (record MainThread [Print initializing] s)
  | MStart1 => goto MStart2 (start_thread N_thread1 Mavproxy s)
  | MStart2 =>
    goto MStart3
      (if t265_enabled s then start_thread N_thread2 (Run T265) s else s)
  | MStart3 =>
    goto MBuild
      (if d4xx_enabled s then start_thread N_thread3 (Run D4XX) s else s)
  | MBuild =>                        (* threads = [(thread1, mavproxy_..)] *)
    match read_name (thread1 s) with
    | Ok h => goto (MAppend2 [(h, Mavproxy)]) s
    | Raise e => goto (MCrashed e) s
    end
  | MAppend2 threads =>              (* if t265_enabled: threads.append(..) *)
    if t265_enabled s then
      match read_name (thread2 s) with
      | Ok h => goto (MAppend3 (threads ++ [(h, Run T265)])) s
      | Raise e => goto (MCrashed e) s
      end
    else goto (MAppend3 threads) s
  | MAppend3 threads =>              (* if d4xx_enabled: threads.append(..) *)
    if d4xx_enabled s then
      match read_name (thread3 s) with
      | Ok h => goto (MFor (threads ++ [(h, Run D4XX)])) s
      | Raise e => goto (MCrashed e) s
      end
    else goto (MFor threads) s
  | MFor [] => goto MSleep s
  | MFor ((h, func) :: rest) =>      (* thread, func = the pair; *)
    goto (MFor rest)                 (* if not thread.is_alive(): ... *)
      (if is_alive h s then bind_name N_thread h s
       else start_thread N_thread func s)
  | MSleep => goto MBuild (record MainThread [Sleep 1] s)
  | MExit => s
  | MCrashed _ => s
  end.

(** The next statement of a thread, given the globals it reads. *)
Definition thread_move (th : Thread) (o : Outcome) (s : State) : Move :=
  match target th with
  | Mavproxy => mavproxy_create_connection (pc th) o
  | Run w => run_worker w (enabled w s) (pc th) o
  | PublishLogs => publish_logs_thread (pc th) false
  end.

(** The worker whose flag a target may assign. *)
Definition cleared (th : Thread) (m : Move) (w : Worker) : bool :=
  clears_flag m && bool_decide (target th = Run w).

(** Thread [tid] executes its next statement. *)
Definition thread_step (tid : nat) (o : Outcome) (s : State) : State :=
  match pool s !! tid with
  | None => s
  | Some th =>
    let m := thread_move th o s in
    {| args := args s;
       t265_enabled := if cleared th m T265 then false else t265_enabled s;
       d4xx_enabled := if cleared th m D4XX then false else d4xx_enabled s;
       pool := <[tid := {| target := target th; pc := next m |}]> (pool s);
       log_thread := log_thread s; thread1 := thread1 s;
       thread2 := thread2 s; thread3 := thread3 s; thread := thread s;
       main := main s;
       trace := trace s ++ map (pair (Th tid)) (emits m) |}
  end.

(** The next statement of thread [tid] raises an exception of the file
    system or of the console. Of the targets only [publish_logs] has such
    statements; the exception leaves it and the thread is over. *)
Definition thread_fail (tid : nat) (s : State) : State :=
  match pool s !! tid with
  | Some {| target := PublishLogs; pc := p |} =>
    with_pool (<[tid := {| target := PublishLogs;
                           pc := next (publish_logs_thread p true) |}]> (pool s))
              s
  | _ => s
  end.

(** A scheduling choice together with the environment's answer: the
    outcome of the subprocess call the statement makes or waits for, or
    the failure of the statement's file or console operation. *)
Inductive Input :=
| RunMain (o : Outcome)
| RunThread (tid : nat) (o : Outcome)
| FailThread (tid : nat).

Definition step (s : State) (i : Input) : State :=
  match i with
  | RunMain o => main_step o s
  | RunThread tid o => thread_step tid o s
  | FailThread tid => thread_fail tid s
  end.

Definition run (s : State) (ins : list Input) : State := fold_left step ins s.

(** Thread [tid] is a live run of target [f]. *)
Definition is_live_run (f : Func) (s : State) (tid : nat) : bool :=
  match pool s !! tid with
  | Some th => bool_decide (target th = f) && is_alive tid s
  | None => false
  end.

(** The live runs of a target: the indices of its threads that are alive. *)
Definition live_runs (f : Func) (s : State) : list nat :=
  List.filter (is_live_run f s) (seq 0 (length (pool s))).

(** The sequence of strings printed, in order. *)
Definition printed (evs : list Event) : list str :=
  omap (fun e => match e with Print x => Some x | _ => None end) evs.

(** [line] holds one of the relevant prefixes (the test of lines 52-53
    taken over the whole inner loop). *)
Definition is_relevant (line : str) : bool :=
  existsb (fun device_prefix => str_in device_prefix line) relevant_devices.

(* ================================================================== *)
(** ** Concrete inputs used by the examples *)

Definition no_flags : Args :=
  {| enumerate := false; disable_t265 := false; disable_d4xx := false;
     sik_only := false |}.

Definition only_sik : Args :=
  {| enumerate := false; disable_t265 := false; disable_d4xx := false;
     sik_only := true |}.

Definition only_enumerate : Args :=
  {| enumerate := true; disable_t265 := false; disable_d4xx := false;
     sik_only := false |}.

Definition clean_exit : Outcome := Exited 0 [].
Definition failed_exit : Outcome := Exited 1 [].

(** What the enumeration tool prints with a T265 attached. *)
Definition t265_listing : str :=
  text "Device info:" ++ [LF] ++
  text "    Name                          :     Intel RealSense T265" ++ [LF].

(* ================================================================== *)
(** ** Vocabulary for the log follower's properties *)

(** The lines of a text read as a whole in text mode ([f.readlines()]):
    each line with a line feed as its end, whether it ended in a line
    feed, a carriage return or both; a last line may lack one. *)
Fixpoint readlines (s : str) : list str :=
  match s with
  | [] => []
  | c :: rest =>
    if (c =? LF)%N then [LF] :: readlines rest
    else if (c =? CR)%N then
      [LF] :: match rest with
              | c2 :: rest2 =>
                if (c2 =? LF)%N then readlines rest2 else readlines rest
              | [] => []
              end
    else match readlines rest with
         | [] => [[c]]
         | line :: lines => (c :: line) :: lines
         end
  end.

(** A text made of whole lines: empty, or ending in a line feed. *)
Definition whole_lines (chunk : str) : Prop :=
  chunk = [] \/ last chunk = Some LF.

(** An input of an execution in which producers append whole lines and
    no statement of the follower raises. *)
Definition appends_whole_lines (i : TailInput) : Prop :=
  match i with
  | Append chunk => whole_lines chunk
  | Follow => True
  | Break => False
  end.

(** Everything appended by a sequence of inputs, in order. *)
Definition appended (ins : list TailInput) : str :=
  concat (omap (fun i => match i with
                         | Append chunk => Some chunk
                         | Follow | Break => None
                         end) ins).

(** The text after the follower's read position. *)
Definition unread (t : Tail) : str :=
  match position t with
  | Some p => drop p (logfile t)
  | None => []
  end.

(** Records whose lines end in the three ways a line can end. *)
Definition mixed_line_ends : list TailInput :=
  [Append (text "abc" ++ [CR] ++ text "def" ++ [CR; LF] ++ text "ghi" ++ [LF]);
   Follow].

(** A log with some history and a startup in which two records are
    appended while the follower runs. *)
Definition tail_history : str := text "old record" ++ [LF].
Definition tail_inputs : list TailInput :=
  [Follow;
   Append (text "  mavproxy error: 1 " ++ [LF]);
   Append (text "T265 device not detected." ++ [LF]);
   Follow].

(* ================================================================== *)
(** ** Vocabulary for the supervisor's properties *)

#[export] Instance Actor_eq_dec : EqDecision Actor.
Proof. solve_decision. Defined.

(** The target the main thread's next statement starts a thread for. *)
Definition spawns (s : State) : option Func :=
  match main s with
  | MStartLog => Some PublishLogs
  | MStart1 => Some Mavproxy
  | MStart2 => if t265_enabled s then Some (Run T265) else None
  | MStart3 => if d4xx_enabled s then Some (Run D4XX) else None
  | MFor ((h, func) :: _) => if is_alive h s then None else Some func
  | _ => None
  end.

(** The pairs of [threads] the monitoring loop still holds. *)
Definition pending (m : MainPc) : list (nat * Func) :=
  match m with
  | MAppend2 threads | MAppend3 threads | MFor threads => threads
  | _ => []
  end.

(** How far the startup sequence of lines 126-156 has come. *)
Definition rank (m : MainPc) : nat :=
  match m with
  | MStart => 0
  | MStartLog => 1
  | MPrintInit => 2
  | MStart1 => 3
  | MStart2 => 4
  | MStart3 => 5
  | _ => 6
  end.

(** The main thread has not begun supervision, or it is over. *)
Definition idle (m : MainPc) : bool :=
  match m with
  | MStart | MExit | MCrashed _ => true
  | _ => false
  end.

(** The number of statements of the main thread in a schedule. *)
Definition main_steps (ins : list Input) : nat :=
  length (List.filter (fun i => match i with RunMain _ => true | _ => false end)
                      ins).

(** [e] is a launch of the command of worker [w]. *)
Definition is_launch (w : Worker) (e : Event) : bool :=
  match e with
  | Invoke cmd _ => bool_decide (cmd = command w)
  | _ => false
  end.

(** The launches of the command of worker [w] seen so far. *)
Definition launches (w : Worker) (s : State) : list (Actor * Event) :=
  List.filter (fun ae => is_launch w ae.2) (trace s).

(** The events of thread [tid] seen so far. *)
Definition by_thread (tid : nat) (l : list (Actor * Event)) : list Event :=
  map snd (List.filter (fun ae => bool_decide (ae.1 = Th tid)) l).

Definition events_of (tid : nat) (s : State) : list Event :=
  by_thread tid (trace s).

(** Thread [tid], if it runs worker [w], is not inside the loop body: it
    is at the [while] test or over. *)
Definition outside_loop (w : Worker) (s : State) (tid : nat) : Prop :=
  forall th, pool s !! tid = Some th -> target th = Run w ->
             pc th = Entry \/ pc th = Finished.

(** What holds in every state of an execution with the sik-only flag. *)
Record sik_inv (s : State) : Prop := {
  sik_args : sik_only (args s) = true;
  sik_flags :
    (t265_enabled s = false /\ d4xx_enabled s = false)
    \/ (pool s = [] /\ idle (main s) = true);
  sik_pool : forall tid th, pool s !! tid = Some th ->
                            target th = Mavproxy \/ target th = PublishLogs;
  sik_pending : forall h f, (h, f) ∈ pending (main s) -> f = Mavproxy;
  sik_trace : forall tid cmd check,
      (Th tid, Invoke cmd check) ∈ trace s -> cmd = mavproxy_command
}.

(** What holds in every state of an execution in supervision mode. *)
Record relay_inv (s : State) : Prop := {
  relay_mode : enumerate (args s) = false;
  relay_running : main s <> MExit /\ forall e, main s <> MCrashed e;
  relay_none : rank (main s) < 4 ->
    forall tid th, pool s !! tid = Some th -> target th <> Mavproxy;
  relay_handle : 4 <= rank (main s) ->
    exists h th, thread1 s = Some h /\ pool s !! h = Some th
                 /\ target th = Mavproxy;
  relay_thread2 : 5 <= rank (main s) -> t265_enabled s = true ->
                  is_Some (thread2 s);
  relay_thread3 : 6 <= rank (main s) -> d4xx_enabled s = true ->
                  is_Some (thread3 s);
  relay_pending : forall h, (h, Mavproxy) ∈ pending (main s) ->
                            thread1 s = Some h;
  relay_others : forall tid th, pool s !! tid = Some th ->
    target th = Mavproxy ->
    exists h, thread1 s = Some h /\ (tid = h \/ is_alive h s = false)
}.

(** An upper bound on the statements the main thread executes before it
    is at line 160: the rest of the startup sequence, or the rest of the
    monitoring cycle. *)
Definition to_build (m : MainPc) : nat :=
  match m with
  | MStart => 6
  | MStartLog => 5
  | MPrintInit => 4
  | MStart1 => 3
  | MStart2 => 2
  | MStart3 => 1
  | MBuild => 0
  | MAppend2 threads => length threads + 6
  | MAppend3 threads => length threads + 4
  | MFor threads => length threads + 2
  | MSleep => 1
  | MExit | MCrashed _ => 0
  end.

(** [threads] never holds more than the three pairs. *)
Definition pending_bound (m : MainPc) : Prop :=
  match m with
  | MAppend2 threads => length threads <= 1
  | MAppend3 threads => length threads <= 2
  | MFor threads => length threads <= 3
  | _ => True
  end.

Definition is_sleep (e : Event) : bool :=
  match e with Sleep _ => true | _ => false end.

(** The number of polling intervals slept so far (line 169). *)
Definition sleeps (s : State) : nat :=
  length (List.filter (fun ae : Actor * Event => is_sleep ae.2) (trace s)).

(** The first statements of a monitoring cycle that began with [n]
    threads and the relay's handle [h] dead: after [k] of them the pair of
    the relay is in [threads] and has not been processed. *)
Definition cycle_phase (n h : nat) (k : nat) (s : State) : Prop :=
  length (pool s) = n /\ is_alive h s = false /\ thread1 s = Some h
  /\ match k with
     | 0 => main s = MBuild
     | 1 => exists l, main s = MAppend2 ((h, Mavproxy) :: l)
     | 2 => exists l, main s = MAppend3 ((h, Mavproxy) :: l)
     | 3 => exists l, main s = MFor ((h, Mavproxy) :: l)
     | _ => False
     end.

(** Startup without flags, after which the T265 worker (thread 2) passes
    its [while] test and stands before its probe. *)
Definition probe_schedule : list Input :=
  repeat (RunMain clean_exit) 6 ++ [RunThread 2 clean_exit].

(** What the enumeration tool prints with nothing attached. *)
Definition nothing_attached : Outcome :=
  Exited 0 (text "No device detected. Is it plugged in?" ++ [LF]).

(** Startup without flags; the relay (thread 1) is launched and exits
    with status 1. *)
Definition relay_fails_schedule : list Input :=
  repeat (RunMain clean_exit) 6 ++
  [RunThread 1 clean_exit; RunThread 1 failed_exit].

(** Seven statements of the main thread: from line 160 through the three
    pairs of [threads] to the sleep of line 169. *)
Definition one_cycle : list Input := repeat (RunMain clean_exit) 7.

(** The relay fails, one monitoring cycle restarts it, the restarted relay
    (thread 4) is launched and keeps running, a second cycle passes, and
    the thread that cycle started (thread 5) launches the relay as well. *)
Definition double_launch_schedule : list Input :=
  relay_fails_schedule ++ one_cycle ++ [RunThread 4 clean_exit] ++
  one_cycle ++ [RunThread 5 clean_exit].

(** The T265 worker (thread 2) finds its camera and launches its script,
    but the script cannot be executed and the thread dies of the
    [OSError]; two monitoring cycles start threads 4 and 5 for the worker;
    both pass their [while] test; thread 5 probes and finds nothing. *)
Definition sibling_schedule : list Input :=
  repeat (RunMain clean_exit) 6 ++
  [RunThread 2 clean_exit; RunThread 2 (Exited 0 t265_listing);
   RunThread 2 NotExecuted] ++
  one_cycle ++ one_cycle ++
  [RunThread 4 clean_exit; RunThread 5 clean_exit;
   RunThread 5 nothing_attached].

(* ================================================================== *)
(** ** Vocabulary for further properties *)

(** The startup flag that disables worker [w] on its own. *)
Definition disable_flag (w : Worker) (a : Args) : bool :=
  match w with T265 => disable_t265 a | D4XX => disable_d4xx a end.

(** What one run of the relay has emitted, by where it stands: nothing
    before its launch, the launch while the command runs, and afterwards
    the launch, followed by the error record if the command exited with a
    status other than zero. *)
Definition relay_history (p : Pc) (evs : list Event) : Prop :=
  match p with
  | Entry => evs = []
  | InCommand => evs = [Invoke mavproxy_command true]
  | Finished =>
    evs = [Invoke mavproxy_command true]
    \/ exists status,
         status <> 0%Z
         /\ evs = [Invoke mavproxy_command true;
                   Log ERROR (text "mavproxy error: %s")
                       (Some (CalledProcessError status mavproxy_command))]
  | _ => False
  end.

(** The status a command exited with, if it was executed. *)
Definition exit_status (o : Outcome) : option Z :=
  match o with
  | Exited status _ | Undecodable status => Some status
  | NotExecuted => None
  end.

(** The error record of a run of the relay whose command ended as [o]. *)
Definition relay_error (o : Outcome) : list Event :=
  match exit_status o with
  | Some status =>
    if (status =? 0)%Z then []
    else [Log ERROR (text "mavproxy error: %s")
              (Some (CalledProcessError status mavproxy_command))]
  | None => []
  end.

(** Every event of a thread is of a thread that exists, and every run of
    the relay has the history of its position. *)
Record history_inv (s : State) : Prop := {
  history_known : forall tid e, (Th tid, e) ∈ trace s ->
                                tid < length (pool s);
  history_relay : forall tid th, pool s !! tid = Some th ->
    target th = Mavproxy -> relay_history (pc th) (events_of tid s)
}.

(** Worker [w] is disabled and the monitoring loop holds no pair for it. *)
Definition retired (w : Worker) (s : State) : Prop :=
  enabled w s = false
  /\ forall h, (h, Run w) ∉ pending (main s).

(** What holds in every state of an execution in which worker [w] is
    disabled by the startup flags. *)
Record flagged_inv (w : Worker) (s : State) : Prop := {
  flagged_args : sik_only (args s) = true \/ disable_flag w (args s) = true;
  flagged_flag : enabled w s = false \/ idle (main s) = true;
  flagged_pending : forall h, (h, Run w) ∉ pending (main s);
  flagged_pool : forall tid th, pool s !! tid = Some th ->
                                target th <> Run w
}.

(** What holds of the log follower's thread in every state of an
    execution in supervision mode. *)
Record follower_inv (s : State) : Prop := {
  follower_none : rank (main s) < 2 ->
    forall tid th, pool s !! tid = Some th -> target th <> PublishLogs;
  follower_one : 2 <= rank (main s) ->
    exists h th, log_thread s = Some h /\ pool s !! h = Some th
                 /\ target th = PublishLogs
                 /\ forall tid th', pool s !! tid = Some th' ->
                      target th' = PublishLogs -> tid = h;
  follower_pending : forall h, (h, PublishLogs) ∉ pending (main s);
  follower_mode : enumerate (args s) = false
}.

Definition only_no_t265 : Args :=
  {| enumerate := false; disable_t265 := true; disable_d4xx := false;
     sik_only := false |}.

(** The rank of the statement that starts the thread of worker [w]
    (lines 150-152 for the T265, lines 154-156 for the D4XX), and the name
    that thread is bound to. *)
Definition start_rank (w : Worker) : nat :=
  match w with T265 => 4 | D4XX => 5 end.

Definition handle_of (w : Worker) (s : State) : option nat :=
  match w with T265 => thread2 s | D4XX => thread3 s end.

(** What holds in every state of an execution in supervision mode in
    which no startup flag disables worker [w]. *)
Record startup_inv (w : Worker) (s : State) : Prop := {
  startup_args : enumerate (args s) = false /\ sik_only (args s) = false
                 /\ disable_flag w (args s) = false;
  startup_before : rank (main s) <= start_rank w ->
    enabled w s = true
    /\ forall tid th, pool s !! tid = Some th -> target th <> Run w;
  startup_after : start_rank w < rank (main s) ->
    exists h th, handle_of w s = Some h /\ pool s !! h = Some th
                 /\ target th = Run w
}.

(* ================================================================== *)
(** * Properties *)

(** ** The definitions on small inputs *)

Example splitlines_examples :
  splitlines (text "") = []
  /\ splitlines (text "one" ++ [LF]) = [text "one"]
  /\ splitlines (text "one" ++ [CR; LF] ++ text "two") = [text "one"; text "two"]
  /\ splitlines (text "one" ++ [LF; LF] ++ text "two" ++ [LF])
     = [text "one"; []; text "two"].
Proof. by vm_compute. Qed.

Example strip_example :
  strip (text "   Name : T265  " ++ [LF]) = text "Name : T265".
Proof. by vm_compute. Qed.

Example str_in_examples :
  str_in (text "T265") (text "Intel RealSense T265") = true
  /\ str_in (text "t265") (text "Intel RealSense T265") = false
  /\ str_in (text "D4") (text "Intel RealSense D435I") = true
  /\ str_in [] [] = true.
Proof. by vm_compute. Qed.

Example readline_examples :
  readline (text "old" ++ [LF] ++ text "new" ++ [LF] ++ text "par") 4
    = (text "new" ++ [LF], 4)
  /\ readline (text "old" ++ [LF] ++ text "new" ++ [LF] ++ text "par") 8
    = (text "par", 3)
  /\ readline (text "old" ++ [LF]) 4 = ([], 0)
  /\ readline (text "abc" ++ [CR] ++ text "def" ++ [CR; LF] ++ text "ghi") 0
    = (text "abc" ++ [LF], 4)
  /\ readline (text "abc" ++ [CR] ++ text "def" ++ [CR; LF] ++ text "ghi") 4
    = (text "def" ++ [LF], 5)
  /\ readline (text "abc" ++ [CR]) 0 = (text "abc" ++ [LF], 4)
  /\ readlines (text "abc" ++ [CR] ++ text "def" ++ [CR; LF] ++ text "ghi")
    = [text "abc" ++ [LF]; text "def" ++ [LF]; text "ghi"].
Proof. by vm_compute. Qed.

Example startup_without_flags :
  let s := run (init no_flags) (repeat (RunMain clean_exit) 6) in
  map target (pool s) = [PublishLogs; Mavproxy; Run T265; Run D4XX]
  /\ (thread1 s, thread2 s, thread3 s) = (Some 1, Some 2, Some 3)
  /\ main s = MBuild.
Proof. by vm_compute. Qed.

(** ** Text *)

Lemma startswith_spec (p s : str) :
  startswith p s = true <-> exists after, s = p ++ after.
Proof.
  revert s. induction p as [|a p IH]; intros s; simpl.
  - split; [eauto | done].
  - destruct s as [|b s].
    + split; [done | intros [after H]; discriminate].
    + rewrite andb_true_iff, N.eqb_eq, IH. split.
      * intros [-> [after ->]]. eauto.
      * intros [after H]. injection H as -> ->. eauto.
Qed.

Lemma str_in_spec (needle hay : str) :
  str_in needle hay = true <-> occurs_in needle hay.
Proof.
  unfold occurs_in. induction hay as [|c hay IH]; simpl.
  - rewrite orb_false_r, startswith_spec. split.
    + intros [after H]. exists [], after. done.
    + intros [before [after H]]. destruct before; simpl in H.
      * eauto.
      * discriminate.
  - rewrite orb_true_iff, startswith_spec, IH. split.
    + intros [[after H] | [before [after H]]].
      * exists [], after. done.
      * exists (c :: before), after. simpl. by rewrite H.
    + intros [before [after H]]. destruct before as [|b before]; simpl in H.
      * left. eauto.
      * right. injection H as _ H. eauto.
Qed.

Lemma is_device_connected_scan_spec (device_prefix : str) (lines : list str) :
  is_device_connected_scan device_prefix lines = true <->
  exists line, line ∈ lines /\ occurs_in device_prefix line.
Proof.
  induction lines as [|l lines IH]; simpl.
  - split; [done | intros [line [H _]]; by apply elem_of_nil in H].
  - destruct (str_in device_prefix l) eqn:E.
    + split; [|done]. intros _. exists l. split; [left | by apply str_in_spec].
    + rewrite IH. split.
      * intros [line [H1 H2]]. exists line. split; [by right | done].
      * intros [line [H1 H2]]. apply elem_of_cons in H1 as [-> | H1].
        -- apply str_in_spec in H2. congruence.
        -- eauto.
Qed.

(** ** Device prober *)

Lemma is_device_connected_exited (device_prefix : str) (status : Z) (out : str)
  (w : World) :
  tool w (calls w) = Exited status out ->
  is_device_connected device_prefix w =
    (Ok (is_device_connected_scan device_prefix (splitlines out)),
     {| tool := tool w; calls := S (calls w);
        events := events w ++ [Invoke rs_enumerate_devices false] |}).
Proof.
  intros H. unfold is_device_connected, try_except, mbind, M_bind,
    subprocess_run, completed. rewrite H. reflexivity.
Qed.

(** C7. On a run of the enumeration tool that exits, whatever its status,
    [is_device_connected] calls the tool exactly once, logs nothing, and
    answers true exactly when some line of the tool's standard output
    holds the prefix as a contiguous, case-sensitive run of characters. *)
Theorem is_device_connected_normal_run (device_prefix : str) (status : Z)
  (out : str) (w : World) :
  tool w (calls w) = Exited status out ->
  exists found : bool,
    is_device_connected device_prefix w =
      (Ok found,
       {| tool := tool w; calls := S (calls w);
          events := events w ++ [Invoke rs_enumerate_devices false] |})
    /\ (found = true <->
        exists line, line ∈ splitlines out /\ occurs_in device_prefix line).
Proof.
  intros H. eexists. split.
  - by apply (is_device_connected_exited _ status out).
  - apply is_device_connected_scan_spec.
Qed.

Lemma is_device_connected_normal_run_witness :
  tool (answering (Exited 0 t265_listing))
       (calls (answering (Exited 0 t265_listing))) = Exited 0 t265_listing
  /\ exists found : bool,
    is_device_connected (text "T265") (answering (Exited 0 t265_listing)) =
      (Ok found,
       {| tool := tool (answering (Exited 0 t265_listing)); calls := 1;
          events := [] ++ [Invoke rs_enumerate_devices false] |})
    /\ (found = true <->
        exists line, line ∈ splitlines t265_listing
                     /\ occurs_in (text "T265") line).
Proof.
  split; [reflexivity|].
  apply (is_device_connected_normal_run (text "T265") 0 t265_listing
           (answering (Exited 0 t265_listing))).
  reflexivity.
Defined.

(** C2, evaluated on the code. When the tool cannot be executed the call
    raises [OSError] instead of returning false; when the tool exits with
    status 1 after listing a T265 the call returns true; in neither case
    is anything logged: the handler for [CalledProcessError] is never
    entered because the call is made without [check=True]. *)
Theorem is_device_connected_failure_not_absorbed :
  (forall device_prefix,
     is_device_connected device_prefix (answering NotExecuted) =
       (Raise OSError,
        {| tool := fun _ => NotExecuted; calls := 1;
           events := [Invoke rs_enumerate_devices false] |}))
  /\ is_device_connected (text "T265") (answering (Exited 1 t265_listing)) =
       (Ok true,
        {| tool := fun _ => Exited 1 t265_listing; calls := 1;
           events := [Invoke rs_enumerate_devices false] |})
  /\ (forall device_prefix o e,
        Log ERROR (text "Error checking for RealSense devices: %s") e
          ∉ events (is_device_connected device_prefix (answering o)).2).
Proof.
  split; [|split].
  - reflexivity.
  - reflexivity.
  - intros device_prefix [status out|status|] e.
    + rewrite (is_device_connected_exited _ status out) by reflexivity.
      simpl. intros H. apply list_elem_of_singleton in H. discriminate.
    + simpl. intros H. apply list_elem_of_singleton in H. discriminate.
    + simpl. intros H. apply list_elem_of_singleton in H. discriminate.
Qed.

(** ** Enumeration report *)

Lemma enumerate_devices_line_spec (prefixes : list str) (line : str)
  (detected_devices : list str) :
  enumerate_devices_line prefixes line detected_devices =
  detected_devices ++
    if existsb (fun device_prefix => str_in device_prefix line) prefixes
    then [strip line] else [].
Proof.
  induction prefixes as [|p prefixes IH]; simpl.
  - by rewrite app_nil_r.
  - destruct (str_in p line); simpl; [done | apply IH].
Qed.

Lemma enumerate_devices_fold (lines : list str) (acc : list str) :
  fold_left (fun detected_devices line =>
               enumerate_devices_line relevant_devices line detected_devices)
            lines acc
  = acc ++ map strip (List.filter is_relevant lines).
Proof.
  revert acc. induction lines as [|l lines IH]; intros acc.
  - simpl. by rewrite app_nil_r.
  - cbn [fold_left List.filter]. rewrite IH, enumerate_devices_line_spec.
    fold (is_relevant l). destruct (is_relevant l); simpl.
    + by rewrite <- app_assoc.
    + by rewrite app_nil_r.
Qed.

Lemma enumerate_devices_scan_filter (lines : list str) :
  enumerate_devices_scan lines = map strip (List.filter is_relevant lines).
Proof. unfold enumerate_devices_scan. by rewrite enumerate_devices_fold. Qed.

Lemma is_relevant_spec (line : str) :
  is_relevant line = true <->
  occurs_in (text "T265") line \/ occurs_in (text "D4") line.
Proof.
  unfold is_relevant, relevant_devices. simpl.
  rewrite orb_false_r, orb_true_iff, !str_in_spec. done.
Qed.

Lemma print_each_events (l : list str) (w : World) :
  print_each l w =
  (Ok tt, {| tool := tool w; calls := calls w;
             events := events w ++ map Print l |}).
Proof.
  revert w. induction l as [|x l IH]; intros w; simpl.
  - unfold mret, M_ret. rewrite app_nil_r. by destruct w.
  - unfold mbind, M_bind, print, emit. rewrite IH. simpl.
    by rewrite <- app_assoc.
Qed.

Lemma enumerate_devices_exited (status : Z) (out : str) (w : World) :
  tool w (calls w) = Exited status out ->
  enumerate_devices w =
    (Ok tt,
     {| tool := tool w; calls := S (calls w);
        events :=
          events w ++ Invoke rs_enumerate_devices false ::
          match map strip (List.filter is_relevant (splitlines out)) with
          | [] => [Print (text "No relevant RealSense devices detected.")]
          | detected =>
            Print (text "Detected RealSense Devices:") :: map Print detected
          end |}).
Proof.
  intros H. unfold enumerate_devices, try_except, subprocess_run, completed.
  unfold mbind at 1. unfold M_bind at 1.
  unfold mbind at 1. unfold M_bind at 1.
  rewrite H. simpl. rewrite enumerate_devices_scan_filter.
  destruct (map strip (List.filter is_relevant (splitlines out))) as [|d ds].
  - unfold print, emit. simpl. by rewrite <- app_assoc.
  - unfold mbind, M_bind, print, emit. rewrite print_each_events. simpl.
    by rewrite <- !app_assoc.
Qed.

Lemma run_app (s : State) (ins1 ins2 : list Input) :
  run s (ins1 ++ ins2) = run (run s ins1) ins2.
Proof. apply fold_left_app. Qed.

Lemma run_cons (s : State) (i : Input) (ins : list Input) :
  run s (i :: ins) = run (step s i) ins.
Proof. reflexivity. Qed.

Lemma enumerate_branch_pool (a : Args) (o : Outcome) :
  enumerate a = true ->
  let s := step (init a) (RunMain o) in
  pool s = []
  /\ trace s =
     map (pair MainThread) (events (enumerate_devices (answering o)).2)
  /\ (main s = MExit \/ exists e, main s = MCrashed e).
Proof.
  intros H. simpl. unfold main_step. simpl. rewrite H.
  destruct (enumerate_devices (answering o)) as [[[]|e] world]; simpl; eauto.
Qed.

Lemma enumerate_branch_stops (a : Args) (ins : list Input) :
  enumerate a = true ->
  run (init a) ins = init a
  \/ exists o, run (init a) ins = step (init a) (RunMain o).
Proof.
  intros H. induction ins as [|i ins IH] using rev_ind; [by left|].
  unfold run in *. rewrite fold_left_app. simpl.
  destruct IH as [-> | [o ->]].
  - destruct i as [o | tid o | tid]; [eauto| |]; left; reflexivity.
  - right. exists o.
    destruct (enumerate_branch_pool a o H) as (Hp & _ & Hm).
    destruct i as [o' | tid o' | tid]; simpl.
    + unfold main_step at 1.
      destruct Hm as [Hm | [e Hm]]; simpl in Hm; by rewrite Hm.
    + unfold thread_step at 1. simpl in Hp. by rewrite Hp.
    + unfold thread_fail at 1. simpl in Hp. by rewrite Hp.
Qed.

Lemma enumerate_branch_stable (a : Args) (o : Outcome) (ins : list Input) :
  enumerate a = true ->
  run (step (init a) (RunMain o)) ins = step (init a) (RunMain o).
Proof.
  intros Ha. destruct (enumerate_branch_pool a o Ha) as (Hp & _ & Hm).
  induction ins as [|i ins IH]; [done|]. rewrite run_cons.
  replace (step (step (init a) (RunMain o)) i)
    with (step (init a) (RunMain o)); [done|].
  symmetry. destruct i as [o' | tid o' | tid]; simpl.
  - unfold main_step at 1.
    destruct Hm as [Hm | [e Hm]]; simpl in Hm; by rewrite Hm.
  - unfold thread_step at 1. simpl in Hp. by rewrite Hp.
  - unfold thread_fail at 1. simpl in Hp. by rewrite Hp.
Qed.


Lemma enumerate_branch_idle (a : Args) (ins : list Input) :
  main_steps ins = 0 -> run (init a) ins = init a.
Proof.
  induction ins as [|i ins IH]; [done|]. destruct i as [o | tid o | tid].
  - unfold main_steps. simpl. lia.
  - intros H. rewrite run_cons. by apply IH.
  - intros H. rewrite run_cons. by apply IH.
Qed.

(** C9. When the enumeration tool exits, [enumerate_devices] prints, after
    a heading, every line of its output that holds "T265" or "D4" (each
    stripped of surrounding blanks, in output order), or the none-detected
    message when no line does. With the enumerate flag the process does
    this report and nothing else: the first statement of the main thread
    is the call of [enumerate_devices], everything observed is what that
    call did, in the main thread, the main thread is over after it, and
    no thread is ever started. *)
Theorem enumerate_devices_reports_relevant_lines (status : Z) (out : str)
  (w : World) (a : Args) (ins : list Input) :
  tool w (calls w) = Exited status out ->
  enumerate a = true ->
  (forall line, is_relevant line = true <->
                occurs_in (text "T265") line \/ occurs_in (text "D4") line)
  /\ enumerate_devices w =
     (Ok tt,
      {| tool := tool w; calls := S (calls w);
         events :=
           events w ++ Invoke rs_enumerate_devices false ::
           match map strip (List.filter is_relevant (splitlines out)) with
           | [] => [Print (text "No relevant RealSense devices detected.")]
           | detected =>
             Print (text "Detected RealSense Devices:") :: map Print detected
           end |})
  /\ pool (run (init a) ins) = []
  /\ (main_steps ins = 0 -> run (init a) ins = init a)
  /\ (forall before o after,
        ins = before ++ RunMain o :: after -> main_steps before = 0 ->
        trace (run (init a) ins) =
          map (pair MainThread) (events (enumerate_devices (answering o)).2)
        /\ main (run (init a) ins) =
           match (enumerate_devices (answering o)).1 with
           | Ok _ => MExit
           | Raise e => MCrashed e
           end)
  /\ (forall before after,
        ins = before ++ RunMain (Exited status out) :: after ->
        main_steps before = 0 ->
        trace (run (init a) ins) =
          map (pair MainThread)
            (Invoke rs_enumerate_devices false ::
             match map strip (List.filter is_relevant (splitlines out)) with
             | [] => [Print (text "No relevant RealSense devices detected.")]
             | detected =>
               Print (text "Detected RealSense Devices:") :: map Print detected
             end)
        /\ main (run (init a) ins) = MExit).
Proof.
  intros Hw Ha. split; [apply is_relevant_spec|].
  split; [by apply (enumerate_devices_exited status out)|].
  assert (Hfirst : forall before o after,
            ins = before ++ RunMain o :: after -> main_steps before = 0 ->
            run (init a) ins = step (init a) (RunMain o)).
  { intros before o after -> Hb.
    rewrite run_app, (enumerate_branch_idle a before Hb), run_cons.
    by apply enumerate_branch_stable. }
  assert (Hstep : forall o,
            trace (step (init a) (RunMain o)) =
              map (pair MainThread) (events (enumerate_devices (answering o)).2)
            /\ main (step (init a) (RunMain o)) =
               match (enumerate_devices (answering o)).1 with
               | Ok _ => MExit
               | Raise e => MCrashed e
               end).
  { intros o. simpl. unfold main_step. simpl. rewrite Ha.
    by destruct (enumerate_devices (answering o)) as [[[]|e] world]. }
  split; [|split; [|split]].
  - destruct (enumerate_branch_stops a ins Ha) as [-> | [o ->]]; [done|].
    by destruct (enumerate_branch_pool a o Ha) as (Hp & _).
  - apply enumerate_branch_idle.
  - intros before o after Hins Hb. rewrite (Hfirst _ _ _ Hins Hb).
    apply Hstep.
  - intros before after Hins Hb. rewrite (Hfirst _ _ _ Hins Hb).
    destruct (Hstep (Exited status out)) as [-> ->].
    by rewrite (enumerate_devices_exited status out) by reflexivity.
Qed.

Lemma enumerate_devices_reports_relevant_lines_witness :
  let ins := [RunThread 0 clean_exit; RunMain (Exited 0 t265_listing);
              RunMain clean_exit; FailThread 0] in
  tool (answering (Exited 0 t265_listing))
       (calls (answering (Exited 0 t265_listing))) = Exited 0 t265_listing
  /\ enumerate only_enumerate = true
  /\ ins = [RunThread 0 clean_exit] ++ RunMain (Exited 0 t265_listing)
           :: [RunMain clean_exit; FailThread 0]
  /\ main_steps [RunThread 0 clean_exit] = 0
  /\ trace (run (init only_enumerate) ins) =
       map (pair MainThread)
         (Invoke rs_enumerate_devices false ::
          match map strip (List.filter is_relevant (splitlines t265_listing))
          with
          | [] => [Print (text "No relevant RealSense devices detected.")]
          | detected =>
            Print (text "Detected RealSense Devices:") :: map Print detected
          end)
  /\ main (run (init only_enumerate) ins) = MExit.
Proof.
  intros ins.
  split; [reflexivity|]. split; [reflexivity|]. split; [reflexivity|].
  split; [reflexivity|].
  exact (proj2 (proj2 (proj2 (proj2 (proj2
    (enumerate_devices_reports_relevant_lines 0 t265_listing
       (answering (Exited 0 t265_listing)) only_enumerate ins
       eq_refl eq_refl)))))
    [RunThread 0 clean_exit] [RunMain clean_exit; FailThread 0]
    eq_refl eq_refl).
Defined.

(** C10. A line adds at most one entry to the report: exactly one when it
    holds a relevant prefix (also when it holds both), none otherwise; and
    the report is the concatenation of what each line adds, in order. *)
Theorem enumerate_devices_adds_line_at_most_once :
  (forall line detected_devices,
     enumerate_devices_line relevant_devices line detected_devices =
     detected_devices ++
       if str_in (text "T265") line || str_in (text "D4") line
       then [strip line] else [])
  /\ (forall lines,
        enumerate_devices_scan lines =
        concat (map (fun line =>
                       enumerate_devices_line relevant_devices line []) lines))
  /\ (forall lines, length (enumerate_devices_scan lines) <= length lines)
  /\ enumerate_devices_scan [text "Intel RealSense T265 and D435"]
     = [text "Intel RealSense T265 and D435"].
Proof.
  split; [|split; [|split]].
  - intros line det. rewrite enumerate_devices_line_spec. simpl.
    by rewrite orb_false_r.
  - intros lines. rewrite enumerate_devices_scan_filter.
    induction lines as [|l lines IH]; [done|]. cbn [List.filter map concat].
    rewrite enumerate_devices_line_spec. fold (is_relevant l).
    destruct (is_relevant l); simpl; by rewrite IH.
  - intros lines. rewrite enumerate_devices_scan_filter, length_map.
    apply List.filter_length_le.
  - reflexivity.
Qed.

(** ** Log follower *)

Lemma readlines_nil (s : str) : readlines s = [] -> s = [].
Proof.
  destruct s as [|c s]; [done|]. simpl.
  destruct (c =? LF)%N; [done|]. destruct (c =? CR)%N; [done|].
  by destruct (readlines s).
Qed.

Lemma take_line_nil (s : str) : (take_line s).1 = [] -> s = [].
Proof.
  destruct s as [|c s]; [done|]. simpl.
  destruct (c =? LF)%N; [done|]. destruct (c =? CR)%N; [done|].
  by destruct (take_line s).
Qed.

Lemma take_line_read (s : str) : (take_line s).2 <= length s.
Proof.
  induction s as [|c s IH]; simpl; [done|].
  destruct (c =? LF)%N; simpl; [lia|].
  destruct (c =? CR)%N; simpl.
  - destruct s as [|c2 s]; simpl; [lia|]. destruct (c2 =? LF)%N; lia.
  - destruct (take_line s). simpl in *. lia.
Qed.

(** Reading a text as a whole gives the line [readline] returns, then the
    lines of what [readline] has left. *)
Lemma readlines_take_line (s : str) :
  s <> [] ->
  readlines s = (take_line s).1 :: readlines (drop (take_line s).2 s).
Proof.
  induction s as [|c s IH]; [done|]. intros _. simpl.
  destruct (c =? LF)%N; simpl; [done|].
  destruct (c =? CR)%N; simpl.
  - destruct s as [|c2 s]; [done|]. by destruct (c2 =? LF)%N.
  - destruct s as [|c' s]; [done|].
    rewrite IH by done. by destruct (take_line (c' :: s)).
Qed.

Lemma whole_lines_cons (c : char) (s : str) :
  whole_lines (c :: s) -> s <> [] -> whole_lines s.
Proof.
  intros [H | H]; [done|]. intros Hs. destruct s as [|c' s]; [done|].
  right. by rewrite last_cons_cons in H.
Qed.

Lemma whole_lines_ends (c : char) : whole_lines [c] -> c = LF.
Proof. intros [H | H]; [done|]. simpl in H. congruence. Qed.

Lemma readlines_cons (c : char) (rest : str) :
  readlines (c :: rest) =
  if (c =? LF)%N then [LF] :: readlines rest
  else if (c =? CR)%N then
    [LF] :: match rest with
            | c2 :: rest2 =>
              if (c2 =? LF)%N then readlines rest2 else readlines rest
            | [] => []
            end
  else match readlines rest with
       | [] => [[c]]
       | line :: lines => (c :: line) :: lines
       end.
Proof. by destruct rest. Qed.

Lemma readlines_app_bounded (n : nat) (a b : str) :
  length a <= n ->
  whole_lines a -> readlines (a ++ b) = readlines a ++ readlines b.
Proof.
  revert a. induction n as [|n IH]; intros a Hn H.
  - destruct a; [done | simpl in Hn; lia].
  - destruct a as [|c a]; [done|]. cbn [length] in Hn.
    change ((c :: a) ++ b) with (c :: (a ++ b)).
    rewrite !(readlines_cons c).
    destruct (c =? LF)%N eqn:E.
    + cbn [app]. f_equal. destruct a as [|c' a]; [done|].
      apply IH; [simpl in *; lia|]. by apply (whole_lines_cons c).
    + destruct (c =? CR)%N eqn:E'.
      * destruct a as [|c2 a].
        { apply whole_lines_ends in H. subst c. done. }
        change ((c2 :: a) ++ b) with (c2 :: (a ++ b)). cbv iota beta.
        cbn [app]. f_equal.
        destruct (c2 =? LF)%N eqn:E2.
        -- destruct a as [|c3 a]; [done|].
           apply IH; [simpl in *; lia|].
           apply (whole_lines_cons c2); [|done].
           by apply (whole_lines_cons c).
        -- apply (IH (c2 :: a)); [simpl in *; lia|].
           by apply (whole_lines_cons c).
      * assert (Ha : a <> []).
        { intros ->. apply whole_lines_ends in H. subst c. done. }
        rewrite IH; [|lia|by apply (whole_lines_cons c)].
        destruct (readlines a) as [|l ls] eqn:Er; [|done].
        by apply readlines_nil in Er.
Qed.

Lemma readlines_app (a b : str) :
  whole_lines a -> readlines (a ++ b) = readlines a ++ readlines b.
Proof. by apply (readlines_app_bounded (length a)). Qed.

Lemma whole_lines_app (a b : str) :
  whole_lines a -> whole_lines b -> whole_lines (a ++ b).
Proof.
  intros Ha [-> | Hb].
  - by rewrite app_nil_r.
  - right. destruct b as [|c b] using rev_ind; [done|].
    rewrite app_assoc, last_snoc. by rewrite last_snoc in Hb.
Qed.

Lemma whole_lines_drop (n : nat) (s : str) :
  whole_lines s -> whole_lines (drop n s).
Proof.
  intros [-> | H]; [left; by rewrite drop_nil|].
  destruct (decide (n < length s)) as [Hn | Hn].
  - right. rewrite <- (take_drop n s) in H.
    rewrite last_app in H.
    destruct (last (drop n s)) eqn:E; [done|].
    apply last_None in E. apply (f_equal length) in E.
    rewrite length_drop in E. simpl in E. lia.
  - left. apply drop_ge. lia.
Qed.

Lemma printed_snoc (evs : list Event) (e : Event) :
  printed (evs ++ [e]) =
  printed evs ++ match e with Print x => [x] | _ => [] end.
Proof. unfold printed. rewrite omap_app. by destruct e. Qed.

(** What one iteration of the loop does, in terms of the unread text. *)
Lemma publish_logs_follow (t : Tail) (p : nat) :
  over t = false ->
  position t = Some p -> p <= length (logfile t) ->
  logfile (publish_logs t) = logfile t
  /\ over (publish_logs t) = false
  /\ (unread t = [] ->
      position (publish_logs t) = Some p
      /\ console (publish_logs t) = console t ++ [Sleep 1])
  /\ (unread t <> [] ->
      position (publish_logs t) = Some (p + (take_line (unread t)).2)
      /\ p + (take_line (unread t)).2 <= length (logfile t)
      /\ unread (publish_logs t) = drop (take_line (unread t)).2 (unread t)
      /\ console (publish_logs t) =
         console t ++ [Print (strip (take_line (unread t)).1)]).
Proof.
  intros Ho Hp Hle. unfold publish_logs, unread, readline. rewrite Ho, Hp.
  pose proof (take_line_nil (drop p (logfile t))) as Hnil.
  pose proof (take_line_read (drop p (logfile t))) as Hread.
  destruct (take_line (drop p (logfile t))) as [[|c l] read] eqn:E;
    simpl in *.
  - rewrite Hnil by done. done.
  - split; [done|]. split; [done|]. split.
    + intros H. rewrite H in E. done.
    + intros _. split; [done|]. rewrite length_drop in Hread.
      split; [lia|]. split; [|done]. by rewrite drop_drop.
Qed.

Lemma unread_append (chunk : str) (t : Tail) (p : nat) :
  position t = Some p -> p <= length (logfile t) ->
  unread (append_log chunk t) = unread t ++ chunk.
Proof.
  intros Hp Hle. unfold unread, append_log. simpl. rewrite Hp.
  by rewrite drop_app_le.
Qed.

Lemma tail_run_cons (t : Tail) (i : TailInput) (ins : list TailInput) :
  tail_run t (i :: ins) = tail_run (tail_step t i) ins.
Proof. reflexivity. Qed.

Lemma tail_run_invariant (ins : list TailInput) (t : Tail) (p : nat) :
  over t = false ->
  position t = Some p -> p <= length (logfile t) ->
  whole_lines (unread t) ->
  Forall appends_whole_lines ins ->
  over (tail_run t ins) = false
  /\ (exists p', position (tail_run t ins) = Some p'
              /\ p' <= length (logfile (tail_run t ins)))
  /\ whole_lines (unread (tail_run t ins))
  /\ logfile (tail_run t ins) = logfile t ++ appended ins
  /\ printed (console (tail_run t ins))
       ++ map strip (readlines (unread (tail_run t ins)))
     = printed (console t)
       ++ map strip (readlines (unread t ++ appended ins)).
Proof.
  revert t p. induction ins as [|i ins IH]; intros t p Ho Hp Hle Hw Hins.
  - simpl. unfold appended. simpl. rewrite !app_nil_r. eauto 10.
  - apply Forall_cons in Hins as [Hi Hins]. rewrite tail_run_cons.
    destruct i as [chunk| |]; cbn [tail_step]; [| |done].
    + pose proof (unread_append chunk t p Hp Hle) as Hu.
      destruct (IH (append_log chunk t) p)
        as (Ho' & Hp' & Hw' & Hl' & Hpr); auto.
      { simpl. rewrite length_app. lia. }
      { rewrite Hu. by apply whole_lines_app. }
      split; [done|]. split; [done|]. split; [done|]. split.
      * rewrite Hl'. unfold appended. simpl. by rewrite app_assoc.
      * rewrite Hpr, Hu. unfold appended. simpl. by rewrite app_assoc.
    + destruct (publish_logs_follow t p Ho Hp Hle)
        as (Hlog & Hov & Hempty & Hsome).
      change (appended (Follow :: ins)) with (appended ins).
      destruct (decide (unread t = [])) as [Hu | Hu].
      * destruct (Hempty Hu) as [Hp' Hc].
        assert (Hu' : unread (publish_logs t) = unread t).
        { unfold unread. by rewrite Hp', Hp, Hlog. }
        destruct (IH (publish_logs t) p)
          as (Ho2 & Hp2 & Hw2 & Hl2 & Hpr); auto.
        { by rewrite Hlog. }
        { by rewrite Hu'. }
        split; [done|]. split; [done|]. split; [done|].
        split; [by rewrite Hl2, Hlog|].
        rewrite Hpr, Hc, Hu', printed_snoc. simpl. by rewrite app_nil_r.
      * destruct (Hsome Hu) as (Hp' & Hle' & Hu' & Hc).
        destruct (IH (publish_logs t) _ Hov Hp')
          as (Ho2 & Hp2 & Hw2 & Hl2 & Hpr); auto.
        { by rewrite Hlog. }
        { rewrite Hu'. by apply whole_lines_drop. }
        split; [done|]. split; [done|]. split; [done|].
        split; [by rewrite Hl2, Hlog|].
        rewrite Hpr, Hc, Hu', printed_snoc. simpl.
        rewrite <- app_assoc. f_equal.
        rewrite (readlines_app (unread t)) by done.
        rewrite (readlines_app (drop _ _)) by (by apply whole_lines_drop).
        rewrite (readlines_take_line (unread t)) by done. done.
Qed.

Lemma tail_run_catches_up (n : nat) (t : Tail) (p : nat) :
  over t = false ->
  position t = Some p -> p <= length (logfile t) ->
  length (readlines (unread t)) = n ->
  printed (console (tail_run t (repeat Follow n)))
  = printed (console t) ++ map strip (readlines (unread t)).
Proof.
  revert t p. induction n as [|n IH]; intros t p Ho Hp Hle Hn.
  - destruct (readlines (unread t)); [|done]. simpl. by rewrite app_nil_r.
  - assert (Hu : unread t <> []). { intros E. by rewrite E in Hn. }
    destruct (publish_logs_follow t p Ho Hp Hle) as (Hlog & Hov & _ & Hsome).
    destruct (Hsome Hu) as (Hp' & Hle' & Hu' & Hc).
    rewrite (readlines_take_line _ Hu) in Hn |- *. simpl in Hn.
    cbn [repeat]. rewrite tail_run_cons. cbn [tail_step].
    rewrite (IH (publish_logs t) _ Hov Hp').
    + rewrite Hc, Hu', printed_snoc. simpl. by rewrite <- app_assoc.
    + by rewrite Hlog.
    + rewrite Hu'. lia.
Qed.

(** A follower that an exception has ended does nothing any more. *)
Lemma tail_run_over (ins : list TailInput) (t : Tail) :
  over t = true ->
  over (tail_run t ins) = true
  /\ console (tail_run t ins) = console t
  /\ position (tail_run t ins) = position t.
Proof.
  revert t. induction ins as [|i ins IH]; intros t Ho; [done|].
  rewrite tail_run_cons.
  destruct i as [chunk| |]; cbn [tail_step].
  - by destruct (IH (append_log chunk t) Ho) as (-> & -> & ->).
  - unfold publish_logs. rewrite Ho. by apply IH.
  - by destruct (IH (publish_logs_raises t) eq_refl) as (-> & -> & ->).
Qed.

(** C8. [publish_logs] opens the log at its end, so none of the history
    is shown. From then on, as long as producers append whole lines
    (every write ends in a line feed, as the records of [logging] do) and
    no statement of the follower raises: the lines shown so far followed
    by the lines still unread are exactly the appended lines, in append
    order (each shown line stripped of surrounding blanks), where the
    lines of a text are those of text mode, ended by a line feed, a
    carriage return or both; an iteration shows the first unread line at
    once if there is one and sleeps one second otherwise; and after as
    many iterations as there are unread lines every appended line has
    been shown exactly once. The loop has no exit of its own: the
    follower is over only when one of its statements raises, and then it
    shows nothing any more. *)
Theorem publish_logs_surfaces_each_appended_line (history : str)
  (ins : list TailInput) :
  Forall appends_whole_lines ins ->
  let t0 := publish_logs
              {| logfile := history; position := None; console := [];
                 over := false |} in
  let t := tail_run t0 ins in
  t0 = {| logfile := history; position := Some (length history);
          console := []; over := false |}
  /\ logfile t = history ++ appended ins
  /\ over t = false
  /\ printed (console t) ++ map strip (readlines (unread t))
     = map strip (readlines (appended ins))
  /\ console (publish_logs t)
     = console t ++ [match readlines (unread t) with
                     | [] => Sleep 1
                     | line :: _ => Print (strip line)
                     end]
  /\ printed (console (tail_run t
                (repeat Follow (length (readlines (unread t))))))
     = map strip (readlines (appended ins))
  /\ (forall later,
        console (tail_run (tail_step t Break) later) = console t).
Proof.
  intros Hins t0 t. split; [reflexivity|].
  assert (Hu0 : unread t0 = []).
  { unfold unread, t0. simpl. apply drop_all. }
  destruct (tail_run_invariant ins t0 (length history))
    as (Ho & (p & Hp & Hle) & Hw & Hlog & Hpr); auto.
  { rewrite Hu0. by left. }
  fold t in Ho, Hp, Hle, Hw, Hlog, Hpr. rewrite Hu0 in Hpr. simpl in Hpr.
  split; [done|]. split; [done|]. split; [done|]. split; [|split].
  - destruct (publish_logs_follow t p Ho Hp Hle) as (_ & _ & Hempty & Hsome).
    destruct (decide (unread t = [])) as [Hu | Hu].
    + rewrite Hu. simpl. by apply Hempty.
    + rewrite (readlines_take_line _ Hu). by apply Hsome.
  - rewrite (tail_run_catches_up _ t p Ho Hp Hle eq_refl). done.
  - intros later.
    by destruct (tail_run_over later (tail_step t Break) eq_refl) as (_ & -> & _).
Qed.

Lemma publish_logs_surfaces_each_appended_line_witness :
  Forall appends_whole_lines tail_inputs
  /\ printed (console (tail_run
       (tail_run (publish_logs {| logfile := tail_history; position := None;
                                  console := []; over := false |})
                 tail_inputs)
       (repeat Follow 1)))
     = [text "mavproxy error: 1"; text "T265 device not detected."]
  /\ Forall appends_whole_lines mixed_line_ends
  /\ printed (console (tail_run
       (tail_run (publish_logs {| logfile := tail_history; position := None;
                                  console := []; over := false |})
                 mixed_line_ends)
       (repeat Follow 2)))
     = [text "abc"; text "def"; text "ghi"].
Proof.
  assert (H : Forall appends_whole_lines tail_inputs).
  { repeat constructor; right; reflexivity. }
  assert (H' : Forall appends_whole_lines mixed_line_ends).
  { repeat constructor; right; reflexivity. }
  split; [exact H|]. split.
  - exact (proj1 (proj2 (proj2 (proj2 (proj2 (proj2
      (publish_logs_surfaces_each_appended_line tail_history tail_inputs
         H))))))).
  - split; [exact H'|].
    exact (proj1 (proj2 (proj2 (proj2 (proj2 (proj2
      (publish_logs_surfaces_each_appended_line tail_history mixed_line_ends
         H'))))))).
Defined.

(** ** The thread machine: what a step can change *)

Lemma enabled_disable (w w' : Worker) (s : State) :
  enabled w (disable w' s) = if decide (w = w') then false else enabled w s.
Proof. by destruct w, w'. Qed.

Lemma enabled_start_thread (w : Worker) (n : Name) (f : Func) (s : State) :
  enabled w (start_thread n f s) = enabled w s.
Proof. by destruct w. Qed.

Lemma enabled_goto (w : Worker) (m : MainPc) (s : State) :
  enabled w (goto m s) = enabled w s.
Proof. by destruct w. Qed.

Lemma enabled_record (w : Worker) (who : Actor) (evs : list Event) (s : State) :
  enabled w (record who evs s) = enabled w s.
Proof. by destruct w. Qed.

Lemma enabled_handle_flags (w : Worker) (s : State) :
  enabled w s = false -> enabled w (handle_flags s) = false.
Proof.
  intros H. unfold handle_flags.
  repeat case_match; rewrite ?enabled_disable; repeat case_decide; done.
Qed.

Lemma enabled_thread_step (w : Worker) (tid : nat) (o : Outcome) (s : State) :
  enabled w (thread_step tid o s) =
  match pool s !! tid with
  | Some th => if cleared th (thread_move th o s) w then false else enabled w s
  | None => enabled w s
  end.
Proof. unfold thread_step. destruct (pool s !! tid); by destruct w. Qed.

Lemma main_step_keeps_disabled (w : Worker) (o : Outcome) (s : State) :
  enabled w s = false -> enabled w (main_step o s) = false.
Proof.
  intros H. unfold main_step.
  repeat case_match;
    rewrite ?enabled_goto, ?enabled_start_thread, ?enabled_record;
    auto using enabled_handle_flags.
Qed.

(** A failing statement of the follower changes its own position only. *)
Lemma thread_fail_cases (tid : nat) (s : State) :
  thread_fail tid s = s
  \/ exists p,
       pool s !! tid = Some {| target := PublishLogs; pc := p |}
       /\ thread_fail tid s =
          with_pool (<[tid := {| target := PublishLogs; pc := Finished |}]>
                       (pool s)) s.
Proof.
  unfold thread_fail. destruct (pool s !! tid) as [[[] p]|]; auto.
  right. exists p. split; [done|]. by destruct p.
Qed.

Lemma thread_fail_frame (tid : nat) (s : State) :
  args (thread_fail tid s) = args s
  /\ t265_enabled (thread_fail tid s) = t265_enabled s
  /\ d4xx_enabled (thread_fail tid s) = d4xx_enabled s
  /\ main (thread_fail tid s) = main s
  /\ trace (thread_fail tid s) = trace s
  /\ thread1 (thread_fail tid s) = thread1 s
  /\ thread2 (thread_fail tid s) = thread2 s
  /\ thread3 (thread_fail tid s) = thread3 s
  /\ log_thread (thread_fail tid s) = log_thread s
  /\ length (pool (thread_fail tid s)) = length (pool s).
Proof.
  destruct (thread_fail_cases tid s) as [-> | (p & _ & ->)]; [done|].
  simpl. by rewrite length_insert.
Qed.

Lemma enabled_thread_fail (w : Worker) (tid : nat) (s : State) :
  enabled w (thread_fail tid s) = enabled w s.
Proof.
  destruct (thread_fail_frame tid s) as (_ & H1 & H2 & _). by destruct w.
Qed.

Lemma pool_thread_fail (tid : nat) (s : State) (t : nat) :
  pool (thread_fail tid s) !! t =
  if decide (t = tid) then
    (fun th => match target th with
               | PublishLogs => {| target := PublishLogs; pc := Finished |}
               | _ => th
               end) <$> pool s !! tid
  else pool s !! t.
Proof.
  destruct (thread_fail_cases tid s) as [E | (p & E & ->)].
  - rewrite E. case_decide as Hd; [|done]. subst t. revert E.
    unfold thread_fail. destruct (pool s !! tid) as [[[] p]|] eqn:El; try done.
    simpl. intros E. destruct p; simpl in E; try done;
      apply (f_equal (fun x => pool x !! tid)) in E; simpl in E;
      rewrite list_lookup_insert_eq in E
        by (by apply lookup_lt_Some in El); congruence.
  - simpl. case_decide as Hd.
    + subst t. rewrite E. simpl. apply list_lookup_insert_eq.
      by apply lookup_lt_Some in E.
    + by apply list_lookup_insert_ne.
Qed.

(** What a thread was before a failing statement: the same thread, or the
    follower in another position. *)
Lemma pool_thread_fail_inv (tid : nat) (s : State) (t : nat) (th : Thread) :
  pool (thread_fail tid s) !! t = Some th ->
  pool s !! t = Some th
  \/ (t = tid /\ th = {| target := PublishLogs; pc := Finished |}
      /\ exists p, pool s !! t = Some {| target := PublishLogs; pc := p |}).
Proof.
  rewrite pool_thread_fail. case_decide as Hd; [|by left]. subst t.
  destruct (pool s !! tid) as [[f p]|]; [|done]. simpl.
  destruct f; intros [= <-]; eauto 10.
Qed.

Lemma step_keeps_disabled (w : Worker) (s : State) (i : Input) :
  enabled w s = false -> enabled w (step s i) = false.
Proof.
  intros H. destruct i as [o | tid o | tid]; simpl.
  - by apply main_step_keeps_disabled.
  - rewrite enabled_thread_step. by repeat case_match.
  - by rewrite enabled_thread_fail.
Qed.

Lemma run_keeps_disabled (w : Worker) (ins : list Input) (s : State) :
  enabled w s = false -> enabled w (run s ins) = false.
Proof.
  revert s. induction ins as [|i ins IH]; intros s H; [done|].
  rewrite run_cons. apply IH. by apply step_keeps_disabled.
Qed.

(** C5. In every execution, from any startup flags and under any
    schedule and any behaviour of the external commands: once the enabled
    flag of a worker is false it is false in every later state. *)
Theorem enabled_is_monotone (w : Worker) (a : Args) (ins later : list Input) :
  enabled w (run (init a) ins) = false ->
  enabled w (run (init a) (ins ++ later)) = false.
Proof. intros H. rewrite run_app. by apply run_keeps_disabled. Qed.

Lemma enabled_is_monotone_witness :
  enabled T265 (run (init only_sik) [RunMain clean_exit]) = false
  /\ enabled T265 (run (init only_sik)
                       ([RunMain clean_exit] ++ double_launch_schedule))
     = false.
Proof.
  split; [reflexivity|].
  apply (enabled_is_monotone T265 only_sik [RunMain clean_exit]
           double_launch_schedule).
  reflexivity.
Defined.

Lemma pool_thread_step (tid : nat) (o : Outcome) (s : State) (t : nat) :
  pool (thread_step tid o s) !! t =
  if decide (t = tid) then
    (fun th => {| target := target th; pc := next (thread_move th o s) |})
      <$> pool s !! tid
  else pool s !! t.
Proof.
  unfold thread_step. destruct (pool s !! tid) as [th|] eqn:E; simpl.
  - case_decide as Ht.
    + subst. apply list_lookup_insert_eq. by apply lookup_lt_Some in E.
    + by apply list_lookup_insert_ne.
  - case_decide; congruence.
Qed.

Lemma length_pool_thread_step (tid : nat) (o : Outcome) (s : State) :
  length (pool (thread_step tid o s)) = length (pool s).
Proof.
  unfold thread_step. destruct (pool s !! tid); simpl; [|done].
  apply length_insert.
Qed.

Lemma main_thread_step (tid : nat) (o : Outcome) (s : State) :
  main (thread_step tid o s) = main s
  /\ args (thread_step tid o s) = args s
  /\ thread1 (thread_step tid o s) = thread1 s
  /\ thread2 (thread_step tid o s) = thread2 s
  /\ thread3 (thread_step tid o s) = thread3 s.
Proof. unfold thread_step. by destruct (pool s !! tid). Qed.

Lemma trace_thread_step (tid : nat) (o : Outcome) (s : State) :
  trace (thread_step tid o s) =
  trace s ++ map (pair (Th tid))
                 match pool s !! tid with
                 | Some th => emits (thread_move th o s)
                 | None => []
                 end.
Proof.
  unfold thread_step. destruct (pool s !! tid); simpl; [done|].
  by rewrite app_nil_r.
Qed.

Lemma pool_main_step (o : Outcome) (s : State) :
  pool (main_step o s) =
  pool s ++ match spawns s with
            | Some f => [{| target := f; pc := Entry |}]
            | None => []
            end.
Proof.
  unfold main_step, spawns.
  destruct (main s) as [| | | | | | |l|l|l| | |e]; simpl;
    rewrite ?app_nil_r; try done.
  - destruct (enumerate (args s)).
    + by destruct (enumerate_devices (answering o)) as [[[]|e] world].
    + unfold handle_flags. by repeat case_match.
  - by destruct (t265_enabled s); simpl; rewrite ?app_nil_r.
  - by destruct (d4xx_enabled s); simpl; rewrite ?app_nil_r.
  - by destruct (read_name (thread1 s)).
  - destruct (t265_enabled s); [|done]. by destruct (read_name (thread2 s)).
  - destruct (d4xx_enabled s); [|done]. by destruct (read_name (thread3 s)).
  - destruct l as [|[h f] l]; simpl; rewrite ?app_nil_r; [done|].
    by destruct (is_alive h s); simpl; rewrite ?app_nil_r.
Qed.

Lemma args_main_step (o : Outcome) (s : State) :
  args (main_step o s) = args s.
Proof.
  unfold main_step, handle_flags.
  repeat case_match; simpl; try done.
Qed.

Lemma trace_main_step (o : Outcome) (s : State) :
  exists evs, trace (main_step o s) = trace s ++ map (pair MainThread) evs.
Proof.
  assert (H : forall s', trace s' = trace s ->
                exists evs, trace s' = trace s ++ map (pair MainThread) evs).
  { intros s' ->. exists []. by rewrite app_nil_r. }
  unfold main_step, handle_flags.
  repeat case_match; simpl; try (by apply H); try (by eexists).
  - by exists [Print initializing].
  - by exists [Sleep 1].
Qed.

(** ** Threads are only ever added, names are bound once *)

Lemma args_step (s : State) (i : Input) : args (step s i) = args s.
Proof.
  destruct i as [o | tid o | tid]; simpl.
  - apply args_main_step.
  - by destruct (main_thread_step tid o s) as (_ & -> & _).
  - by destruct (thread_fail_frame tid s) as (-> & _).
Qed.

Lemma args_run (ins : list Input) (s : State) : args (run s ins) = args s.
Proof.
  revert s. induction ins as [|i ins IH]; intros s; [done|].
  by rewrite run_cons, IH, args_step.
Qed.

Lemma main_step_other (s : State) (i : Input) :
  (forall o, i <> RunMain o) -> main (step s i) = main s.
Proof.
  intros H. destruct i as [o | tid o | tid]; simpl.
  - by destruct (H o).
  - by destruct (main_thread_step tid o s) as (-> & _).
  - by destruct (thread_fail_frame tid s) as (_ & _ & _ & -> & _).
Qed.

Lemma target_step (s : State) (i : Input) (n : nat) (th : Thread) :
  pool s !! n = Some th ->
  exists th', pool (step s i) !! n = Some th' /\ target th' = target th.
Proof.
  intros Hl. destruct i as [o | tid o | tid]; simpl.
  - exists th. split; [|done]. rewrite pool_main_step.
    by apply lookup_app_l_Some.
  - rewrite pool_thread_step. case_decide; [|eauto]. subst n.
    rewrite Hl. simpl. eauto.
  - rewrite pool_thread_fail. case_decide; [|eauto]. subst n.
    rewrite Hl. simpl. destruct (target th) eqn:E; eauto.
Qed.

Lemma target_run (ins : list Input) (s : State) (n : nat) (th : Thread) :
  pool s !! n = Some th ->
  exists th', pool (run s ins) !! n = Some th' /\ target th' = target th.
Proof.
  revert s th. induction ins as [|i ins IH]; intros s th Hl; [eauto|].
  rewrite run_cons. destruct (target_step s i n th Hl) as (th1 & Hl1 & <-).
  by apply IH.
Qed.

Lemma length_pool_step (s : State) (i : Input) :
  length (pool s) <= length (pool (step s i)).
Proof.
  destruct i as [o | tid o | tid]; simpl.
  - rewrite pool_main_step, length_app. lia.
  - by rewrite length_pool_thread_step.
  - by destruct (thread_fail_frame tid s) as (_&_&_&_&_&_&_&_&_& ->).
Qed.

Lemma length_pool_run (ins : list Input) (s : State) :
  length (pool s) <= length (pool (run s ins)).
Proof.
  revert s. induction ins as [|i ins IH]; intros s; [done|].
  rewrite run_cons. pose proof (length_pool_step s i).
  pose proof (IH (step s i)). lia.
Qed.

(** A statement of the main thread that starts a thread makes it the last
    of the pool, alive and at its entry. *)
Lemma spawns_alive (o : Outcome) (s : State) (f : Func) :
  spawns s = Some f ->
  pool (main_step o s) !! length (pool s) = Some {| target := f; pc := Entry |}
  /\ is_alive (length (pool s)) (main_step o s) = true.
Proof.
  intros H.
  assert (Hl : pool (main_step o s) !! length (pool s)
               = Some {| target := f; pc := Entry |}).
  { rewrite pool_main_step, H. by rewrite lookup_app_r, Nat.sub_diag. }
  split; [done|]. unfold is_alive. by rewrite Hl.
Qed.

Lemma rank_main_step (o : Outcome) (s : State) :
  enumerate (args s) = false ->
  rank (main (main_step o s)) = Nat.min 6 (S (rank (main s))).
Proof.
  intros Hm. unfold main_step.
  destruct (main s) as [| | | | | | |l|l|l| | |e] eqn:E; simpl; try done.
  - by rewrite Hm.
  - by destruct (read_name (thread1 s)).
  - destruct (t265_enabled s); [|done]. by destruct (read_name (thread2 s)).
  - destruct (d4xx_enabled s); [|done]. by destruct (read_name (thread3 s)).
  - by destruct l as [|[h f] l].
  - by rewrite E.
  - by rewrite E.
Qed.

Lemma rank_step (s : State) (i : Input) :
  rank (main s) <= rank (main (step s i)).
Proof.
  destruct i as [o | tid o | tid]; [|by rewrite main_step_other..].
  simpl. unfold main_step.
  destruct (main s) as [| | | | | | |l|l|l| | |e] eqn:E; simpl;
    rewrite ?E; simpl; try lia.
  - destruct (read_name (thread1 s)); simpl; lia.
  - destruct (t265_enabled s); simpl; [|lia].
    destruct (read_name (thread2 s)); simpl; lia.
  - destruct (d4xx_enabled s); simpl; [|lia].
    destruct (read_name (thread3 s)); simpl; lia.
  - destruct l as [|[h f] l]; simpl; lia.
Qed.

Lemma rank_run_le (ins : list Input) (s : State) :
  rank (main s) <= rank (main (run s ins)).
Proof.
  revert s. induction ins as [|i ins IH]; intros s; [done|].
  rewrite run_cons. pose proof (rank_step s i). pose proof (IH (step s i)).
  lia.
Qed.

(** Each of the four names is bound by one statement of the startup
    sequence and by no other statement of the program. *)
Lemma names_step (s : State) (i : Input) :
  (2 <= rank (main s) -> log_thread (step s i) = log_thread s)
  /\ (4 <= rank (main s) -> thread1 (step s i) = thread1 s)
  /\ (5 <= rank (main s) -> thread2 (step s i) = thread2 s)
  /\ (6 <= rank (main s) -> thread3 (step s i) = thread3 s).
Proof.
  destruct i as [o | tid o | tid]; simpl.
  - unfold main_step, handle_flags.
    destruct (main s) as [| | | | | | |l|l|l| | |e]; simpl;
      repeat split; intros H; try lia; repeat case_match; done.
  - destruct (main_thread_step tid o s) as (_ & _ & -> & -> & ->).
    repeat split; try done. intros _. unfold thread_step.
    by destruct (pool s !! tid).
  - by destruct (thread_fail_frame tid s)
      as (_ & _ & _ & _ & _ & -> & -> & -> & -> & _).
Qed.

Lemma names_run (ins : list Input) (s : State) :
  (2 <= rank (main s) -> log_thread (run s ins) = log_thread s)
  /\ (4 <= rank (main s) -> thread1 (run s ins) = thread1 s)
  /\ (5 <= rank (main s) -> thread2 (run s ins) = thread2 s)
  /\ (6 <= rank (main s) -> thread3 (run s ins) = thread3 s).
Proof.
  revert s. induction ins as [|i ins IH]; intros s; [done|].
  rewrite run_cons. pose proof (rank_step s i) as Hr.
  destruct (names_step s i) as (H0 & H1 & H2 & H3).
  destruct (IH (step s i)) as (I0 & I1 & I2 & I3).
  repeat split; intros H.
  - rewrite I0, H0; [done | lia | lia].
  - rewrite I1, H1; [done | lia | lia].
  - rewrite I2, H2; [done | lia | lia].
  - rewrite I3, H3; [done | lia | lia].
Qed.

(** ** Counting the statements of the main thread *)

Lemma main_steps_app (ins1 ins2 : list Input) :
  main_steps (ins1 ++ ins2) = main_steps ins1 + main_steps ins2.
Proof. unfold main_steps. by rewrite List.filter_app, length_app. Qed.

Lemma main_steps_split (k : nat) (ins : list Input) :
  k < main_steps ins ->
  exists before o after,
    ins = before ++ RunMain o :: after /\ main_steps before = k.
Proof.
  revert k. induction ins as [|i ins IH]; intros k Hk.
  - unfold main_steps in Hk. simpl in Hk. lia.
  - destruct i as [o | tid o | tid].
    + destruct k as [|k].
      * by exists [], o, ins.
      * destruct (IH k) as (before & o' & after & -> & Hb).
        { unfold main_steps in *. simpl in Hk. lia. }
        exists (RunMain o :: before), o', after. split; [done|].
        unfold main_steps in *. simpl. lia.
    + destruct (IH k Hk) as (before & o' & after & -> & Hb).
      by exists (RunThread tid o :: before), o', after.
    + destruct (IH k Hk) as (before & o' & after & -> & Hb).
      by exists (FailThread tid :: before), o', after.
Qed.

Lemma rank_run (a : Args) (ins : list Input) :
  enumerate a = false ->
  rank (main (run (init a) ins)) = Nat.min 6 (main_steps ins).
Proof.
  intros Ha. induction ins as [|i ins IH] using rev_ind; [done|].
  rewrite run_app, main_steps_app. cbn [run fold_left].
  destruct i as [o | t o | t].
  - cbn [step]. rewrite rank_main_step, IH by (by rewrite args_run).
    change (main_steps [RunMain o]) with 1. lia.
  - rewrite main_step_other, IH by done.
    change (main_steps [RunThread t o]) with 0. by rewrite Nat.add_0_r.
  - rewrite main_step_other, IH by done.
    change (main_steps [FailThread t]) with 0. by rewrite Nat.add_0_r.
Qed.

(** The statement of the startup sequence with a given rank. *)
Lemma startup_statement (a : Args) (ins : list Input) (k : nat) :
  enumerate a = false -> k < main_steps ins -> k < 6 ->
  exists before o after,
    ins = before ++ RunMain o :: after /\ main_steps before = k
    /\ rank (main (run (init a) before)) = k.
Proof.
  intros Ha Hk H6.
  destruct (main_steps_split k ins Hk) as (before & o & after & -> & Hb).
  exists before, o, after. split; [done|]. split; [done|].
  rewrite rank_run by done. lia.
Qed.

(** ** Startup with the sik-only flag *)

Lemma elem_of_trace_main (tid : nat) (e : Event) (l : list (Actor * Event))
  (evs : list Event) :
  (Th tid, e) ∈ l ++ map (pair MainThread) evs -> (Th tid, e) ∈ l.
Proof.
  intros H. apply elem_of_app in H as [H | H]; [done|].
  apply list_elem_of_fmap in H as (x & Hx & _). discriminate.
Qed.

Lemma elem_of_trace_thread (tid t : nat) (e : Event)
  (l : list (Actor * Event)) (evs : list Event) :
  (Th tid, e) ∈ l ++ map (pair (Th t)) evs ->
  (Th tid, e) ∈ l \/ (tid = t /\ e ∈ evs).
Proof.
  intros H. apply elem_of_app in H as [H | H]; [by left|].
  apply list_elem_of_fmap in H as (x & Hx & Hin). injection Hx as -> ->.
  by right.
Qed.

Lemma mavproxy_invokes (p : Pc) (o : Outcome) (cmd : list str) (check : bool) :
  Invoke cmd check ∈ emits (mavproxy_create_connection p o) ->
  cmd = mavproxy_command.
Proof.
  unfold mavproxy_create_connection.
  destruct p; simpl; try (intros H; by apply elem_of_nil in H).
  - intros H. apply list_elem_of_singleton in H. by injection H.
  - destruct (completed mavproxy_command false true o) as [c|[]]; simpl; intros H;
      try (by apply elem_of_nil in H).
    apply list_elem_of_singleton in H. discriminate.
Qed.

Lemma publish_logs_thread_silent (p : Pc) (raises : bool) :
  emits (publish_logs_thread p raises) = [].
Proof. by destruct p, raises. Qed.

Lemma sik_inv_init (a : Args) : sik_only a = true -> sik_inv (init a).
Proof.
  intros H. split; simpl; try done.
  - by right.
  - intros h f Hin. by apply elem_of_nil in Hin.
  - intros tid cmd check Hin. by apply elem_of_nil in Hin.
Qed.

Lemma sik_spawns (s : State) (f : Func) :
  sik_inv s -> spawns s = Some f -> f = Mavproxy \/ f = PublishLogs.
Proof.
  intros [Ha Hf Hp Hq Ht]. unfold spawns.
  destruct (main s) as [| | | | | | |l|l|l| | |e] eqn:E; simpl in *;
    try done.
  - intros [= <-]. by right.
  - intros [= <-]. by left.
  - destruct Hf as [[-> _] | [_ ?]]; done.
  - destruct Hf as [[_ ->] | [_ ?]]; done.
  - destruct l as [|[h g] l]; [done|]. destruct (is_alive h s); [done|].
    intros [= <-]. left. apply (Hq h). by left.
Qed.

Lemma sik_inv_main_step (o : Outcome) (s : State) :
  sik_inv s -> sik_inv (main_step o s).
Proof.
  intros Hinv. pose proof Hinv as [Ha Hf Hp Hq Ht]. split.
  - by rewrite args_main_step.
  - unfold main_step.
    destruct (main s) as [| | | | | | |l|l|l| | |e] eqn:E; simpl in *;
      try (destruct Hf as [[H2 H3] | [_ ?]]; [|done]); try (by left).
    + destruct (enumerate (args s)).
      * destruct (enumerate_devices (answering o)) as [[[]|e] world]; simpl;
          (destruct Hf as [Hf | [Hf _]]; [by left | by right]).
      * left. unfold handle_flags. rewrite Ha. by simpl.
    + left. by rewrite H2.
    + left. by rewrite H3.
    + by destruct (read_name (thread1 s)); left.
    + rewrite H2. by left.
    + rewrite H3. by left.
    + destruct l as [|[h f] l]; simpl; [by left|].
      by destruct (is_alive h s); left.
    + exact (sik_flags _ Hinv).
    + exact (sik_flags _ Hinv).
  - intros tid th. rewrite pool_main_step. intros H.
    apply lookup_app_Some in H as [H | [_ H]]; [eauto|].
    destruct (spawns s) as [f|] eqn:Es; [|done].
    apply list_lookup_singleton_Some in H as [_ <-]. simpl.
    by apply (sik_spawns s).
  - unfold main_step.
    destruct (main s) as [| | | | | | |l|l|l| | |e] eqn:E; simpl in *;
      rewrite ?E; simpl;
      try (intros h f Hin; by apply elem_of_nil in Hin).
    + destruct (enumerate (args s)).
      * destruct (enumerate_devices (answering o)) as [[[]|e] world]; simpl;
          intros h f Hin; by apply elem_of_nil in Hin.
      * intros h f Hin. by apply elem_of_nil in Hin.
    + destruct (read_name (thread1 s)); simpl; intros h f Hin.
      * apply list_elem_of_singleton in Hin. by injection Hin.
      * by apply elem_of_nil in Hin.
    + destruct Hf as [[-> _] | [_ ?]]; done.
    + destruct Hf as [[_ ->] | [_ ?]]; done.
    + destruct l as [|[h f] l]; simpl.
      * intros h f Hin. by apply elem_of_nil in Hin.
      * intros h' f' Hin. apply (Hq h'). by right.
  - intros tid cmd check. destruct (trace_main_step o s) as [evs ->].
    intros H. apply elem_of_trace_main in H. eauto.
Qed.

Lemma sik_inv_thread_step (tid : nat) (o : Outcome) (s : State) :
  sik_inv s -> sik_inv (thread_step tid o s).
Proof.
  intros [Ha Hf Hp Hq Ht].
  destruct (main_thread_step tid o s) as (Hm & Hargs & _).
  split.
  - by rewrite Hargs.
  - rewrite Hm. destruct Hf as [[H2 H3] | [Hnil Hr]].
    + left. split.
      * apply (step_keeps_disabled T265 s (RunThread tid o) H2).
      * apply (step_keeps_disabled D4XX s (RunThread tid o) H3).
    + right. split; [|done]. unfold thread_step. by rewrite Hnil.
  - intros t th. rewrite pool_thread_step. case_decide; [|eauto].
    destruct (pool s !! tid) as [th'|] eqn:E; [|done]. simpl.
    intros [= <-]. simpl. eauto.
  - by rewrite Hm.
  - intros t cmd check. rewrite trace_thread_step. intros H.
    apply elem_of_trace_thread in H as [H | [-> H]]; [eauto|].
    destruct (pool s !! tid) as [th|] eqn:E; [|by apply elem_of_nil in H].
    unfold thread_move in H. destruct (Hp _ _ E) as [Hth | Hth];
      rewrite Hth in H.
    + by apply mavproxy_invokes in H.
    + rewrite publish_logs_thread_silent in H. by apply elem_of_nil in H.
Qed.

Lemma sik_inv_thread_fail (tid : nat) (s : State) :
  sik_inv s -> sik_inv (thread_fail tid s).
Proof.
  intros [Ha Hf Hp Hq Ht].
  destruct (thread_fail_frame tid s)
    as (Ea & E2 & E3 & Em & Et & _ & _ & _ & _ & El).
  split.
  - by rewrite Ea.
  - rewrite E2, E3, Em. destruct Hf as [Hf | [Hnil Hi]]; [by left|].
    right. split; [|done]. apply length_zero_iff_nil.
    by rewrite El, Hnil.
  - intros t th Hl. apply pool_thread_fail_inv in Hl
      as [Hl | (_ & -> & _)]; [eauto | by right].
  - by rewrite Em.
  - by rewrite Et.
Qed.

Lemma sik_inv_run (ins : list Input) (s : State) :
  sik_inv s -> sik_inv (run s ins).
Proof.
  revert s. induction ins as [|i ins IH]; intros s H; [done|].
  rewrite run_cons. apply IH. destruct i as [o | tid o | tid]; simpl.
  - by apply sik_inv_main_step.
  - by apply sik_inv_thread_step.
  - by apply sik_inv_thread_fail.
Qed.

Lemma rank_start (m : MainPc) :
  (rank m = 0 -> m = MStart) /\ (rank m = 1 -> m = MStartLog)
  /\ (rank m = 2 -> m = MPrintInit) /\ (rank m = 3 -> m = MStart1)
  /\ (rank m = 4 -> m = MStart2) /\ (rank m = 5 -> m = MStart3).
Proof. destruct m; simpl; repeat split; intros; done || lia. Qed.

(** Until the main thread has executed two statements no thread exists. *)
Lemma pool_empty_run (a : Args) (ins : list Input) :
  enumerate a = false -> main_steps ins < 2 -> pool (run (init a) ins) = [].
Proof.
  intros Ha. induction ins as [|i ins IH] using rev_ind; [done|].
  rewrite main_steps_app, run_app. intros Hlt. cbn [run fold_left].
  specialize (IH ltac:(lia)).
  destruct i as [o | tid o | tid]; simpl.
  - rewrite pool_main_step, IH. unfold spawns.
    change (main_steps [RunMain o]) with 1 in Hlt.
    pose proof (rank_run a ins Ha) as Hr.
    destruct (rank_start (main (run (init a) ins))) as (H0 & _).
    by rewrite H0 by lia.
  - unfold thread_step. by rewrite IH.
  - unfold thread_fail. by rewrite IH.
Qed.

(** C6. With the sik-only flag, in every state of every execution: as
    soon as any thread exists both hardware-gated workers are disabled;
    the only threads ever started run the telemetry relay or the log
    follower; and the only command any thread ever invokes is the relay's,
    so no thread calls the enumeration tool or launches a camera script.
    In supervision mode the flags are cleared and the relay is started:
    the first statement of the main thread sets both flags to false, and
    they are false in every later state; no thread exists before the
    second statement; and the fourth statement creates a thread whose
    target is the relay, alive at its entry, and binds it to [thread1],
    which names it, a thread of the relay, in every later state. *)
Theorem sik_only_starts_the_relay_only (a : Args) (ins : list Input) :
  sik_only a = true ->
  let s := run (init a) ins in
  (pool s <> [] -> t265_enabled s = false /\ d4xx_enabled s = false)
  /\ (forall tid th, pool s !! tid = Some th ->
        target th = Mavproxy \/ target th = PublishLogs)
  /\ (forall tid cmd check,
        (Th tid, Invoke cmd check) ∈ trace s -> cmd = mavproxy_command)
  /\ mavproxy_command <> rs_enumerate_devices
  /\ (forall w, mavproxy_command <> command w)
  /\ (enumerate a = false ->
      (1 <= main_steps ins ->
       t265_enabled s = false /\ d4xx_enabled s = false)
      /\ (main_steps ins < 2 -> pool s = [])
      /\ (4 <= main_steps ins ->
          exists before o after,
            ins = before ++ RunMain o :: after /\ main_steps before = 3
            /\ pool (step (run (init a) before) (RunMain o))
                 !! length (pool (run (init a) before))
               = Some {| target := Mavproxy; pc := Entry |}
            /\ is_alive (length (pool (run (init a) before)))
                        (step (run (init a) before) (RunMain o)) = true
            /\ thread1 s = Some (length (pool (run (init a) before)))
            /\ exists th,
                 pool s !! length (pool (run (init a) before)) = Some th
                 /\ target th = Mavproxy)).
Proof.
  intros H s.
  destruct (sik_inv_run ins (init a) (sik_inv_init a H)) as [Ha Hf Hp Hq Ht].
  fold s in Ha, Hf, Hp, Hq, Ht.
  split; [|split; [|split; [|split; [|split]]]]; try done.
  - intros Hne. by destruct Hf as [Hf | [? _]].
  - by intros [].
  - intros He. split; [|split].
    + intros Hsteps.
      destruct (startup_statement a ins 0 He ltac:(lia) ltac:(lia))
        as (before & o & after & Hins & Hb & Hrank).
      set (sb := run (init a) before) in *.
      destruct (rank_start (main sb)) as (Hm & _). specialize (Hm Hrank).
      assert (Hoff : forall w, enabled w (step sb (RunMain o)) = false).
      { intros w. simpl. unfold main_step.
        rewrite Hm. unfold sb at 1. rewrite args_run. simpl. rewrite He.
        rewrite enabled_goto. unfold handle_flags.
        unfold sb at 1. rewrite args_run. simpl. rewrite H.
        by destruct w. }
      assert (Hrun : s = run (step sb (RunMain o)) after).
      { unfold s, sb. by rewrite Hins, run_app. }
      rewrite Hrun. split.
      * apply (run_keeps_disabled T265), Hoff.
      * apply (run_keeps_disabled D4XX), Hoff.
    + by apply pool_empty_run.
    + intros Hsteps.
      destruct (startup_statement a ins 3 He ltac:(lia) ltac:(lia))
        as (before & o & after & Hins & Hb & Hrank).
      set (sb := run (init a) before) in *.
      exists before, o, after. fold sb. split; [done|]. split; [done|].
      destruct (rank_start (main sb)) as (_ & _ & _ & Hm & _).
      specialize (Hm Hrank).
      destruct (spawns_alive o sb Mavproxy) as [Hnew Halive].
      { unfold spawns. by rewrite Hm. }
      split; [done|]. split; [done|].
      assert (Hrun : s = run (step sb (RunMain o)) after).
      { unfold s, sb. by rewrite Hins, run_app. }
      rewrite Hrun. split.
      * destruct (names_run after (step sb (RunMain o))) as (_ & -> & _).
        -- simpl. unfold main_step. by rewrite Hm.
        -- simpl. unfold main_step. rewrite Hm. simpl. lia.
      * destruct (target_run after _ _ _ Hnew) as (th & Hl & Hth).
        by exists th.
Qed.

Lemma sik_only_starts_the_relay_only_witness :
  let s := run (init only_sik) double_launch_schedule in
  sik_only only_sik = true /\ enumerate only_sik = false
  /\ 1 <= main_steps double_launch_schedule
  /\ 4 <= main_steps double_launch_schedule
  /\ (t265_enabled s = false /\ d4xx_enabled s = false)
  /\ exists before o after,
       double_launch_schedule = before ++ RunMain o :: after
       /\ main_steps before = 3
       /\ is_alive (length (pool (run (init only_sik) before)))
                   (step (run (init only_sik) before) (RunMain o)) = true
       /\ thread1 s = Some (length (pool (run (init only_sik) before))).
Proof.
  intros s.
  assert (H1 : 1 <= main_steps double_launch_schedule) by (vm_compute; lia).
  assert (H4 : 4 <= main_steps double_launch_schedule) by (vm_compute; lia).
  split; [reflexivity|]. split; [reflexivity|].
  split; [exact H1|]. split; [exact H4|].
  destruct (proj2 (proj2 (proj2 (proj2 (proj2
    (sik_only_starts_the_relay_only only_sik double_launch_schedule
       eq_refl))))) eq_refl) as (Hflags & _ & Hrelay).
  split; [exact (Hflags H1)|].
  destruct (Hrelay H4) as (before & o & after & E1 & E2 & _ & E3 & E4 & _).
  exact (ex_intro _ before (ex_intro _ o (ex_intro _ after
           (conj E1 (conj E2 (conj E3 E4)))))).
Defined.

(** ** Threads that are over stay over *)

Lemma finished_move (th : Thread) (o : Outcome) (s : State) :
  pc th = Finished -> thread_move th o s = move Finished [].
Proof.
  intros H. unfold thread_move, mavproxy_create_connection, run_worker,
    publish_logs_thread. rewrite H. by destruct (target th).
Qed.

Lemma is_alive_thread_fail (h tid : nat) (s : State) :
  is_alive h s = false -> is_alive h (thread_fail tid s) = false.
Proof.
  unfold is_alive. rewrite pool_thread_fail. case_decide as Hd; [|done].
  subst h. destruct (pool s !! tid) as [[f p]|]; simpl; [|done].
  by destruct f.
Qed.

Lemma events_of_thread_fail (h tid : nat) (s : State) :
  events_of h (thread_fail tid s) = events_of h s.
Proof.
  unfold events_of.
  by destruct (thread_fail_frame tid s) as (_ & _ & _ & _ & -> & _).
Qed.

Lemma is_alive_thread_step (h tid : nat) (o : Outcome) (s : State) :
  is_alive h s = false -> is_alive h (thread_step tid o s) = false.
Proof.
  unfold is_alive. rewrite pool_thread_step. case_decide as Hd; [|done].
  subst h. destruct (pool s !! tid) as [th|]; simpl; [|done].
  destruct (pc th) eqn:E; try done. intros _. by rewrite finished_move.
Qed.

Lemma by_thread_app (tid : nat) (l1 l2 : list (Actor * Event)) :
  by_thread tid (l1 ++ l2) = by_thread tid l1 ++ by_thread tid l2.
Proof. unfold by_thread. by rewrite List.filter_app, map_app. Qed.

Lemma by_thread_other (tid : nat) (who : Actor) (evs : list Event) :
  who <> Th tid -> by_thread tid (map (pair who) evs) = [].
Proof.
  intros H. unfold by_thread. induction evs as [|e evs IH]; [done|].
  cbn [map List.filter fst]. by rewrite bool_decide_eq_false_2.
Qed.

Lemma finished_step (tid : nat) (f : Func) (s : State) (i : Input) :
  pool s !! tid = Some {| target := f; pc := Finished |} ->
  pool (step s i) !! tid = Some {| target := f; pc := Finished |}
  /\ events_of tid (step s i) = events_of tid s.
Proof.
  intros H. destruct i as [o | t o | t]; simpl.
  - split.
    + rewrite pool_main_step. by apply lookup_app_l_Some.
    + unfold events_of. destruct (trace_main_step o s) as [evs ->].
      by rewrite by_thread_app, by_thread_other, app_nil_r.
  - split.
    + rewrite pool_thread_step. case_decide; [|done]. subst t.
      rewrite H. simpl. by rewrite finished_move.
    + unfold events_of. rewrite trace_thread_step, by_thread_app.
      destruct (decide (t = tid)) as [-> | Hne].
      * rewrite H, finished_move by done. simpl. by rewrite app_nil_r.
      * rewrite by_thread_other, app_nil_r; [done | congruence].
  - split; [|apply events_of_thread_fail].
    rewrite pool_thread_fail. case_decide; [|done]. subst t.
    rewrite H. simpl. by destruct f.
Qed.

Lemma finished_run (ins : list Input) (tid : nat) (f : Func) (s : State) :
  pool s !! tid = Some {| target := f; pc := Finished |} ->
  pool (run s ins) !! tid = Some {| target := f; pc := Finished |}
  /\ events_of tid (run s ins) = events_of tid s.
Proof.
  revert s. induction ins as [|i ins IH]; intros s H; [done|].
  rewrite run_cons. destruct (finished_step tid f s i H) as [H1 H2].
  destruct (IH _ H1) as [H3 H4]. split; [done | congruence].
Qed.

(** ** Hardware-gated workers *)

Lemma run_worker_absent (w : Worker) (flag : bool) (o : Outcome) :
  (is_device_connected (device_prefix w) (answering o)).1 = Ok false ->
  run_worker w flag AtProbe o =
  {| next := Finished;
     emits := [Invoke rs_enumerate_devices false;
               Log WARNING (warning_text w) None];
     clears_flag := true |}.
Proof.
  destruct o as [status out|status|]; [|done|done].
  unfold run_worker.
  rewrite (is_device_connected_exited _ status out) by done.
  simpl. by intros [= ->].
Qed.

Lemma outside_loop_step (w : Worker) (s : State) (i : Input) (tid : nat) :
  enabled w s = false -> outside_loop w s tid ->
  outside_loop w (step s i) tid.
Proof.
  intros Hflag Hout th. destruct i as [o | t o | t]; simpl.
  - rewrite pool_main_step. intros H.
    apply lookup_app_Some in H as [H | [_ H]]; [by apply Hout|].
    destruct (spawns s); [|done].
    apply list_lookup_singleton_Some in H as [_ <-]. by left.
  - rewrite pool_thread_step. case_decide as Hd; [|apply Hout]. subst t.
    destruct (pool s !! tid) as [th'|] eqn:E; [|done]. simpl.
    intros [= <-]. simpl. intros Ht.
    destruct (Hout th' E Ht) as [Hpc | Hpc].
    + unfold thread_move. rewrite Ht, Hpc, Hflag. by right.
    + rewrite finished_move by done. by right.
  - intros Hl. apply pool_thread_fail_inv in Hl as [Hl | (_ & -> & _)];
      [by apply Hout | by right].
Qed.

Lemma outside_loop_run (w : Worker) (ins : list Input) (s : State) (tid : nat) :
  enabled w s = false -> outside_loop w s tid ->
  outside_loop w (run s ins) tid.
Proof.
  revert s. induction ins as [|i ins IH]; intros s Hf Hout; [done|].
  rewrite run_cons. apply IH.
  - by apply step_keeps_disabled.
  - by apply outside_loop_step.
Qed.

Lemma launches_app (w : Worker) (who : Actor) (l : list (Actor * Event))
  (evs : list Event) :
  Forall (fun e => is_launch w e = false) evs ->
  List.filter (fun ae : Actor * Event => is_launch w ae.2)
              (l ++ map (pair who) evs)
  = List.filter (fun ae : Actor * Event => is_launch w ae.2) l.
Proof.
  intros H. rewrite List.filter_app.
  rewrite <- (app_nil_r (List.filter _ l)) at 2. f_equal.
  induction H as [|e evs He _ IH]; [done|].
  cbn [map List.filter snd]. by rewrite He.
Qed.

Lemma command_distinct (w w' : Worker) :
  is_launch w (Invoke rs_enumerate_devices false) = false
  /\ is_launch w (Invoke mavproxy_command true) = false
  /\ (w' <> w -> is_launch w (Invoke (command w') true) = false).
Proof. by destruct w, w'. Qed.

Lemma enumerate_devices_no_launch (w : Worker) (o : Outcome) :
  Forall (fun e => is_launch w e = false)
         (events (enumerate_devices (answering o)).2).
Proof.
  destruct o as [status out|status|].
  - rewrite (enumerate_devices_exited status out) by done. simpl.
    constructor; [apply (command_distinct w w)|].
    destruct (map strip _); repeat constructor.
    apply Forall_forall. intros e He. apply list_elem_of_In in He.
    apply in_map_iff in He as (x & <- & _). done.
  - repeat constructor. apply (command_distinct w w).
  - repeat constructor. apply (command_distinct w w).
Qed.

Lemma launches_main_step (w : Worker) (o : Outcome) (s : State) :
  launches w (main_step o s) = launches w s.
Proof.
  assert (H : forall evs s', Forall (fun e => is_launch w e = false) evs ->
            trace s' = trace s ++ map (pair MainThread) evs ->
            launches w s' = launches w s).
  { intros evs s' Hevs Ht. unfold launches. rewrite Ht.
    by apply launches_app. }
  unfold main_step.
  destruct (main s) as [| | | | | | |l|l|l| | |e]; try done.
  - destruct (enumerate (args s)).
    + pose proof (enumerate_devices_no_launch w o) as Hn.
      destruct (enumerate_devices (answering o)) as [[[]|e] world];
        by apply (H (events world)).
    + unfold handle_flags. by repeat case_match.
  - by apply (H [Print initializing]); [repeat constructor|].
  - by destruct (t265_enabled s).
  - by destruct (d4xx_enabled s).
  - by destruct (read_name (thread1 s)).
  - destruct (t265_enabled s); [|done]. by destruct (read_name (thread2 s)).
  - destruct (d4xx_enabled s); [|done]. by destruct (read_name (thread3 s)).
  - destruct l as [|[h f] l]; [done|]. by destruct (is_alive h s).
  - by apply (H [Sleep 1]); [repeat constructor|].
Qed.

Lemma run_worker_other_no_launch (w w' : Worker) (flag : bool) (p : Pc)
  (o : Outcome) :
  w' <> w ->
  Forall (fun e => is_launch w e = false) (emits (run_worker w' flag p o)).
Proof.
  intros Hne. destruct (command_distinct w w') as (H1 & _ & H3).
  unfold run_worker. destruct p; simpl; try by constructor.
  - by destruct flag; constructor.
  - destruct o as [status out|status|].
    + rewrite (is_device_connected_exited _ status out) by done.
      destruct (is_device_connected_scan _ _); simpl; repeat constructor;
        auto.
    + simpl. repeat constructor. done.
    + simpl. repeat constructor. done.
  - destruct (completed (command w') false true o) as [c|[]]; simpl;
      repeat constructor.
Qed.

Lemma quiet_step (w : Worker) (s : State) (i : Input) :
  enabled w s = false -> (forall tid, outside_loop w s tid) ->
  launches w (step s i) = launches w s.
Proof.
  intros Hflag Hout. destruct i as [o | t o | t]; simpl;
    [| |unfold launches;
        by destruct (thread_fail_frame t s) as (_ & _ & _ & _ & -> & _)].
  - apply launches_main_step.
  - unfold launches. rewrite trace_thread_step. apply launches_app.
    destruct (pool s !! t) as [th|] eqn:E; [|constructor].
    unfold thread_move. destruct (target th) as [|w'|] eqn:Et.
    + unfold mavproxy_create_connection.
      destruct (pc th); simpl; try by constructor.
      * repeat constructor. apply (command_distinct w w).
      * destruct (completed mavproxy_command false true o) as [c|[]]; simpl;
          repeat constructor.
    + destruct (decide (w' = w)) as [-> | Hne].
      * destruct (Hout t th E Et) as [-> | ->]; simpl.
        -- rewrite Hflag. constructor.
        -- constructor.
      * by apply run_worker_other_no_launch.
    + rewrite publish_logs_thread_silent. constructor.
Qed.

Lemma quiet_run (w : Worker) (ins : list Input) (s : State) :
  enabled w s = false -> (forall tid, outside_loop w s tid) ->
  launches w (run s ins) = launches w s.
Proof.
  revert s. induction ins as [|i ins IH]; intros s Hf Hout; [done|].
  rewrite run_cons, IH.
  - by apply quiet_step.
  - by apply step_keeps_disabled.
  - intros tid. by apply outside_loop_step.
Qed.

(** What one run does when it finds the hardware absent. When a run of a
    hardware-gated worker probes and the prober answers false, that
    statement logs the worker's warning, sets the worker's enabled flag to
    false and ends the run without launching the command. In every later
    state the flag is still false, the run is still over and has emitted
    nothing more, and every run of the worker that was at its [while]
    test, was over, or is started later, never enters its loop body, so
    it neither probes nor launches. Only a run of the worker that was
    inside its loop body at that moment can still launch the command. *)
Lemma absent_hardware_disables_worker (w : Worker) (s : State) (tid : nat)
  (o : Outcome) (ins : list Input) :
  pool s !! tid = Some {| target := Run w; pc := AtProbe |} ->
  (is_device_connected (device_prefix w) (answering o)).1 = Ok false ->
  let s' := step s (RunThread tid o) in
  let s'' := run s' ins in
  trace s' = trace s ++ [(Th tid, Invoke rs_enumerate_devices false);
                         (Th tid, Log WARNING (warning_text w) None)]
  /\ enabled w s' = false
  /\ pool s' !! tid = Some {| target := Run w; pc := Finished |}
  /\ enabled w s'' = false
  /\ pool s'' !! tid = Some {| target := Run w; pc := Finished |}
  /\ events_of tid s'' = events_of tid s'
  /\ (forall tid', outside_loop w s' tid' -> outside_loop w s'' tid')
  /\ (forall tid' th, length (pool s') <= tid' ->
        pool s'' !! tid' = Some th -> target th = Run w ->
        pc th = Entry \/ pc th = Finished)
  /\ ((forall tid', tid' <> tid -> outside_loop w s tid') ->
      launches w s'' = launches w s).
Proof.
  intros Hth Habs s' s''.
  assert (Hmove : thread_move {| target := Run w; pc := AtProbe |} o s =
                  {| next := Finished;
                     emits := [Invoke rs_enumerate_devices false;
                               Log WARNING (warning_text w) None];
                     clears_flag := true |}).
  { unfold thread_move. cbn [target pc]. by apply run_worker_absent. }
  assert (Htrace : trace s' =
            trace s ++ [(Th tid, Invoke rs_enumerate_devices false);
                        (Th tid, Log WARNING (warning_text w) None)]).
  { unfold s'. simpl. by rewrite trace_thread_step, Hth, Hmove. }
  assert (Hflag : enabled w s' = false).
  { unfold s'. simpl. rewrite enabled_thread_step, Hth. cbv beta iota.
    rewrite Hmove. unfold cleared. simpl. by rewrite bool_decide_eq_true_2. }
  assert (Hpool : pool s' !! tid = Some {| target := Run w; pc := Finished |}).
  { unfold s'. simpl. rewrite pool_thread_step, decide_True by done.
    rewrite Hth. simpl. by rewrite Hmove. }
  destruct (finished_run ins tid (Run w) s' Hpool) as [Hpool' Hev].
  split; [done|]. split; [done|]. split; [done|].
  split; [by apply run_keeps_disabled|].
  split; [done|]. split; [done|].
  split; [intros tid'; by apply outside_loop_run|].
  split.
  - intros tid' th Hlen. apply (outside_loop_run w ins s' tid' Hflag).
    intros th' Hl. apply lookup_lt_Some in Hl. lia.
  - intros Hothers. unfold s''. rewrite quiet_run; [|done|].
    + unfold launches. rewrite Htrace.
      apply (launches_app w (Th tid) (trace s)
               [Invoke rs_enumerate_devices false;
                Log WARNING (warning_text w) None]).
      repeat constructor. apply (command_distinct w w).
    + intros tid' th Hl Ht. destruct (decide (tid' = tid)) as [-> | Hne].
      * rewrite Hpool in Hl. injection Hl as <-. by right.
      * apply (Hothers tid' Hne th); [|done].
        unfold s' in Hl. simpl in Hl.
        by rewrite pool_thread_step, decide_False in Hl.
Qed.

Lemma absent_hardware_disables_worker_witness :
  pool (run (init no_flags) probe_schedule) !! 2
    = Some {| target := Run T265; pc := AtProbe |}
  /\ (is_device_connected (device_prefix T265)
        (answering nothing_attached)).1 = Ok false
  /\ enabled T265 (step (run (init no_flags) probe_schedule)
                        (RunThread 2 nothing_attached)) = false.
Proof.
  split; [reflexivity|]. split; [reflexivity|].
  exact (proj1 (proj2
    (absent_hardware_disables_worker T265 (run (init no_flags) probe_schedule)
       2 nothing_attached [] eq_refl eq_refl))).
Defined.

(** ** The monitoring loop and the telemetry relay *)

Lemma relay_inv_init (a : Args) : enumerate a = false -> relay_inv (init a).
Proof.
  intros H. split; simpl; try done; try lia.
  intros h Hin. by apply elem_of_nil in Hin.
Qed.

Lemma enabled_thread_step_true (w : Worker) (tid : nat) (o : Outcome)
  (s : State) :
  enabled w (thread_step tid o s) = true -> enabled w s = true.
Proof.
  intros H. destruct (enabled w s) eqn:E; [done|].
  pose proof (step_keeps_disabled w s (RunThread tid o) E) as H'.
  simpl in H'. congruence.
Qed.

Lemma relay_inv_thread_step (tid : nat) (o : Outcome) (s : State) :
  relay_inv s -> relay_inv (thread_step tid o s).
Proof.
  intros [Hmode Hrun Hnone Hh H2 H3 Hpend Hoth].
  destruct (main_thread_step tid o s) as (Hm & Hargs & Ht1 & Ht2 & Ht3).
  assert (Hlook : forall t th, pool (thread_step tid o s) !! t = Some th ->
            exists th', pool s !! t = Some th' /\ target th' = target th).
  { intros t th. rewrite pool_thread_step. case_decide; [|eauto].
    subst t. destruct (pool s !! tid) as [th'|]; [|done]. simpl.
    intros [= <-]. eauto. }
  split; rewrite ?Hm, ?Hargs, ?Ht1, ?Ht2, ?Ht3; try done.
  - intros Hr t th Ht. destruct (Hlook _ _ Ht) as (th' & Hl & <-).
    by apply (Hnone Hr t).
  - intros Hr. destruct (Hh Hr) as (h & th & H1 & Hl & Ht).
    exists h. rewrite pool_thread_step. case_decide.
    + subst h. rewrite Hl. simpl. eauto.
    + eauto.
  - intros Hr He. apply H2; [done|].
    by apply (enabled_thread_step_true T265 tid o).
  - intros Hr He. apply H3; [done|].
    by apply (enabled_thread_step_true D4XX tid o).
  - intros t th Ht Htar. destruct (Hlook _ _ Ht) as (th' & Hl & Heq).
    destruct (Hoth t th' Hl) as (h & H1 & Hor); [congruence|].
    exists h. split; [done|]. destruct Hor as [-> | Hd]; [by left|].
    right. by apply is_alive_thread_step.
Qed.
(** A state that differs from an invariant one by the main thread's
    position, one more thread, and the handles. *)
Lemma relay_inv_next (s s' : State) (new : list Thread) :
  relay_inv s ->
  args s' = args s ->
  pool s' = pool s ++ new ->
  main s' <> MExit -> (forall e, main s' <> MCrashed e) ->
  rank (main s) <= rank (main s') ->
  (4 <= rank (main s) -> thread1 s' = thread1 s) ->
  (rank (main s) < 4 -> 4 <= rank (main s') ->
     thread1 s' = Some (length (pool s))
     /\ new = [{| target := Mavproxy; pc := Entry |}]) ->
  (rank (main s') < 4 -> forall th, th ∈ new -> target th <> Mavproxy) ->
  (5 <= rank (main s') -> t265_enabled s' = true ->
     is_Some (thread2 s')) ->
  (6 <= rank (main s') -> d4xx_enabled s' = true ->
     is_Some (thread3 s')) ->
  (forall h, (h, Mavproxy) ∈ pending (main s') -> thread1 s' = Some h) ->
  (4 <= rank (main s) -> forall th h, th ∈ new -> target th = Mavproxy ->
     thread1 s = Some h -> is_alive h s = false) ->
  length new <= 1 ->
  relay_inv s'.
Proof.
  intros [Hmode Hrun Hnone Hh H2 H3 Hpend Hoth]
    Hargs Hpool Hne1 Hne2 Hrank Ht1 Hfirst Hnew Hn2 Hn3 Hp' Hspawn Hlen.
  split; try done.
  - by rewrite Hargs.
  - intros Hr t th. rewrite Hpool. intros Hl.
    apply lookup_app_Some in Hl as [Hl | [_ Hl]].
    + apply (Hnone ltac:(lia) t th Hl).
    + apply Hnew; [done|]. by apply list_elem_of_lookup_2 in Hl.
  - intros Hr. destruct (decide (4 <= rank (main s))) as [Hold | Hold].
    + destruct (Hh Hold) as (h & th & H1 & Hl & Ht).
      exists h, th. rewrite Ht1, Hpool by done.
      split; [done|]. split; [|done]. by apply lookup_app_l_Some.
    + destruct (Hfirst ltac:(lia) Hr) as [H1 ->].
      exists (length (pool s)), {| target := Mavproxy; pc := Entry |}.
      split; [done|]. split; [|done]. rewrite Hpool.
      by rewrite lookup_app_r, Nat.sub_diag.
  - intros t th. rewrite Hpool. intros Hl Htar.
    destruct (decide (4 <= rank (main s))) as [Hold | Hold].
    + destruct (Hh Hold) as (h & th1 & H1 & Hl1 & Htar1).
      assert (Hlt : h < length (pool s)) by (by apply lookup_lt_Some in Hl1).
      exists h. rewrite Ht1 by done. split; [done|].
      assert (Hkeep : is_alive h s = false -> is_alive h s' = false).
      { unfold is_alive. by rewrite Hpool, lookup_app_l. }
      apply lookup_app_Some in Hl as [Hl | [_ Hl]].
      * destruct (Hoth t th Hl Htar) as (h' & H1' & Hor).
        assert (h' = h) by congruence. subst h'.
        destruct Hor as [-> | Hd]; [by left | right; by apply Hkeep].
      * right. apply Hkeep. apply (Hspawn Hold th h); try done.
        by apply list_elem_of_lookup_2 in Hl.
    + apply lookup_app_Some in Hl as [Hl | [Hle Hl]].
      * by destruct (Hnone ltac:(lia) t th Hl).
      * destruct (decide (4 <= rank (main s'))) as [Hnow | Hnow].
        -- destruct (Hfirst ltac:(lia) Hnow) as [H1 ->].
           exists (length (pool s)). split; [done|]. left.
           apply list_lookup_singleton_Some in Hl as [Hi _]. lia.
        -- apply list_elem_of_lookup_2 in Hl.
           by destruct (Hnew ltac:(lia) th Hl).
Qed.

Ltac relay_next s new Hinv E :=
  apply (relay_inv_next s _ new Hinv);
  rewrite ?E; simpl; rewrite ?app_nil_r;
  try done; try lia;
  try (intros; exfalso; lia);
  try (intros; congruence);
  try (intros ? Hin; by apply elem_of_nil in Hin);
  try (intros ? ? Hin; by apply elem_of_nil in Hin);
  try (intros ? ? ? Hin; by apply elem_of_nil in Hin);
  try (intros _ ? ? Hin%list_elem_of_singleton; by subst);
  try (intros _ ? Hin%list_elem_of_singleton; by subst);
  try (intros; eauto with lia; fail).

Lemma relay_inv_main_step (o : Outcome) (s : State) :
  relay_inv s -> relay_inv (main_step o s).
Proof.
  intros Hinv. pose proof Hinv as [Hmode Hrun Hnone Hh H2 H3 Hpend Hoth].
  unfold main_step.
  destruct (main s) as [| | | | | | |l|l|l| | |e] eqn:E; simpl in *.
  - rewrite Hmode. unfold handle_flags.
    repeat case_match; relay_next s (@nil Thread) Hinv E.
  - relay_next s [{| target := PublishLogs; pc := Entry |}] Hinv E.
  - relay_next s (@nil Thread) Hinv E.
  - relay_next s [{| target := Mavproxy; pc := Entry |}] Hinv E.
  - destruct (t265_enabled s) eqn:Ef.
    + relay_next s [{| target := Run T265; pc := Entry |}] Hinv E.
    + relay_next s (@nil Thread) Hinv E.
  - destruct (d4xx_enabled s) eqn:Ef.
    + relay_next s [{| target := Run D4XX; pc := Entry |}] Hinv E.
    + relay_next s (@nil Thread) Hinv E.
  - destruct (Hh ltac:(lia)) as (h & th & H1 & Hl & Ht). rewrite H1. simpl.
    relay_next s (@nil Thread) Hinv E.
    intros h0 Hin%list_elem_of_singleton. congruence.
  - destruct (t265_enabled s) eqn:Ef.
    + destruct (H2 ltac:(lia) eq_refl) as [h2 Hh2]. rewrite Hh2. simpl.
      relay_next s (@nil Thread) Hinv E.
      intros h Hin. apply Hpend. apply elem_of_app in Hin as [Hin | Hin];
        [done|]. by apply list_elem_of_singleton in Hin.
    + relay_next s (@nil Thread) Hinv E.
  - destruct (d4xx_enabled s) eqn:Ef.
    + destruct (H3 ltac:(lia) eq_refl) as [h3 Hh3]. rewrite Hh3. simpl.
      relay_next s (@nil Thread) Hinv E.
      intros h Hin. apply Hpend. apply elem_of_app in Hin as [Hin | Hin];
        [done|]. by apply list_elem_of_singleton in Hin.
    + relay_next s (@nil Thread) Hinv E.
  - destruct l as [|[h f] l].
    + relay_next s (@nil Thread) Hinv E.
    + destruct (is_alive h s) eqn:Ea.
      * relay_next s (@nil Thread) Hinv E.
        intros h' Hin. apply Hpend. by right.
      * relay_next s [{| target := f; pc := Entry |}] Hinv E.
        -- intros h' Hin. apply Hpend. by right.
        -- intros _ th h' Hin%list_elem_of_singleton Ht H1. subst th.
           simpl in Ht. subst f.
           rewrite (Hpend h) in H1 by (by left). congruence.
  - relay_next s (@nil Thread) Hinv E.
  - by destruct Hrun.
  - destruct Hrun as [_ Hrun]. by destruct (Hrun e).
Qed.

Lemma pool_thread_fail_keep (tid : nat) (s : State) (t : nat) (th : Thread) :
  pool s !! t = Some th -> target th <> PublishLogs ->
  pool (thread_fail tid s) !! t = Some th.
Proof.
  intros Hl Ht. rewrite pool_thread_fail. case_decide; [|done]. subst t.
  rewrite Hl. simpl. by destruct (target th).
Qed.

Lemma relay_inv_thread_fail (tid : nat) (s : State) :
  relay_inv s -> relay_inv (thread_fail tid s).
Proof.
  intros [Hmode Hrun Hnone Hh H2 H3 Hpend Hoth].
  destruct (thread_fail_frame tid s)
    as (Ea & E2 & E3 & Em & Et & E1 & Et2 & Et3 & _ & El).
  split; rewrite ?Ea, ?E2, ?E3, ?Em, ?E1, ?Et2, ?Et3; try done.
  - intros Hr t th Hl. apply pool_thread_fail_inv in Hl
      as [Hl | (_ & -> & _)]; [by apply (Hnone Hr t) | done].
  - intros Hr. destruct (Hh Hr) as (h & th & H1 & Hl & Ht).
    exists h, th. split; [done|]. split; [|done].
    apply pool_thread_fail_keep; [done | congruence].
  - intros t th Hl Ht. apply pool_thread_fail_inv in Hl
      as [Hl | (_ & -> & _)]; [|done].
    destruct (Hoth t th Hl Ht) as (h & H1 & Hor).
    exists h. split; [done|]. destruct Hor as [-> | Hd]; [by left|].
    right. by apply is_alive_thread_fail.
Qed.

Lemma relay_inv_step (s : State) (i : Input) :
  relay_inv s -> relay_inv (step s i).
Proof.
  destruct i as [o | tid o | tid]; simpl.
  - by apply relay_inv_main_step.
  - by apply relay_inv_thread_step.
  - by apply relay_inv_thread_fail.
Qed.

Lemma relay_inv_run (ins : list Input) (s : State) :
  relay_inv s -> relay_inv (run s ins).
Proof.
  revert s. induction ins as [|i ins IH]; intros s H; [done|].
  rewrite run_cons. apply IH. by apply relay_inv_step.
Qed.

(** ** The way back to line 160 *)

Lemma pending_bound_main_step (o : Outcome) (s : State) :
  pending_bound (main s) -> pending_bound (main (main_step o s)).
Proof.
  unfold main_step.
  destruct (main s) as [| | | | | | |l|l|l| | |e] eqn:E; simpl; try done.
  - destruct (enumerate (args s)); [|done].
    by destruct (enumerate_devices (answering o)) as [[[]|e] world].
  - destruct (read_name (thread1 s)); simpl; lia.
  - intros H. destruct (t265_enabled s); simpl; [|lia].
    destruct (read_name (thread2 s)); simpl; [|done].
    rewrite length_app. simpl. lia.
  - intros H. destruct (d4xx_enabled s); simpl; [|lia].
    destruct (read_name (thread3 s)); simpl; [|done].
    rewrite length_app. simpl. lia.
  - intros H. destruct l as [|[h f] l]; simpl in *; [done|]. lia.
  - by rewrite E.
  - by rewrite E.
Qed.

Lemma pending_bound_run (ins : list Input) (s : State) :
  pending_bound (main s) -> pending_bound (main (run s ins)).
Proof.
  revert s. induction ins as [|i ins IH]; intros s H; [done|].
  rewrite run_cons. apply IH. destruct i as [o | tid o | tid].
  - by apply pending_bound_main_step.
  - by rewrite main_step_other.
  - by rewrite main_step_other.
Qed.

Lemma to_build_bound (m : MainPc) : pending_bound m -> to_build m <= 7.
Proof. destruct m; simpl; lia. Qed.

Lemma to_build_main_step (o : Outcome) (s : State) :
  relay_inv s -> main s <> MBuild ->
  to_build (main (main_step o s)) < to_build (main s).
Proof.
  intros [Hmode [Hrun1 Hrun2] _ _ _ _ _ _] Hb. unfold main_step.
  destruct (main s) as [| | | | | | |l|l|l| | |e] eqn:E; simpl; try lia;
    try done.
  - rewrite Hmode. simpl. lia.
  - destruct (t265_enabled s); simpl; [|lia].
    destruct (read_name (thread2 s)); simpl; [|lia].
    rewrite length_app. simpl. lia.
  - destruct (d4xx_enabled s); simpl; [|lia].
    destruct (read_name (thread3 s)); simpl; [|lia].
    rewrite length_app. simpl. lia.
  - destruct l as [|[h f] l]; simpl; lia.
  - by destruct (Hrun2 e).
Qed.

Lemma to_build_zero (s : State) :
  relay_inv s -> to_build (main s) = 0 -> main s = MBuild.
Proof.
  intros [_ [Hrun1 Hrun2] _ _ _ _ _ _].
  destruct (main s) as [| | | | | | |l|l|l| | |e]; simpl; try lia; try done.
  by destruct (Hrun2 e).
Qed.

Lemma no_sleep_app (who : Actor) (l : list (Actor * Event))
  (evs : list Event) :
  Forall (fun e => is_sleep e = false) evs ->
  List.filter (fun ae : Actor * Event => is_sleep ae.2)
              (l ++ map (pair who) evs)
  = List.filter (fun ae : Actor * Event => is_sleep ae.2) l.
Proof.
  intros H. rewrite List.filter_app.
  rewrite <- (app_nil_r (List.filter _ l)) at 2. f_equal.
  induction H as [|e evs He _ IH]; [done|].
  cbn [map List.filter snd]. by rewrite He.
Qed.

Lemma thread_move_no_sleep (th : Thread) (o : Outcome) (s : State) :
  Forall (fun e => is_sleep e = false) (emits (thread_move th o s)).
Proof.
  destruct th as [f p]. unfold thread_move. simpl. destruct f as [|w|].
  - unfold mavproxy_create_connection. destruct p; simpl;
      try (by repeat constructor).
    destruct (completed mavproxy_command false true o) as [c|[]]; simpl;
      by repeat constructor.
  - unfold run_worker. destruct p; simpl; try (by repeat constructor).
    + by destruct (enabled w s); constructor.
    + destruct o as [status out|status|].
      * rewrite (is_device_connected_exited _ status out) by done.
        destruct (is_device_connected_scan _ _); simpl; by repeat constructor.
      * simpl. by repeat constructor.
      * simpl. by repeat constructor.
    + destruct (completed (command w) false true o) as [c|[]]; simpl;
        by repeat constructor.
  - rewrite publish_logs_thread_silent. constructor.
Qed.

Lemma sleeps_step (s : State) (i : Input) :
  relay_inv s ->
  sleeps (step s i) =
  match i, main s with
  | RunMain _, MSleep => S (sleeps s)
  | _, _ => sleeps s
  end.
Proof.
  intros [Hmode _ _ _ _ _ _ _]. unfold sleeps.
  destruct i as [o | tid o | tid]; simpl.
  - unfold main_step.
    destruct (main s) as [| | | | | | |l|l|l| | |e] eqn:E; simpl; try done.
    + rewrite Hmode. simpl. unfold handle_flags. by repeat case_match.
    + by rewrite (no_sleep_app MainThread _ [Print initializing])
        by (by repeat constructor).
    + by destruct (t265_enabled s).
    + by destruct (d4xx_enabled s).
    + by destruct (read_name (thread1 s)).
    + destruct (t265_enabled s); [|done]. by destruct (read_name (thread2 s)).
    + destruct (d4xx_enabled s); [|done]. by destruct (read_name (thread3 s)).
    + destruct l as [|[h f] l]; [done|]. by destruct (is_alive h s).
    + rewrite List.filter_app, length_app. simpl. lia.
  - rewrite trace_thread_step.
    assert (H : List.filter (fun ae : Actor * Event => is_sleep ae.2)
                  (trace s ++ map (pair (Th tid))
                     match pool s !! tid with
                     | Some th => emits (thread_move th o s)
                     | None => []
                     end)
                = List.filter (fun ae : Actor * Event => is_sleep ae.2)
                    (trace s)).
    { apply no_sleep_app. destruct (pool s !! tid); [|constructor].
      apply thread_move_no_sleep. }
    rewrite H. by destruct (main s).
  - destruct (thread_fail_frame tid s) as (_ & _ & _ & _ & -> & _).
    by destruct (main s).
Qed.

(** From every state of supervision mode the main thread is back at line
    160 after at most [to_build] of its statements, and it sleeps at most
    once on the way. *)
Lemma reach_build (ins : list Input) (s : State) :
  relay_inv s -> to_build (main s) <= main_steps ins ->
  exists wait rest,
    ins = wait ++ rest /\ main (run s wait) = MBuild
    /\ main_steps wait <= to_build (main s)
    /\ sleeps (run s wait) <= sleeps s + Nat.min 1 (to_build (main s)).
Proof.
  revert s. induction ins as [|i ins IH]; intros s Hinv Hle.
  - exists [], []. split; [done|].
    assert (H0 : to_build (main s) = 0).
    { unfold main_steps in Hle. simpl in Hle. lia. }
    split; [by apply to_build_zero|]. unfold main_steps. simpl. lia.
  - destruct (to_build (main s)) as [|n] eqn:En.
    { exists [], (i :: ins). split; [done|].
      split; [by apply to_build_zero|]. unfold main_steps. simpl. lia. }
    assert (Hnb : main s <> MBuild).
    { intros Hb. rewrite Hb in En. done. }
    pose proof (relay_inv_step s i Hinv) as Hinv'.
    pose proof (sleeps_step s i Hinv) as Hs.
    destruct i as [o | tid o | tid].
    + pose proof (to_build_main_step o s Hinv Hnb) as Hlt.
      destruct (IH (step s (RunMain o)) Hinv') as (wait & rest & -> & Hb & Hw & Hsl).
      { simpl. unfold main_steps in *. simpl in Hle. lia. }
      exists (RunMain o :: wait), rest. split; [done|]. rewrite run_cons.
      split; [done|]. change (step s (RunMain o)) with (main_step o s) in *.
      split; [unfold main_steps in *; simpl; lia|].
      destruct (main s) eqn:Em; simpl in Hs, En; try lia.
      assert (Hm : main (main_step o s) = MBuild).
      { unfold main_step. by rewrite Em. }
      rewrite Hm in Hsl. simpl in Hsl. simpl in Hs. lia.
    + destruct (IH (step s (RunThread tid o)) Hinv')
        as (wait & rest & -> & Hb & Hw & Hsl).
      { rewrite main_step_other by done. rewrite En. exact Hle. }
      exists (RunThread tid o :: wait), rest. split; [done|]. rewrite run_cons.
      split; [done|]. rewrite main_step_other, En in Hw, Hsl by done.
      split; [exact Hw|].
      change (sleeps (step s (RunThread tid o)) = sleeps s) in Hs.
      rewrite Hs in Hsl. lia.
    + destruct (IH (step s (FailThread tid)) Hinv')
        as (wait & rest & -> & Hb & Hw & Hsl).
      { rewrite main_step_other by done. rewrite En. exact Hle. }
      exists (FailThread tid :: wait), rest. split; [done|]. rewrite run_cons.
      split; [done|]. rewrite main_step_other, En in Hw, Hsl by done.
      split; [exact Hw|].
      change (sleeps (step s (FailThread tid)) = sleeps s) in Hs.
      rewrite Hs in Hsl. lia.
Qed.

(** ** One monitoring cycle with the relay's handle dead *)

Lemma cycle_phase_other (n h k : nat) (s : State) (i : Input) :
  (forall o, i <> RunMain o) ->
  cycle_phase n h k s -> cycle_phase n h k (step s i).
Proof.
  intros Hi (Hlen & Hdead & H1 & Hmain).
  pose proof (main_step_other s i Hi) as Hm.
  destruct i as [o | tid o | tid]; simpl in *.
  - by destruct (Hi o).
  - destruct (main_thread_step tid o s) as (_ & _ & Ht1 & _ & _).
    unfold cycle_phase. rewrite length_pool_thread_step, Hm, Ht1.
    split; [done|]. split; [by apply is_alive_thread_step | done].
  - destruct (thread_fail_frame tid s) as (_&_&_&_&_& Ht1 &_&_&_& El).
    unfold cycle_phase. rewrite El, Hm, Ht1.
    split; [done|]. split; [by apply is_alive_thread_fail | done].
Qed.

Lemma cycle_phase_main_step (n h k : nat) (o : Outcome) (s : State) :
  relay_inv s -> k < 3 ->
  cycle_phase n h k s ->
  cycle_phase n h (S k) (main_step o s)
  /\ sleeps (main_step o s) = sleeps s.
Proof.
  intros Hinv Hk (Hlen & Hdead & H1 & Hmain).
  pose proof (sleeps_step s (RunMain o) Hinv) as Hs. simpl in Hs.
  pose proof Hinv as [Hmode Hrun Hnone Hh H2 H3 Hpend Hoth].
  unfold cycle_phase, main_step in *.
  destruct k as [|[|[|k]]]; [| | |lia].
  - rewrite Hmain in *. rewrite H1. simpl. eauto 10.
  - destruct Hmain as [l Hmain]. rewrite Hmain in *. simpl in *.
    destruct (t265_enabled s) eqn:Ef.
    + destruct (H2 ltac:(lia) eq_refl) as [h2 ->]. simpl. eauto 10.
    + simpl. eauto 10.
  - destruct Hmain as [l Hmain]. rewrite Hmain in *. simpl in *.
    destruct (d4xx_enabled s) eqn:Ef.
    + destruct (H3 ltac:(lia) eq_refl) as [h3 ->]. simpl. eauto 10.
    + simpl. eauto 10.
Qed.

Lemma cycle_phase_run (n h : nat) (ins : list Input) (k : nat) (s : State) :
  relay_inv s -> cycle_phase n h k s -> k + main_steps ins <= 3 ->
  cycle_phase n h (k + main_steps ins) (run s ins)
  /\ sleeps (run s ins) = sleeps s.
Proof.
  revert k s. induction ins as [|i ins IH]; intros k s Hinv Hp Hle.
  - unfold main_steps. simpl. by rewrite Nat.add_0_r.
  - rewrite run_cons. pose proof (relay_inv_step s i Hinv) as Hinv'.
    destruct i as [o | tid o | tid].
    + assert (Hm : main_steps (RunMain o :: ins) = S (main_steps ins)) by done.
      rewrite Hm in *.
      destruct (cycle_phase_main_step n h k o s Hinv ltac:(lia) Hp) as [Hp' Hs].
      replace (k + S (main_steps ins)) with (S k + main_steps ins) by lia.
      destruct (IH (S k) _ Hinv' Hp' ltac:(lia)) as [Hq Hs'].
      split; [done|]. simpl in *. congruence.
    + change (main_steps (RunThread tid o :: ins)) with (main_steps ins) in *.
      destruct (IH k _ Hinv'
                  (cycle_phase_other n h k s (RunThread tid o) ltac:(done) Hp)
                  Hle) as [Hq Hs'].
      split; [done|]. rewrite Hs'.
      by rewrite (sleeps_step s (RunThread tid o) Hinv).
    + change (main_steps (FailThread tid :: ins)) with (main_steps ins) in *.
      destruct (IH k _ Hinv'
                  (cycle_phase_other n h k s (FailThread tid) ltac:(done) Hp)
                  Hle) as [Hq Hs'].
      split; [done|]. rewrite Hs'.
      by rewrite (sleeps_step s (FailThread tid) Hinv).
Qed.

Lemma cycle_phase_spawns (n h : nat) (s : State) :
  cycle_phase n h 3 s -> spawns s = Some Mavproxy.
Proof.
  intros (_ & Hdead & _ & l & Hm). unfold spawns. by rewrite Hm, Hdead.
Qed.

(** C3. In supervision mode, in every state of every execution (so after
    any number of failures of the relay's command): the main thread has
    neither exited nor crashed; each monitoring cycle begins by putting
    the relay's pair into [threads]; and the main thread is back at line
    160 after at most seven of its statements. Once some run of the relay
    is over, a new run of the relay is started within one polling
    interval: among the next statements of the main thread, as many as
    take it to line 160 and four more (eleven at most), one starts a
    thread that did not exist before, whose target is the relay and which
    is alive at its entry; the main thread sleeps at most once before that
    statement; and that thread is a thread of the relay ever after. *)
Theorem relay_restarted_within_one_cycle (a : Args) (ins later : list Input) :
  enumerate a = false ->
  let s := run (init a) ins in
  (main s <> MExit /\ forall e, main s <> MCrashed e)
  /\ (main s = MBuild ->
      exists h, thread1 s = Some h
                /\ forall o, main (step s (RunMain o))
                             = MAppend2 [(h, Mavproxy)])
  /\ to_build (main s) <= 7
  /\ ((exists tid th, pool s !! tid = Some th /\ target th = Mavproxy
                      /\ pc th = Finished) ->
      to_build (main s) + 4 <= main_steps later ->
      exists before o after,
        later = before ++ RunMain o :: after
        /\ main_steps before < to_build (main s) + 4
        /\ sleeps (run s before) <= sleeps s + 1
        /\ length (pool s) <= length (pool (run s before))
        /\ pool (step (run s before) (RunMain o))
             !! length (pool (run s before))
           = Some {| target := Mavproxy; pc := Entry |}
        /\ is_alive (length (pool (run s before)))
                    (step (run s before) (RunMain o)) = true
        /\ exists th, pool (run s later) !! length (pool (run s before))
                      = Some th
                      /\ target th = Mavproxy).
Proof.
  intros Ha s.
  assert (Hinv : relay_inv s).
  { apply relay_inv_run. by apply relay_inv_init. }
  split; [by destruct Hinv|]. split; [|split].
  - destruct Hinv as [_ _ _ Hh _ _ _ _]. intros Hm. rewrite Hm in Hh.
    destruct (Hh ltac:(simpl; lia)) as (h & th & H1 & _).
    exists h. split; [done|]. intros o.
    simpl. unfold main_step. by rewrite Hm, H1.
  - apply to_build_bound. by apply pending_bound_run.
  - intros (tid & [f p] & Hl & Ht & Hpc) Hlen. simpl in Ht, Hpc. subst f p.
    destruct (reach_build later s Hinv ltac:(lia))
      as (wait & rest & -> & Hb & Hw & Hsl).
    set (s1 := run s wait) in *.
    assert (Hinv1 : relay_inv s1) by (by apply relay_inv_run).
    rewrite main_steps_app in Hlen.
    destruct (main_steps_split 3 rest ltac:(lia))
      as (before & o & after & -> & H3).
    destruct (finished_run wait tid Mavproxy s Hl) as [Hl1 _]. fold s1 in Hl1.
    destruct (relay_others s1 Hinv1 tid _ Hl1 eq_refl) as (h & H1 & Hor).
    assert (Hdead : is_alive h s1 = false).
    { destruct Hor as [<- | Hd]; [|done]. unfold is_alive. by rewrite Hl1. }
    assert (Hp : cycle_phase (length (pool s1)) h 0 s1) by done.
    destruct (cycle_phase_run _ _ before 0 s1 Hinv1 Hp ltac:(lia)) as [Hp3 Hs3].
    rewrite H3 in Hp3. simpl in Hp3.
    pose proof (cycle_phase_spawns _ _ _ Hp3) as Hsp.
    destruct Hp3 as (Hlen3 & _).
    destruct (spawns_alive o _ _ Hsp) as [Hnew Halive].
    exists (wait ++ before), o, after.
    rewrite run_app. fold s1.
    split; [by rewrite <- app_assoc|].
    split; [rewrite main_steps_app; lia|].
    split; [lia|].
    split; [rewrite Hlen3; apply length_pool_run|].
    split; [done|]. split; [done|].
    replace (run s (wait ++ before ++ RunMain o :: after))
      with (run (step (run s1 before) (RunMain o)) after).
    + destruct (target_run after _ _ _ Hnew) as (th & Hth & Ht).
      by exists th.
    + unfold s1. by rewrite !run_app.
Qed.

Lemma relay_restarted_within_one_cycle_witness :
  let s := run (init no_flags) relay_fails_schedule in
  enumerate no_flags = false
  /\ (exists tid th, pool s !! tid = Some th /\ target th = Mavproxy
                     /\ pc th = Finished)
  /\ to_build (main s) + 4 <= main_steps one_cycle
  /\ exists before o after,
       one_cycle = before ++ RunMain o :: after
       /\ main_steps before < to_build (main s) + 4
       /\ sleeps (run s before) <= sleeps s + 1
       /\ length (pool s) <= length (pool (run s before))
       /\ pool (step (run s before) (RunMain o))
            !! length (pool (run s before))
          = Some {| target := Mavproxy; pc := Entry |}
       /\ is_alive (length (pool (run s before)))
                   (step (run s before) (RunMain o)) = true
       /\ exists th, pool (run s one_cycle) !! length (pool (run s before))
                     = Some th
                     /\ target th = Mavproxy.
Proof.
  intros s.
  assert (H1 : exists tid th, pool s !! tid = Some th /\ target th = Mavproxy
                              /\ pc th = Finished).
  { exists 1, {| target := Mavproxy; pc := Finished |}. by vm_compute. }
  assert (H2 : to_build (main s) + 4 <= main_steps one_cycle).
  { vm_compute. lia. }
  split; [reflexivity|]. split; [exact H1|]. split; [exact H2|].
  exact (proj2 (proj2 (proj2
    (relay_restarted_within_one_cycle no_flags relay_fails_schedule
       one_cycle eq_refl))) H1 H2).
Defined.

(** ** The stale handles of the monitoring loop *)

Lemma handles_main_step (o : Outcome) (s : State) :
  6 <= rank (main s) ->
  thread1 (main_step o s) = thread1 s
  /\ thread2 (main_step o s) = thread2 s
  /\ thread3 (main_step o s) = thread3 s.
Proof.
  intros H. unfold main_step.
  destruct (main s) as [| | | | | | |l|l|l| | |e]; simpl in H; try lia;
    try done.
  - by destruct (read_name (thread1 s)).
  - destruct (t265_enabled s); [|done]. by destruct (read_name (thread2 s)).
  - destruct (d4xx_enabled s); [|done]. by destruct (read_name (thread3 s)).
  - destruct l as [|[h f] l]; [done|]. by destruct (is_alive h s).
Qed.

(** C1, evaluated on the code. No statement of the monitoring loop, and no
    statement of any thread, ever rebinds [thread1], [thread2] or
    [thread3]: a restart binds the new thread to the loop variable only.
    So after the relay has failed once, every cycle finds the old handle
    dead and starts one more thread: after two cycles threads 4 and 5 are
    both alive and both run the relay's command, while [thread1] still
    names the dead thread 1. *)
Theorem monitor_starts_second_live_run :
  (forall s i, 6 <= rank (main s) ->
     thread1 (step s i) = thread1 s /\ thread2 (step s i) = thread2 s
     /\ thread3 (step s i) = thread3 s)
  /\ (let s := run (init no_flags) double_launch_schedule in
      thread1 s = Some 1
      /\ is_alive 1 s = false
      /\ thread s = Some 3
      /\ pool s !! 4 = Some {| target := Mavproxy; pc := InCommand |}
      /\ pool s !! 5 = Some {| target := Mavproxy; pc := InCommand |}
      /\ live_runs Mavproxy s = [4; 5]).
Proof.
  split.
  - intros s [o | tid o | tid] H; simpl.
    + by apply handles_main_step.
    + by destruct (main_thread_step tid o s) as (_ & _ & -> & -> & ->).
    + by destruct (thread_fail_frame tid s)
        as (_ & _ & _ & _ & _ & -> & -> & -> & _).
  - by vm_compute.
Qed.

(** C4, evaluated on the code. The stale handles of the monitoring loop
    give a worker two live runs, and then a launch follows the disable.
    The T265 worker's first thread dies of the [OSError] of a script that
    cannot be executed; [thread2] keeps naming it, so two monitoring
    cycles start threads 4 and 5 for the worker, and both pass their
    [while] test. Thread 5 probes, finds no T265, logs the warning, sets
    [t265_enabled] to false and ends. Thread 4 is still before its probe:
    its next statement finds the T265 and launches the worker's command,
    with the flag false. *)
Theorem sibling_run_launches_after_disable :
  let s := run (init no_flags) sibling_schedule in
  let s' := step s (RunThread 4 (Exited 0 t265_listing)) in
  thread2 s = Some 2
  /\ pool s !! 2 = Some {| target := Run T265; pc := Finished |}
  /\ pool s !! 5 = Some {| target := Run T265; pc := Finished |}
  /\ events_of 5 s = [Invoke rs_enumerate_devices false;
                      Log WARNING (warning_text T265) None]
  /\ t265_enabled s = false
  /\ pool s !! 4 = Some {| target := Run T265; pc := AtProbe |}
  /\ live_runs (Run T265) s = [4]
  /\ length (launches T265 s) = 1
  /\ t265_enabled s' = false
  /\ trace s' = trace s ++ [(Th 4, Invoke rs_enumerate_devices false);
                            (Th 4, Invoke (command T265) true)]
  /\ pool s' !! 4 = Some {| target := Run T265; pc := InCommand |}
  /\ length (launches T265 s') = 2.
Proof. by vm_compute. Qed.

(* ================================================================== *)
(** * Further properties *)

(** ** More on the device prober *)

Lemma occurs_in_nil (p : str) : occurs_in p [] -> p = [].
Proof.
  intros (before & after & H). symmetry in H.
  apply app_eq_nil in H as [_ H]. by apply app_eq_nil in H as [H _].
Qed.

Lemma occurs_in_app_l (p a b : str) : occurs_in p a -> occurs_in p (a ++ b).
Proof.
  intros (before & after & ->). exists before, (after ++ b).
  by rewrite <- !app_assoc.
Qed.

Lemma occurs_in_app_r (p a b : str) : occurs_in p b -> occurs_in p (a ++ b).
Proof.
  intros (before & after & ->). exists (a ++ before), after.
  by rewrite <- !app_assoc.
Qed.

(** A text without [c] that starts [a ++ c :: b] lies within [a]. *)
Lemma prefix_before_separator (p post a b : str) (c : char) :
  c ∉ p -> p ++ post = a ++ c :: b -> exists r, a = p ++ r.
Proof.
  revert a. induction p as [|x p IH]; intros a Hc H; [by exists a|].
  destruct a as [|y a]; simpl in H.
  - injection H as -> _. destruct Hc. by left.
  - injection H as -> H. destruct (IH a) as [r ->]; [|done|by exists r].
    intros Hin. apply Hc. by right.
Qed.

(** An occurrence cannot span a character the needle does not have. *)
Lemma occurs_in_separator (p a b : str) (c : char) :
  c ∉ p -> occurs_in p (a ++ c :: b) -> occurs_in p a \/ occurs_in p b.
Proof.
  intros Hc (before & after & H). revert a H.
  induction before as [|x before IH]; intros a H; simpl in H.
  - symmetry in H. destruct (prefix_before_separator _ _ _ _ _ Hc H) as [r ->].
    left. by exists [], r.
  - destruct a as [|y a]; simpl in H.
    + injection H as _ ->. right. by exists before, after.
    + injection H as _ H. destruct (IH a H) as [(b1 & a1 & ->) | Hb].
      * left. by exists (y :: b1), a1.
      * by right.
Qed.

Lemma linebreak_not_in (p : str) (c : char) :
  Forall (fun x => is_linebreak x = false) p -> is_linebreak c = true ->
  c ∉ p.
Proof.
  intros Hp Hc Hin. rewrite Forall_forall in Hp.
  specialize (Hp c Hin). congruence.
Qed.

Lemma splitlines_from_LF (cur rest : str) :
  splitlines_from cur (LF :: rest) = cur :: splitlines_from [] rest.
Proof. by destruct rest. Qed.

(** Induction over a text the way [splitlines_from] consumes it. *)
Lemma splitlines_from_cases (c : char) (rest cur : str) :
  (is_linebreak c = true
   /\ ((exists rest2, rest = LF :: rest2 /\ c = CR
        /\ splitlines_from cur (c :: rest) = cur :: splitlines_from [] rest2
        /\ splitlines_from [] rest = [] :: splitlines_from [] rest2)
       \/ splitlines_from cur (c :: rest) = cur :: splitlines_from [] rest))
  \/ (is_linebreak c = false
      /\ splitlines_from cur (c :: rest) = splitlines_from (cur ++ [c]) rest).
Proof.
  cbn [splitlines_from]. destruct (is_linebreak c) eqn:Ec; [left|by right].
  split; [done|]. destruct rest as [|c2 rest2]; [by right|].
  destruct ((c =? CR)%N && (c2 =? LF)%N) eqn:E; [|by right].
  apply andb_true_iff in E as [E1%N.eqb_eq E2%N.eqb_eq]. subst c c2.
  left. exists rest2. by rewrite splitlines_from_LF.
Qed.

(** The lines of [splitlines] hold no line boundary. *)
Lemma splitlines_from_no_linebreak (s cur line : str) :
  Forall (fun x => is_linebreak x = false) cur ->
  line ∈ splitlines_from cur s ->
  Forall (fun x => is_linebreak x = false) line.
Proof.
  revert cur. induction s as [|c rest IH]; intros cur Hcur Hin.
  - simpl in Hin. destruct cur; [by apply elem_of_nil in Hin|].
    apply list_elem_of_singleton in Hin. by subst.
  - destruct (splitlines_from_cases c rest cur)
      as [[Ec [(rest2 & -> & -> & H1 & H2) | H1]] | [Ec H1]];
      rewrite H1 in Hin.
    + apply elem_of_cons in Hin as [-> | Hin]; [done|].
      apply (IH []); [constructor|]. rewrite H2. by right.
    + apply elem_of_cons in Hin as [-> | Hin]; [done|].
      by apply (IH []).
    + apply (IH (cur ++ [c])); [|done].
      apply Forall_app. split; [done|]. by constructor.
Qed.

Lemma splitlines_from_occurs (p s cur : str) :
  p <> [] ->
  Forall (fun x => is_linebreak x = false) p ->
  (exists line, line ∈ splitlines_from cur s /\ occurs_in p line)
  <-> occurs_in p (cur ++ s).
Proof.
  intros Hne Hp. revert cur. induction s as [|c rest IH]; intros cur.
  - simpl. rewrite app_nil_r. destruct cur as [|x cur].
    + split.
      * intros (line & Hin & _). by apply elem_of_nil in Hin.
      * intros H. by apply occurs_in_nil in H.
    + split.
      * intros (line & Hin & H). apply list_elem_of_singleton in Hin.
        by subst.
      * intros H. exists (x :: cur). split; [by left | done].
  - destruct (splitlines_from_cases c rest cur)
      as [[Ec [(rest2 & -> & -> & H1 & H2) | H1]] | [Ec H1]];
      rewrite H1.
    + pose proof (IH []) as IH0. rewrite H2 in IH0. simpl in IH0. split.
      * intros (line & Hin & H).
        apply elem_of_cons in Hin as [-> | Hin].
        -- by apply occurs_in_app_l.
        -- apply occurs_in_app_r. apply (occurs_in_app_r _ [CR]).
           apply IH0. exists line. split; [by right | done].
      * intros H. apply occurs_in_separator in H as [H | H];
          [| |by apply linebreak_not_in].
        -- exists cur. split; [by left | done].
        -- apply IH0 in H as (line & Hin & H).
           apply elem_of_cons in Hin as [-> | Hin].
           ++ by apply occurs_in_nil in H.
           ++ exists line. split; [by right | done].
    + split.
      * intros (line & Hin & H).
        apply elem_of_cons in Hin as [-> | Hin].
        -- by apply occurs_in_app_l.
        -- apply occurs_in_app_r. apply (occurs_in_app_r _ [c]).
           apply (IH []). eauto.
      * intros H. apply occurs_in_separator in H as [H | H];
          [| |by apply linebreak_not_in].
        -- exists cur. split; [by left | done].
        -- apply (IH []) in H as (line & Hin & H).
           exists line. split; [by right | done].
    + rewrite IH. by rewrite <- app_assoc.
Qed.

Lemma splitlines_from_nil (s cur : str) :
  splitlines_from cur s = [] -> cur = [] /\ s = [].
Proof.
  revert cur. induction s as [|c rest IH]; intros cur H.
  - simpl in H. by destruct cur.
  - destruct (splitlines_from_cases c rest cur)
      as [[Ec [(rest2 & -> & -> & H1 & H2) | H1]] | [Ec H1]];
      rewrite H1 in H; try done.
    apply IH in H as [H _]. by destruct cur.
Qed.

Lemma scan_eq_str_in (p out : str) :
  p <> [] ->
  Forall (fun x => is_linebreak x = false) p ->
  is_device_connected_scan p (splitlines out) = str_in p out.
Proof.
  intros Hne Hp. apply eq_true_iff_eq.
  rewrite is_device_connected_scan_spec, str_in_spec.
  apply (splitlines_from_occurs p out [] Hne Hp).
Qed.

(** X1. For a prefix that is not empty and holds no line-boundary
    character (such as "T265" and "D4"), the probe of an exited tool is
    the substring test on the tool's whole standard output. *)
Theorem is_device_connected_is_substring_test (device_prefix : str)
  (status : Z) (out : str) (w : World) :
  tool w (calls w) = Exited status out ->
  device_prefix <> [] ->
  Forall (fun c => is_linebreak c = false) device_prefix ->
  (is_device_connected device_prefix w).1 = Ok (str_in device_prefix out).
Proof.
  intros Hw Hne Hp.
  rewrite (is_device_connected_exited _ status out) by done. simpl.
  by rewrite scan_eq_str_in.
Qed.

Lemma is_device_connected_is_substring_test_witness :
  tool (answering (Exited 0 t265_listing))
       (calls (answering (Exited 0 t265_listing))) = Exited 0 t265_listing
  /\ text "T265" <> []
  /\ Forall (fun c => is_linebreak c = false) (text "T265")
  /\ (is_device_connected (text "T265")
        (answering (Exited 0 t265_listing))).1
     = Ok (str_in (text "T265") t265_listing).
Proof.
  assert (H : Forall (fun c => is_linebreak c = false) (text "T265")).
  { by repeat constructor. }
  split; [reflexivity|]. split; [done|]. split; [exact H|].
  exact (is_device_connected_is_substring_test (text "T265") 0 t265_listing
           (answering (Exited 0 t265_listing)) eq_refl
           ltac:(discriminate) H).
Defined.

(** X2. With the empty prefix the probe of an exited tool answers whether
    the tool printed anything at all. *)
Theorem is_device_connected_empty_prefix (status : Z) (out : str) (w : World) :
  tool w (calls w) = Exited status out ->
  (is_device_connected [] w).1
  = Ok (match out with [] => false | _ => true end).
Proof.
  intros Hw. rewrite (is_device_connected_exited _ status out) by done.
  simpl. f_equal. destruct (splitlines out) as [|l ls] eqn:E.
  - apply splitlines_from_nil in E as [_ ->]. done.
  - destruct out; [done|]. by destruct l.
Qed.

Lemma is_device_connected_empty_prefix_witness :
  tool (answering (Exited 0 [])) (calls (answering (Exited 0 []))) = Exited 0 []
  /\ (is_device_connected [] (answering (Exited 0 []))).1 = Ok false.
Proof.
  split; [reflexivity|].
  exact (is_device_connected_empty_prefix 0 [] (answering (Exited 0 []))
           eq_refl).
Defined.

(** X3. A prefix that holds a line-boundary character is never found,
    whatever the tool prints: the scan looks inside single lines only. *)
Theorem is_device_connected_prefix_across_lines (device_prefix : str)
  (c : char) (status : Z) (out : str) (w : World) :
  tool w (calls w) = Exited status out ->
  c ∈ device_prefix -> is_linebreak c = true ->
  (is_device_connected device_prefix w).1 = Ok false.
Proof.
  intros Hw Hin Hc. rewrite (is_device_connected_exited _ status out) by done.
  simpl. f_equal. apply not_true_is_false. intros H.
  apply is_device_connected_scan_spec in H as (line & Hl & before & after & ->).
  apply splitlines_from_no_linebreak in Hl; [|constructor].
  rewrite Forall_forall in Hl. specialize (Hl c). rewrite Hc in Hl.
  discriminate Hl. apply elem_of_app. right. apply elem_of_app. by left.
Qed.

Lemma is_device_connected_prefix_across_lines_witness :
  tool (answering (Exited 0 t265_listing))
       (calls (answering (Exited 0 t265_listing))) = Exited 0 t265_listing
  /\ LF ∈ (text "T265" ++ [LF])
  /\ is_linebreak LF = true
  /\ (is_device_connected (text "T265" ++ [LF])
        (answering (Exited 0 t265_listing))).1 = Ok false.
Proof.
  assert (H : LF ∈ (text "T265" ++ [LF])).
  { apply elem_of_app. right. by left. }
  split; [reflexivity|]. split; [exact H|]. split; [reflexivity|].
  exact (is_device_connected_prefix_across_lines (text "T265" ++ [LF]) LF 0
           t265_listing (answering (Exited 0 t265_listing))
           eq_refl H eq_refl).
Defined.

(** ** More on the enumeration report *)

Lemma lstrip_suffix (s : str) : exists ws, s = ws ++ lstrip s.
Proof.
  induction s as [|c s [ws IH]]; [by exists []|]. simpl.
  destruct (is_space c); [|by exists []].
  exists (c :: ws). simpl. by rewrite <- IH.
Qed.

Lemma lstrip_head (s : str) (c : char) :
  head (lstrip s) = Some c -> is_space c = false.
Proof.
  induction s as [|x s IH]; [done|]. simpl.
  destruct (is_space x) eqn:E; [done|]. simpl. by intros [= <-].
Qed.

Lemma lstrip_last (s : str) (c : char) :
  last (lstrip s) = Some c -> last s = Some c.
Proof.
  destruct (lstrip_suffix s) as [ws H]. intros Hl.
  rewrite H, last_app. by rewrite Hl.
Qed.

Lemma lstrip_occurs (p s : str) (x : char) :
  head p = Some x -> is_space x = false ->
  occurs_in p s -> occurs_in p (lstrip s).
Proof.
  intros Hp Hx. induction s as [|c s IH]; [done|]. simpl.
  destruct (is_space c) eqn:Ec; [|done].
  intros (before & after & H). apply IH.
  destruct before as [|b before]; simpl in H.
  - destruct p as [|y p]; [done|]. simpl in Hp, H.
    injection Hp as ->. injection H as -> _. congruence.
  - injection H as _ ->. by exists before, after.
Qed.

Lemma occurs_in_rev (p s : str) : occurs_in p s -> occurs_in (rev p) (rev s).
Proof.
  intros (before & after & ->). exists (rev after), (rev before).
  by rewrite !rev_app_distr, <- app_assoc.
Qed.

Lemma head_rev (s : str) : head (rev s) = last s.
Proof.
  destruct s as [|c s] using rev_ind; [done|].
  by rewrite rev_app_distr, last_snoc.
Qed.

Lemma last_rev (s : str) : last (rev s) = head s.
Proof. by rewrite <- head_rev, rev_involutive. Qed.

(** [strip] keeps every occurrence of a needle that neither begins nor
    ends with a blank. *)
Lemma strip_occurs (p s : str) (x y : char) :
  head p = Some x -> is_space x = false ->
  last p = Some y -> is_space y = false ->
  occurs_in p s -> occurs_in p (strip s).
Proof.
  intros Hx Hsx Hy Hsy H. unfold strip.
  rewrite <- (rev_involutive p). apply occurs_in_rev.
  apply (lstrip_occurs _ _ y); [by rewrite head_rev | done |].
  apply occurs_in_rev. by apply (lstrip_occurs _ _ x).
Qed.

(** [strip] leaves no blank at either end. *)
Lemma strip_ends (s : str) (c : char) :
  head (strip s) = Some c \/ last (strip s) = Some c -> is_space c = false.
Proof.
  unfold strip. rewrite head_rev, last_rev. intros [H | H].
  - apply lstrip_last in H. rewrite last_rev in H. by apply lstrip_head in H.
  - by apply lstrip_head in H.
Qed.

(** X4. Every entry of the report is some output line stripped of its
    surrounding blanks, still holds "T265" or "D4", and neither begins
    nor ends with a blank. *)
Theorem enumerate_devices_entries (lines : list str) (entry : str) :
  entry ∈ enumerate_devices_scan lines ->
  (exists line, line ∈ lines /\ entry = strip line)
  /\ (occurs_in (text "T265") entry \/ occurs_in (text "D4") entry)
  /\ (forall c, head entry = Some c \/ last entry = Some c ->
                is_space c = false).
Proof.
  rewrite enumerate_devices_scan_filter. intros H.
  apply list_elem_of_In, in_map_iff in H as (line & <- & H).
  apply filter_In in H as [Hin Hrel]. apply list_elem_of_In in Hin.
  split; [by exists line|]. split; [|apply strip_ends].
  apply is_relevant_spec in Hrel as [Hr | Hr]; [left | right].
  - by apply (strip_occurs _ _ 84%N 53%N).
  - by apply (strip_occurs _ _ 68%N 52%N).
Qed.

Lemma enumerate_devices_entries_witness :
  text "Intel T265" ∈ enumerate_devices_scan [text "  Intel T265  "]
  /\ (occurs_in (text "T265") (text "Intel T265")
      \/ occurs_in (text "D4") (text "Intel T265")).
Proof.
  assert (H : text "Intel T265" ∈ enumerate_devices_scan [text "  Intel T265  "]).
  { by left. }
  split; [exact H|].
  exact (proj1 (proj2 (enumerate_devices_entries _ _ H))).
Defined.

Lemma enumerate_devices_not_executed (w : World) :
  tool w (calls w) = NotExecuted ->
  enumerate_devices w =
    (Raise OSError,
     {| tool := tool w; calls := S (calls w);
        events := events w ++ [Invoke rs_enumerate_devices false] |}).
Proof.
  intros H. unfold enumerate_devices, try_except, subprocess_run, completed.
  unfold mbind at 1. unfold M_bind at 1.
  unfold mbind at 1. unfold M_bind at 1. by rewrite H.
Qed.

Lemma enumerate_devices_undecodable (status : Z) (w : World) :
  tool w (calls w) = Undecodable status ->
  enumerate_devices w =
    (Raise UnicodeDecodeError,
     {| tool := tool w; calls := S (calls w);
        events := events w ++ [Invoke rs_enumerate_devices false] |}).
Proof.
  intros H. unfold enumerate_devices, try_except, subprocess_run, completed.
  unfold mbind at 1. unfold M_bind at 1.
  unfold mbind at 1. unfold M_bind at 1. by rewrite H.
Qed.

(** X5. [enumerate_devices] never logs, it only invokes the tool and
    prints. When the tool cannot be executed the [OSError] leaves the
    function and nothing is printed, not even the none-detected
    message. *)
Theorem enumerate_devices_failures (w : World) :
  (tool w (calls w) = NotExecuted ->
   enumerate_devices w =
     (Raise OSError,
      {| tool := tool w; calls := S (calls w);
         events := events w ++ [Invoke rs_enumerate_devices false] |}))
  /\ exists added,
       events (enumerate_devices w).2 = events w ++ added
       /\ forall level fmt arg, Log level fmt arg ∉ added.
Proof.
  split; [apply enumerate_devices_not_executed|].
  - destruct (tool w (calls w)) as [status out|status|] eqn:E.
    + rewrite (enumerate_devices_exited status out) by done. simpl.
      eexists. split; [done|]. intros level fmt arg Hin.
      apply elem_of_cons in Hin as [Hin | Hin]; [done|].
      destruct (map strip _) as [|d ds].
      * apply list_elem_of_singleton in Hin. done.
      * apply elem_of_cons in Hin as [Hin | Hin]; [done|].
        change (Print d :: map Print ds) with (map Print (d :: ds)) in Hin.
        apply list_elem_of_In, in_map_iff in Hin as (x & Hx & _). done.
    + exists [Invoke rs_enumerate_devices false]. split.
      * by rewrite (enumerate_devices_undecodable status).
      * intros level fmt arg Hin. apply list_elem_of_singleton in Hin. done.
    + exists [Invoke rs_enumerate_devices false]. split.
      * by rewrite enumerate_devices_not_executed.
      * intros level fmt arg Hin. apply list_elem_of_singleton in Hin. done.
Qed.

(** ** More on the worker flags and launches *)

Lemma clears_flag_run_worker (w : Worker) (flag : bool) (p : Pc) (o : Outcome) :
  clears_flag (run_worker w flag p o) = true ->
  p = AtProbe
  /\ exists status out, o = Exited status out
       /\ is_device_connected_scan (device_prefix w) (splitlines out) = false.
Proof.
  unfold run_worker. destruct p; simpl; try done.
  - by destruct flag.
  - destruct o as [status out|status|]; [|done|done].
    rewrite (is_device_connected_exited _ status out) by done.
    destruct (is_device_connected_scan _ _) eqn:E; [done|]. eauto.
  - by destruct (completed (command w) false true o) as [c|[]].
Qed.

Lemma clears_flag_thread_move (th : Thread) (o : Outcome) (s : State) :
  clears_flag (thread_move th o s) = true ->
  exists w status out,
    th = {| target := Run w; pc := AtProbe |} /\ o = Exited status out
    /\ is_device_connected_scan (device_prefix w) (splitlines out) = false.
Proof.
  destruct th as [f p]. unfold thread_move. simpl. destruct f as [|w|].
  - unfold mavproxy_create_connection. destruct p; try done.
    by destruct (completed mavproxy_command false true o) as [c|[]].
  - intros H. apply clears_flag_run_worker in H
      as (-> & status & out & -> & H). eauto 10.
  - by destruct p.
Qed.

Lemma enabled_main_step_other (w : Worker) (o : Outcome) (s : State) :
  main s <> MStart -> enabled w (main_step o s) = enabled w s.
Proof.
  intros H. unfold main_step. repeat case_match; try done; by destruct w.
Qed.

(** X6. The enabled flag of a worker goes from true to false in two ways
    only: by the flag handling at startup, under sik-only or the worker's
    own disable flag, or by a run of that worker whose probe ran the
    enumeration tool to its exit and found the prefix in none of its
    lines. In particular no failure of the worker's command, however
    often, and no failure to execute the enumeration tool disables the
    worker. *)
Theorem enabled_cleared_only_by (w : Worker) (s : State) (i : Input) :
  enabled w s = true -> enabled w (step s i) = false ->
  (exists o, i = RunMain o /\ main s = MStart
             /\ enumerate (args s) = false
             /\ (sik_only (args s) = true
                 \/ disable_flag w (args s) = true))
  \/ (exists tid status out,
        i = RunThread tid (Exited status out)
        /\ pool s !! tid = Some {| target := Run w; pc := AtProbe |}
        /\ is_device_connected_scan (device_prefix w) (splitlines out)
           = false).
Proof.
  intros Hon Hoff. destruct i as [o | tid o | tid]; simpl in Hoff;
    [| |rewrite enabled_thread_fail in Hoff; congruence].
  - left. exists o. split; [done|].
    destruct (main s) eqn:E;
      try (rewrite enabled_main_step_other in Hoff by (by rewrite E);
           congruence).
    split; [done|]. revert Hoff. unfold main_step. rewrite E.
    destruct (enumerate (args s)).
    + destruct (enumerate_devices (answering o)) as [[[]|e] world];
        rewrite enabled_goto, enabled_record; intros; congruence.
    + rewrite enabled_goto. unfold handle_flags.
      destruct (sik_only (args s)); [by auto|].
      intros H. split; [done|]. right.
      destruct w; simpl in *;
        destruct (disable_t265 (args s)); simpl in *;
        destruct (disable_d4xx (args s)); simpl in *; congruence.
  - right. rewrite enabled_thread_step in Hoff.
    destruct (pool s !! tid) as [th|] eqn:E; [|congruence].
    destruct (cleared th (thread_move th o s) w) eqn:Ec; [|congruence].
    unfold cleared in Ec. apply andb_true_iff in Ec as [Hc Ht].
    apply bool_decide_eq_true in Ht.
    apply clears_flag_thread_move in Hc as (w' & status & out & -> & -> & H).
    simpl in Ht. injection Ht as ->. eauto 10.
Qed.

Lemma enabled_cleared_only_by_witness :
  enabled T265 (run (init no_flags) probe_schedule) = true
  /\ enabled T265 (step (run (init no_flags) probe_schedule)
                        (RunThread 2 nothing_attached)) = false
  /\ ((exists o, RunThread 2 nothing_attached = RunMain o
         /\ main (run (init no_flags) probe_schedule) = MStart
         /\ enumerate (args (run (init no_flags) probe_schedule)) = false
         /\ (sik_only (args (run (init no_flags) probe_schedule)) = true
             \/ disable_flag T265 (args (run (init no_flags) probe_schedule))
                = true))
      \/ (exists tid status out,
            RunThread 2 nothing_attached = RunThread tid (Exited status out)
            /\ pool (run (init no_flags) probe_schedule) !! tid
               = Some {| target := Run T265; pc := AtProbe |}
            /\ is_device_connected_scan (device_prefix T265) (splitlines out)
               = false)).
Proof.
  split; [reflexivity|]. split; [reflexivity|].
  exact (enabled_cleared_only_by T265 (run (init no_flags) probe_schedule)
           (RunThread 2 nothing_attached) eq_refl eq_refl).
Defined.

Lemma run_worker_launch (w : Worker) (flag : bool) (p : Pc) (o : Outcome) :
  List.filter (is_launch w) (emits (run_worker w flag p o)) <> [] ->
  p = AtProbe
  /\ (exists status out, o = Exited status out
        /\ is_device_connected_scan (device_prefix w) (splitlines out) = true)
  /\ run_worker w flag p o
     = move InCommand [Invoke rs_enumerate_devices false;
                       Invoke (command w) true].
Proof.
  unfold run_worker. destruct p; simpl; try done.
  - by destruct flag.
  - destruct o as [status out|status|].
    + rewrite (is_device_connected_exited _ status out) by done.
      destruct (is_device_connected_scan _ _) eqn:E.
      * intros _. split; [done|]. split; [eauto|done].
      * simpl. by destruct w.
    + simpl. by destruct w.
    + simpl. by destruct w.
  - by destruct (completed (command w) false true o) as [c|[]].
Qed.

Lemma filter_launch_nil (w : Worker) (who : Actor) (l : list (Actor * Event))
  (evs : list Event) :
  List.filter (is_launch w) evs = [] ->
  List.filter (fun ae : Actor * Event => is_launch w ae.2)
              (l ++ map (pair who) evs)
  = List.filter (fun ae : Actor * Event => is_launch w ae.2) l.
Proof.
  intros H. apply launches_app. apply Forall_forall. intros e He.
  destruct (is_launch w e) eqn:E; [|done].
  assert (Hin : In e (List.filter (is_launch w) evs)).
  { apply filter_In. split; [by apply list_elem_of_In | done]. }
  by rewrite H in Hin.
Qed.

(** X7. A step adds a launch of a worker's command to the trace only
    when it is the probing statement of a run of that worker and the
    enumeration tool, run to its exit, printed a line that holds the
    worker's prefix; the step then adds exactly the tool's invocation
    followed by one launch. *)
Theorem launch_needs_present_hardware (w : Worker) (s : State) (i : Input) :
  launches w (step s i) <> launches w s ->
  exists tid status out line,
    i = RunThread tid (Exited status out)
    /\ pool s !! tid = Some {| target := Run w; pc := AtProbe |}
    /\ line ∈ splitlines out /\ occurs_in (device_prefix w) line
    /\ trace (step s i)
       = trace s ++ [(Th tid, Invoke rs_enumerate_devices false);
                     (Th tid, Invoke (command w) true)].
Proof.
  intros Hne. destruct i as [o | tid o | tid]; simpl in *;
    [| |unfold launches in Hne;
        by destruct (thread_fail_frame tid s) as (_ & _ & _ & _ & E & _);
           rewrite E in Hne].
  - by rewrite launches_main_step in Hne.
  - unfold launches in Hne. rewrite trace_thread_step in *.
    destruct (pool s !! tid) as [[f p]|] eqn:E;
      [|by rewrite filter_launch_nil in Hne].
    unfold thread_move in *. simpl in *. destruct f as [|w'|].
    + rewrite launches_app in Hne; [done|].
      apply Forall_forall. intros e He.
      destruct e as [cmd check| | |]; try done.
      apply mavproxy_invokes in He as ->. apply (command_distinct w w).
    + destruct (decide (w' = w)) as [-> | Hw].
      * destruct (List.filter (is_launch w)
                    (emits (run_worker w (enabled w s) p o))) eqn:Ef;
          [by rewrite filter_launch_nil in Hne|].
        destruct (run_worker_launch w (enabled w s) p o)
          as (-> & (status & out & -> & Hscan) & Hmove); [by rewrite Ef|].
        apply is_device_connected_scan_spec in Hscan as (line & Hl & Hocc).
        exists tid, status, out, line. rewrite Hmove. done.
      * rewrite launches_app in Hne; [done|].
        by apply run_worker_other_no_launch.
    + rewrite publish_logs_thread_silent in Hne.
      by rewrite filter_launch_nil in Hne.
Qed.

Lemma launch_needs_present_hardware_witness :
  launches T265 (step (run (init no_flags) probe_schedule)
                      (RunThread 2 (Exited 0 t265_listing)))
    <> launches T265 (run (init no_flags) probe_schedule)
  /\ exists tid status out line,
       RunThread 2 (Exited 0 t265_listing) = RunThread tid (Exited status out)
       /\ pool (run (init no_flags) probe_schedule) !! tid
          = Some {| target := Run T265; pc := AtProbe |}
       /\ line ∈ splitlines out /\ occurs_in (device_prefix T265) line
       /\ trace (step (run (init no_flags) probe_schedule)
                      (RunThread 2 (Exited 0 t265_listing)))
          = trace (run (init no_flags) probe_schedule)
            ++ [(Th tid, Invoke rs_enumerate_devices false);
                (Th tid, Invoke (command T265) true)].
Proof.
  assert (H : launches T265 (step (run (init no_flags) probe_schedule)
                                  (RunThread 2 (Exited 0 t265_listing)))
              <> launches T265 (run (init no_flags) probe_schedule)).
  { by vm_compute. }
  split; [exact H|].
  exact (launch_needs_present_hardware T265 _ _ H).
Defined.

(** How a run of a hardware worker ends. *)
Lemma run_worker_finished (w : Worker) (flag : bool) (p : Pc) (o : Outcome) :
  p <> Finished ->
  next (run_worker w flag p o) = Finished <->
  (p = Entry /\ flag = false)
  \/ (p = AtProbe
      /\ (o = NotExecuted
          \/ (exists status, o = Undecodable status)
          \/ exists status out, o = Exited status out
               /\ is_device_connected_scan (device_prefix w) (splitlines out)
                  = false))
  \/ (p = InCommand /\ o = NotExecuted).
Proof.
  intros Hp. unfold run_worker. destruct p; simpl; try done.
  - destruct flag; simpl; split; try done; try (by left).
    intros [[_ ?] | [[? _] | [? _]]]; done.
  - destruct o as [status out|status|].
    + rewrite (is_device_connected_exited _ status out) by done.
      destruct (is_device_connected_scan _ _) eqn:E; simpl.
      * split; [done|].
        intros [[? _] | [[_ [? | [[? ?] | (? & ? & [= <- <-] & ?)]]] | [? _]]];
          congruence.
      * split; [|done]. intros _. right. left. eauto 10.
    + simpl. split; [|done]. intros _. right. left. eauto 10.
    + simpl. split; [|done]. intros _. right. left. eauto 10.
  - destruct o as [status out|status|]; simpl.
    + unfold check_returncode. simpl. destruct (negb (status =? 0)%Z); simpl;
        (split; [done|]); intros [[? _] | [[? _] | [_ ?]]]; done.
    + unfold check_returncode. simpl. destruct (negb (status =? 0)%Z); simpl;
        (split; [done|]); intros [[? _] | [[? _] | [_ ?]]]; done.
    + split; [|done]. intros _. right. right. done.
  - split; [done|]. intros [[? _] | [[? _] | [? _]]]; done.
Qed.

Lemma run_worker_retries (w : Worker) (flag : bool) (o : Outcome) :
  o <> NotExecuted -> next (run_worker w flag InCommand o) = Entry.
Proof.
  intros Ho. unfold run_worker, completed, check_returncode.
  destruct o as [status out|status|]; [| |done]; simpl;
    by destruct (negb (status =? 0)%Z).
Qed.

(** X8. A live run of a hardware worker ends by a statement of its own,
    and exactly in these cases: its [while] test finds the flag false; its
    probe finds the hardware absent, cannot execute the enumeration tool,
    or cannot decode what the tool wrote; or the worker's command cannot
    be executed. When the command was executed, its exit, with whatever
    status, sends the run back to its [while] test. *)
Theorem worker_run_ends_only_by (w : Worker) (s : State) (tid : nat) (p : Pc)
  (i : Input) :
  pool s !! tid = Some {| target := Run w; pc := p |} ->
  p <> Finished ->
  (pool (step s i) !! tid = Some {| target := Run w; pc := Finished |} <->
   exists o,
     i = RunThread tid o
     /\ ((p = Entry /\ enabled w s = false)
         \/ (p = AtProbe
             /\ (o = NotExecuted
                 \/ (exists status, o = Undecodable status)
                 \/ exists status out, o = Exited status out
                      /\ is_device_connected_scan (device_prefix w)
                           (splitlines out) = false))
         \/ (p = InCommand /\ o = NotExecuted)))
  /\ (forall o, i = RunThread tid o -> p = InCommand -> o <> NotExecuted ->
        pool (step s i) !! tid = Some {| target := Run w; pc := Entry |}).
Proof.
  intros Hl Hp. split.
  - split.
    + intros Hfin. destruct i as [o | t o | t]; simpl in Hfin;
        [| |apply pool_thread_fail_inv in Hfin as [Hfin | (_ & [=] & _)];
            congruence].
      * rewrite pool_main_step, (lookup_app_l_Some _ _ _ _ Hl) in Hfin.
        congruence.
      * rewrite pool_thread_step in Hfin. case_decide as Hd; [|congruence].
        subst t. rewrite Hl in Hfin. simpl in Hfin. injection Hfin as Hfin.
        exists o. split; [done|]. unfold thread_move in Hfin. simpl in Hfin.
        by apply (run_worker_finished w _ p o Hp).
    + intros (o & -> & H). simpl.
      rewrite pool_thread_step, decide_True, Hl by done. simpl.
      unfold thread_move. simpl.
      by apply (run_worker_finished w _ p o Hp) in H as ->.
  - intros o -> -> Ho. simpl.
    rewrite pool_thread_step, decide_True, Hl by done.
    unfold thread_move. cbn [fmap option_fmap option_map target pc].
    by rewrite run_worker_retries.
Qed.

Lemma worker_run_ends_only_by_witness :
  pool (run (init no_flags) probe_schedule) !! 2
    = Some {| target := Run T265; pc := AtProbe |}
  /\ AtProbe <> Finished
  /\ (pool (step (run (init no_flags) probe_schedule)
                 (RunThread 2 (Undecodable 0))) !! 2
      = Some {| target := Run T265; pc := Finished |} <->
      exists o,
        RunThread 2 (Undecodable 0) = RunThread 2 o
        /\ ((AtProbe = Entry
             /\ enabled T265 (run (init no_flags) probe_schedule) = false)
            \/ (AtProbe = AtProbe
                /\ (o = NotExecuted
                    \/ (exists status, o = Undecodable status)
                    \/ exists status out, o = Exited status out
                         /\ is_device_connected_scan (device_prefix T265)
                              (splitlines out) = false))
            \/ (AtProbe = InCommand /\ o = NotExecuted))).
Proof.
  split; [reflexivity|]. split; [discriminate|].
  exact (proj1 (worker_run_ends_only_by T265
                  (run (init no_flags) probe_schedule)
                  2 AtProbe (RunThread 2 (Undecodable 0)) eq_refl
                  ltac:(discriminate))).
Defined.

(** ** More on the monitoring loop *)

Lemma pending_thread_step (tid : nat) (o : Outcome) (s : State) :
  pending (main (thread_step tid o s)) = pending (main s).
Proof. by destruct (main_thread_step tid o s) as (-> & _). Qed.

(** The pairs the loop holds after a statement of the main thread were
    held before, or were made from a worker whose flag was true. *)
Lemma pending_main_step (w : Worker) (o : Outcome) (s : State) (h : nat) :
  (h, Run w) ∈ pending (main (main_step o s)) ->
  (h, Run w) ∈ pending (main s) \/ enabled w s = true.
Proof.
  unfold main_step.
  destruct (main s) as [| | | | | | |l|l|l| | |e] eqn:E; simpl;
    try (intros H; by apply elem_of_nil in H).
  - destruct (enumerate (args s)).
    + destruct (enumerate_devices (answering o)) as [[[]|e] world]; simpl;
        intros H; by apply elem_of_nil in H.
    + simpl. intros H. by apply elem_of_nil in H.
  - destruct (read_name (thread1 s)); simpl; intros H.
    + apply list_elem_of_singleton in H. discriminate.
    + by apply elem_of_nil in H.
  - destruct (t265_enabled s) eqn:Ef.
    + destruct (read_name (thread2 s)); simpl; intros H.
      * apply elem_of_app in H as [H | H]; [by left|].
        apply list_elem_of_singleton in H. injection H as _ ->. right.
        exact Ef.
      * by apply elem_of_nil in H.
    + simpl. by left.
  - destruct (d4xx_enabled s) eqn:Ef.
    + destruct (read_name (thread3 s)); simpl; intros H.
      * apply elem_of_app in H as [H | H]; [by left|].
        apply list_elem_of_singleton in H. injection H as _ ->. right.
        exact Ef.
      * by apply elem_of_nil in H.
    + simpl. by left.
  - destruct l as [|[h' f] l]; simpl; intros H.
    + by apply elem_of_nil in H.
    + left. by right.
  - rewrite E. simpl. intros H. by apply elem_of_nil in H.
  - rewrite E. simpl. intros H. by apply elem_of_nil in H.
Qed.

Lemma spawns_worker (w : Worker) (s : State) :
  spawns s = Some (Run w) ->
  enabled w s = true \/ exists h, (h, Run w) ∈ pending (main s).
Proof.
  unfold spawns.
  destruct (main s) as [| | | | | | |l|l|l| | |e]; simpl; try done.
  - destruct (t265_enabled s) eqn:E; [|done]. intros [= <-]. by left.
  - destruct (d4xx_enabled s) eqn:E; [|done]. intros [= <-]. by left.
  - destruct l as [|[h f] l]; [done|]. destruct (is_alive h s); [done|].
    intros [= ->]. right. exists h. by left.
Qed.

Lemma retired_step (w : Worker) (s : State) (i : Input) :
  retired w s -> retired w (step s i).
Proof.
  intros [Hf Hp]. split; [by apply step_keeps_disabled|].
  intros h Hin. destruct i as [o | tid o | tid]; simpl in Hin.
  - apply pending_main_step in Hin as [Hin | Hin]; [by apply (Hp h)|].
    congruence.
  - rewrite pending_thread_step in Hin. by apply (Hp h).
  - destruct (thread_fail_frame tid s) as (_ & _ & _ & Em & _).
    rewrite Em in Hin. by apply (Hp h).
Qed.

Lemma retired_run (w : Worker) (ins : list Input) (s : State) :
  retired w s -> retired w (run s ins).
Proof.
  revert s. induction ins as [|i ins IH]; intros s H; [done|].
  rewrite run_cons. apply IH. by apply retired_step.
Qed.

Lemma retired_no_new_thread (w : Worker) (s : State) (i : Input) (tid : nat)
  (th : Thread) :
  retired w s ->
  pool (step s i) !! tid = Some th -> target th = Run w ->
  exists th', pool s !! tid = Some th' /\ target th' = Run w.
Proof.
  intros [Hf Hp] Hl Ht. destruct i as [o | t o | t]; simpl in Hl;
    [| |apply pool_thread_fail_inv in Hl as [Hl | (_ & -> & _)];
        [eauto | done]].
  - rewrite pool_main_step in Hl.
    apply lookup_app_Some in Hl as [Hl | [_ Hl]]; [eauto|].
    destruct (spawns s) as [f|] eqn:Es; [|done].
    apply list_lookup_singleton_Some in Hl as [_ <-]. simpl in Ht. subst f.
    apply spawns_worker in Es as [Es | [h Es]]; [congruence|].
    by destruct (Hp h).
  - rewrite pool_thread_step in Hl. case_decide; [|eauto]. subst t.
    destruct (pool s !! tid) as [th'|]; [|done]. simpl in Hl.
    injection Hl as <-. eauto.
Qed.

(** X9. Once a worker is disabled and the monitoring loop holds no pair
    for it, no thread is ever started for it again: in every later state
    each thread that runs the worker already existed. *)
Theorem disabled_worker_is_never_restarted (w : Worker) (s : State)
  (ins : list Input) (tid : nat) (th : Thread) :
  enabled w s = false ->
  (forall h, (h, Run w) ∉ pending (main s)) ->
  pool (run s ins) !! tid = Some th -> target th = Run w ->
  exists th', pool s !! tid = Some th' /\ target th' = Run w.
Proof.
  intros Hf Hp. assert (Hr : retired w s) by done. clear Hf Hp.
  revert tid th. induction ins as [|i ins IH] using rev_ind;
    intros tid th Hl Ht; [eauto|].
  rewrite run_app in Hl. simpl in Hl.
  destruct (retired_no_new_thread w (run s ins) i tid th) as (th' & Hl' & Ht');
    eauto using retired_run.
Qed.

Lemma disabled_worker_is_never_restarted_witness :
  enabled T265 (step (run (init no_flags) probe_schedule)
                     (RunThread 2 nothing_attached)) = false
  /\ (forall h, (h, Run T265) ∉
        pending (main (step (run (init no_flags) probe_schedule)
                            (RunThread 2 nothing_attached))))
  /\ pool (run (step (run (init no_flags) probe_schedule)
                     (RunThread 2 nothing_attached))
               (one_cycle ++ one_cycle)) !! 2
     = Some {| target := Run T265; pc := Finished |}
  /\ exists th', pool (step (run (init no_flags) probe_schedule)
                            (RunThread 2 nothing_attached)) !! 2 = Some th'
                 /\ target th' = Run T265.
Proof.
  assert (H : forall h, (h, Run T265) ∉
        pending (main (step (run (init no_flags) probe_schedule)
                            (RunThread 2 nothing_attached)))).
  { intros h Hin. by apply elem_of_nil in Hin. }
  split; [reflexivity|]. split; [exact H|]. split; [reflexivity|].
  exact (disabled_worker_is_never_restarted T265
           (step (run (init no_flags) probe_schedule)
                 (RunThread 2 nothing_attached))
           (one_cycle ++ one_cycle) 2
           {| target := Run T265; pc := Finished |} eq_refl H eq_refl eq_refl).
Defined.

(** X10. In supervision mode, as long as the thread that [thread1] names
    is alive it is the only thread that runs the relay: a second run of
    the relay can only appear after that first thread has ended. *)
Theorem relay_single_while_first_alive (a : Args) (ins : list Input)
  (h tid : nat) (th : Thread) :
  enumerate a = false ->
  let s := run (init a) ins in
  thread1 s = Some h -> is_alive h s = true ->
  pool s !! tid = Some th -> target th = Mavproxy ->
  tid = h.
Proof.
  intros Ha s H1 Halive Hl Ht.
  assert (Hinv : relay_inv s).
  { apply relay_inv_run. by apply relay_inv_init. }
  destruct (relay_others s Hinv tid th Hl Ht) as (h' & H1' & [-> | Hd]);
    congruence.
Qed.

Lemma relay_single_while_first_alive_witness :
  enumerate no_flags = false
  /\ thread1 (run (init no_flags) probe_schedule) = Some 1
  /\ is_alive 1 (run (init no_flags) probe_schedule) = true
  /\ pool (run (init no_flags) probe_schedule) !! 1
     = Some {| target := Mavproxy; pc := Entry |}
  /\ 1 = 1.
Proof.
  split; [reflexivity|]. split; [reflexivity|]. split; [reflexivity|].
  split; [reflexivity|].
  exact (relay_single_while_first_alive no_flags probe_schedule 1 1
           {| target := Mavproxy; pc := Entry |}
           eq_refl eq_refl eq_refl eq_refl eq_refl).
Defined.


(** ** More on the relay's runs *)

Lemma by_thread_self (tid : nat) (evs : list Event) :
  by_thread tid (map (pair (Th tid)) evs) = evs.
Proof.
  unfold by_thread. induction evs as [|e evs IH]; [done|].
  cbn [map List.filter fst]. rewrite bool_decide_eq_true_2 by done.
  simpl. by rewrite IH.
Qed.

Lemma by_thread_none (tid : nat) (l : list (Actor * Event)) :
  (forall e, (Th tid, e) ∉ l) -> by_thread tid l = [].
Proof.
  unfold by_thread. induction l as [|[who e] l IH]; [done|]. intros H.
  cbn [List.filter fst]. destruct (decide (who = Th tid)) as [-> | Hne].
  - destruct (H e). by left.
  - rewrite bool_decide_eq_false_2 by done. apply IH.
    intros e' Hin. apply (H e'). by right.
Qed.

Lemma relay_history_move (p : Pc) (o : Outcome) (evs : list Event) :
  relay_history p evs ->
  relay_history (next (mavproxy_create_connection p o))
                (evs ++ emits (mavproxy_create_connection p o)).
Proof.
  unfold mavproxy_create_connection. destruct p; simpl; try done.
  - by intros ->.
  - intros ->. unfold completed, check_returncode.
    destruct o as [status out|status|]; simpl; [| |by left];
      (destruct (status =? 0)%Z eqn:E; simpl; [by left|];
       right; exists status; split; [|done]; by apply Z.eqb_neq).
  - by rewrite app_nil_r.
Qed.

Lemma history_inv_init (a : Args) : history_inv (init a).
Proof.
  split; simpl.
  - intros tid e H. by apply elem_of_nil in H.
  - done.
Qed.

Lemma history_inv_step (s : State) (i : Input) :
  history_inv s -> history_inv (step s i).
Proof.
  intros [Hk Hr]. destruct i as [o | t o | t]; simpl.
  3: { destruct (thread_fail_frame t s) as (_&_&_&_& Et &_&_&_&_& El).
       split.
       - intros tid e. rewrite Et, El. apply Hk.
       - intros tid th Hl Htar. unfold events_of. rewrite Et.
         apply pool_thread_fail_inv in Hl as [Hl | (_ & -> & _)];
           [by apply Hr | done]. }
  - destruct (trace_main_step o s) as [evs Ht]. split.
    + intros tid e. rewrite Ht, pool_main_step, length_app. intros H.
      apply elem_of_trace_main in H. apply Hk in H. lia.
    + intros tid th. unfold events_of.
      rewrite Ht, by_thread_app, by_thread_other, app_nil_r by done.
      rewrite pool_main_step. intros Hl Htar.
      apply lookup_app_Some in Hl as [Hl | [Hle Hl]]; [by apply Hr|].
      destruct (spawns s); [|done].
      apply list_lookup_singleton_Some in Hl as [Hi <-]. simpl.
      apply by_thread_none. intros e He. apply Hk in He. lia.
  - split.
    + intros tid e. rewrite trace_thread_step, length_pool_thread_step.
      intros H. apply elem_of_trace_thread in H as [H | [-> H]]; [eauto|].
      destruct (pool s !! t) eqn:E; [|by apply elem_of_nil in H].
      by apply lookup_lt_Some in E.
    + intros tid th. unfold events_of.
      rewrite trace_thread_step, by_thread_app, pool_thread_step.
      case_decide as Hd.
      * subst t. destruct (pool s !! tid) as [[f p]|] eqn:E; [|done].
        simpl. intros [= <-]. simpl. intros ->.
        rewrite by_thread_self. unfold thread_move. simpl.
        apply relay_history_move. by apply (Hr tid _ E).
      * rewrite by_thread_other, app_nil_r by congruence. apply Hr.
Qed.

Lemma history_inv_run (ins : list Input) (s : State) :
  history_inv s -> history_inv (run s ins).
Proof.
  revert s. induction ins as [|i ins IH]; intros s H; [done|].
  rewrite run_cons. apply IH. by apply history_inv_step.
Qed.

Lemma relay_ends (o : Outcome) :
  next (mavproxy_create_connection InCommand o) = Finished
  /\ emits (mavproxy_create_connection InCommand o) = relay_error o.
Proof.
  unfold mavproxy_create_connection, relay_error, completed, check_returncode.
  destruct o as [status out|status|]; simpl; [| |done];
    by destruct (status =? 0)%Z.
Qed.

(** X12. In every state of every execution, each run of the relay has
    launched [mavproxy.py] at most once: it has emitted nothing before
    its launch and the launch alone while the command runs. Whatever
    answer ends the command ends the run, and what the run has emitted
    is then, and in every later state, the launch followed by the error
    record of that answer: one record, carrying the status, exactly when
    the command exited with a status other than zero, and nothing when it
    exited with status zero or could not be executed. *)
Theorem relay_run_launches_once (a : Args) (ins : list Input) (tid : nat)
  (th : Thread) :
  let s := run (init a) ins in
  pool s !! tid = Some th -> target th = Mavproxy ->
  relay_history (pc th) (events_of tid s)
  /\ (pc th = InCommand -> forall o later,
        let s' := step s (RunThread tid o) in
        pool s' !! tid = Some {| target := Mavproxy; pc := Finished |}
        /\ events_of tid s' = Invoke mavproxy_command true :: relay_error o
        /\ pool (run s' later) !! tid
           = Some {| target := Mavproxy; pc := Finished |}
        /\ events_of tid (run s' later)
           = Invoke mavproxy_command true :: relay_error o).
Proof.
  intros s Hl Ht.
  assert (Hh : relay_history (pc th) (events_of tid s)).
  { apply (history_relay s); [|done..].
    apply history_inv_run, history_inv_init. }
  split; [done|]. intros Hpc o later s'.
  destruct th as [f p]. simpl in Ht, Hpc, Hh. subst f p. simpl in Hh.
  destruct (relay_ends o) as [Hn He].
  assert (Hl' : pool s' !! tid = Some {| target := Mavproxy; pc := Finished |}).
  { unfold s'. cbn [step].
    rewrite pool_thread_step, decide_True, Hl by done.
    unfold thread_move. cbn [fmap option_fmap option_map target pc].
    by rewrite Hn. }
  assert (He' : events_of tid s' = Invoke mavproxy_command true :: relay_error o).
  { unfold s', events_of. cbn [step].
    rewrite trace_thread_step, by_thread_app, by_thread_self, Hl.
    unfold thread_move. cbn [target pc]. rewrite He.
    unfold events_of in Hh. by rewrite Hh. }
  destruct (finished_run later tid Mavproxy s' Hl') as [H1 H2].
  split; [done|]. split; [done|]. split; [done|]. congruence.
Qed.

Lemma relay_run_launches_once_witness :
  let s := run (init no_flags)
               (repeat (RunMain clean_exit) 6 ++ [RunThread 1 clean_exit]) in
  pool s !! 1 = Some {| target := Mavproxy; pc := InCommand |}
  /\ events_of 1 (run (step s (RunThread 1 failed_exit)) one_cycle)
     = [Invoke mavproxy_command true;
        Log ERROR (text "mavproxy error: %s")
            (Some (CalledProcessError 1 mavproxy_command))].
Proof.
  intros s. split; [reflexivity|].
  exact (proj2 (proj2 (proj2 (proj2
    (relay_run_launches_once no_flags
       (repeat (RunMain clean_exit) 6 ++ [RunThread 1 clean_exit]) 1
       {| target := Mavproxy; pc := InCommand |} eq_refl eq_refl)
    eq_refl failed_exit one_cycle)))).
Defined.

(** ** Workers disabled at startup *)

Lemma flagged_inv_init (w : Worker) (a : Args) :
  sik_only a = true \/ disable_flag w a = true -> flagged_inv w (init a).
Proof.
  intros H. split; simpl; try done.
  - by right.
  - intros h Hin. by apply elem_of_nil in Hin.
Qed.

Lemma idle_main_step (w : Worker) (o : Outcome) (s : State) :
  sik_only (args s) = true \/ disable_flag w (args s) = true ->
  idle (main s) = true ->
  (enabled w (main_step o s) = false \/ idle (main (main_step o s)) = true)
  /\ pending (main (main_step o s)) = []
  /\ spawns s = None.
Proof.
  intros Ha Hi. unfold main_step, spawns.
  destruct (main s) as [| | | | | | |l|l|l| | |e] eqn:E; try done.
  - destruct (enumerate (args s)).
    + by destruct (enumerate_devices (answering o)) as [[[]|e] world]; auto.
    + split; [|done]. left. rewrite enabled_goto. unfold handle_flags.
      destruct Ha as [-> | Ha]; [by destruct w|].
      destruct (sik_only (args s)); [by destruct w|].
      destruct w; simpl in *; rewrite ?Ha; simpl.
      * by destruct (disable_d4xx (args s)).
      * by destruct (disable_t265 (args s)); simpl; rewrite Ha.
  - rewrite E. auto.
  - rewrite E. auto.
Qed.

Lemma flagged_inv_step (w : Worker) (s : State) (i : Input) :
  flagged_inv w s -> flagged_inv w (step s i).
Proof.
  intros [Ha Hf Hp Hpool]. destruct i as [o | t o | t]; simpl.
  3: { destruct (thread_fail_frame t s) as (Ea & _ & _ & Em & _).
       split; rewrite ?Ea, ?Em, ?enabled_thread_fail; try done.
       intros tid th Hl. apply pool_thread_fail_inv in Hl
         as [Hl | (_ & -> & _)]; [eauto | done]. }
  - assert (Hcase : retired w s \/ idle (main s) = true).
    { destruct Hf; [by left | by right]. }
    split.
    + by rewrite args_main_step.
    + destruct Hf as [Hf | Hf].
      * left. by apply main_step_keeps_disabled.
      * by apply idle_main_step.
    + destruct Hcase as [Hr | Hi].
      * apply (retired_step w s (RunMain o) Hr).
      * destruct (idle_main_step w o s Ha Hi) as (_ & -> & _).
        intros h Hin. by apply elem_of_nil in Hin.
    + intros tid th. rewrite pool_main_step. intros Hl.
      apply lookup_app_Some in Hl as [Hl | [_ Hl]]; [eauto|].
      destruct (spawns s) as [f|] eqn:Es; [|done].
      apply list_lookup_singleton_Some in Hl as [_ <-]. simpl. intros ->.
      destruct Hcase as [[Hr1 Hr2] | Hi].
      * apply spawns_worker in Es as [Es | [h Es]]; [congruence|].
        by destruct (Hr2 h).
      * destruct (idle_main_step w o s Ha Hi) as (_ & _ & Hn). congruence.
  - destruct (main_thread_step t o s) as (Hm & Hargs & _).
    split; rewrite ?Hm, ?Hargs; try done.
    + destruct Hf as [Hf | Hf]; [left | by right].
      apply (step_keeps_disabled w s (RunThread t o) Hf).
    + intros tid th. rewrite pool_thread_step. case_decide; [|eauto].
      subst t. destruct (pool s !! tid) as [th'|] eqn:E; [|done].
      simpl. intros [= <-]. simpl. eauto.
Qed.

Lemma flagged_inv_run (w : Worker) (ins : list Input) (s : State) :
  flagged_inv w s -> flagged_inv w (run s ins).
Proof.
  revert s. induction ins as [|i ins IH]; intros s H; [done|].
  rewrite run_cons. apply IH. by apply flagged_inv_step.
Qed.

(** Without a run of the worker at its probe, a step adds no launch. *)
Lemma no_probing_run_no_launch (w : Worker) (s : State) (i : Input) :
  (forall tid, pool s !! tid <> Some {| target := Run w; pc := AtProbe |}) ->
  launches w (step s i) = launches w s.
Proof.
  intros Hno. destruct i as [o | tid o | tid]; simpl;
    [| |unfold launches;
        by destruct (thread_fail_frame tid s) as (_ & _ & _ & _ & -> & _)].
  - apply launches_main_step.
  - unfold launches. rewrite trace_thread_step.
    destruct (pool s !! tid) as [[f p]|] eqn:E;
      [|by rewrite filter_launch_nil].
    unfold thread_move. simpl. destruct f as [|w'|].
    + apply launches_app, Forall_forall. intros e He.
      destruct e as [cmd check| | |]; try done.
      apply mavproxy_invokes in He as ->. apply (command_distinct w w).
    + destruct (decide (w' = w)) as [-> | Hw].
      * apply filter_launch_nil.
        destruct (List.filter (is_launch w)
                    (emits (run_worker w (enabled w s) p o))) eqn:Ef;
          [done|].
        destruct (run_worker_launch w (enabled w s) p o) as (-> & _);
          [by rewrite Ef|]. by destruct (Hno tid).
      * by apply launches_app, run_worker_other_no_launch.
    + rewrite publish_logs_thread_silent. by apply filter_launch_nil.
Qed.

(** X13. A worker disabled at startup, by sik-only or by its own disable
    flag, is never started: in every state of every execution no thread
    runs it and its command has never been launched. *)
Theorem flagged_worker_never_runs (w : Worker) (a : Args) (ins : list Input) :
  sik_only a = true \/ disable_flag w a = true ->
  let s := run (init a) ins in
  (forall tid th, pool s !! tid = Some th -> target th <> Run w)
  /\ launches w s = [].
Proof.
  intros Ha s. split.
  - apply (flagged_pool w s). by apply flagged_inv_run, flagged_inv_init.
  - unfold s. induction ins as [|i ins IH] using rev_ind; [done|].
    rewrite run_app. simpl. rewrite no_probing_run_no_launch; [done|].
    pose proof (flagged_inv_run w ins (init a) (flagged_inv_init w a Ha))
      as Hinv.
    intros tid Hl. by destruct (flagged_pool w _ Hinv tid _ Hl).
Qed.

Lemma flagged_worker_never_runs_witness :
  (sik_only only_no_t265 = true \/ disable_flag T265 only_no_t265 = true)
  /\ launches T265 (run (init only_no_t265) double_launch_schedule) = [].
Proof.
  assert (H : sik_only only_no_t265 = true
              \/ disable_flag T265 only_no_t265 = true) by (by right).
  split; [exact H|].
  exact (proj2 (flagged_worker_never_runs T265 only_no_t265
                  double_launch_schedule H)).
Defined.

(** ** More on the log follower *)

Lemma take_line_plain (a : str) :
  LF ∉ a -> CR ∉ a -> take_line a = (a, length a).
Proof.
  induction a as [|c a IH]; [done|]. intros H H'. simpl.
  destruct (c =? LF)%N eqn:E.
  { apply N.eqb_eq in E. subst c. destruct H. by left. }
  destruct (c =? CR)%N eqn:E'.
  { apply N.eqb_eq in E'. subst c. destruct H'. by left. }
  rewrite IH; [done| |]; intros Hin; [apply H | apply H']; by right.
Qed.

Lemma take_line_LF (a rest : str) :
  LF ∉ a -> CR ∉ a ->
  take_line (a ++ LF :: rest) = (a ++ [LF], S (length a)).
Proof.
  induction a as [|c a IH]; [done|]. intros H H'. simpl.
  destruct (c =? LF)%N eqn:E.
  { apply N.eqb_eq in E. subst c. destruct H. by left. }
  destruct (c =? CR)%N eqn:E'.
  { apply N.eqb_eq in E'. subst c. destruct H'. by left. }
  rewrite IH; [done| |]; intros Hin; [apply H | apply H']; by right.
Qed.

(** The follower at the end of the file, after [chunk] is appended. *)
Lemma publish_logs_after_append (t : Tail) (chunk : str) :
  over t = false ->
  position t = Some (length (logfile t)) -> chunk <> [] ->
  publish_logs (append_log chunk t) =
  {| logfile := logfile t ++ chunk;
     position := Some (length (logfile t) + (take_line chunk).2);
     console := console t ++ [Print (strip (take_line chunk).1)];
     over := false |}.
Proof.
  intros Ho Hp Hc. unfold publish_logs, append_log, readline. simpl.
  rewrite Ho, Hp, drop_app_length.
  pose proof (take_line_nil chunk) as Hnil.
  destruct (take_line chunk) as [[|c l] read]; simpl in *; [|done].
  by destruct Hc; apply Hnil.
Qed.

(** X14. [publish_logs] does not wait for the end of a line: if a record
    reaches the file in two writes and the follower reads in between, the
    record is printed as two lines, while the same text appended at once
    is printed as one. *)
Theorem publish_logs_splits_partial_line (t : Tail) (a b : str) :
  over t = false ->
  position t = Some (length (logfile t)) ->
  a <> [] -> LF ∉ a -> CR ∉ a -> LF ∉ b -> CR ∉ b ->
  console (tail_run t [Append a; Follow; Append (b ++ [LF]); Follow])
    = console t ++ [Print (strip a); Print (strip (b ++ [LF]))]
  /\ console (tail_run t [Append (a ++ b ++ [LF]); Follow])
    = console t ++ [Print (strip (a ++ b ++ [LF]))].
Proof.
  intros Ho Hp Ha Hna Hca Hnb Hcb. split.
  - cbn [tail_run fold_left tail_step].
    rewrite (publish_logs_after_append t a) by done.
    rewrite take_line_plain by done.
    rewrite publish_logs_after_append.
    + simpl. rewrite (take_line_LF b []) by done.
      by rewrite <- app_assoc.
    + done.
    + simpl. by rewrite length_app.
    + by destruct b.
  - cbn [tail_run fold_left tail_step].
    rewrite publish_logs_after_append by (by destruct a).
    simpl. rewrite app_assoc, (take_line_LF (a ++ b) []); [done| |];
      intros Hin; apply elem_of_app in Hin as [Hin | Hin]; done.
Qed.

Lemma publish_logs_splits_partial_line_witness :
  over (publish_logs {| logfile := tail_history; position := None;
                        console := []; over := false |}) = false
  /\ position (publish_logs {| logfile := tail_history; position := None;
                               console := []; over := false |})
    = Some (length (logfile (publish_logs
                {| logfile := tail_history; position := None;
                   console := []; over := false |})))
  /\ text "2026 - root - " <> [] /\ (LF ∉ text "2026 - root - ")
  /\ (CR ∉ text "2026 - root - ")
  /\ (LF ∉ text "ERROR - mavproxy error")
  /\ (CR ∉ text "ERROR - mavproxy error")
  /\ console (tail_run (publish_logs {| logfile := tail_history;
                                        position := None; console := [];
                                        over := false |})
                [Append (text "2026 - root - "); Follow;
                 Append (text "ERROR - mavproxy error" ++ [LF]); Follow])
     = [] ++ [Print (strip (text "2026 - root - "));
              Print (strip (text "ERROR - mavproxy error" ++ [LF]))].
Proof.
  assert (H1 : (LF ∉ text "2026 - root - ")).
  { apply (bool_decide_unpack _). by vm_compute. }
  assert (H2 : (LF ∉ text "ERROR - mavproxy error")).
  { apply (bool_decide_unpack _). by vm_compute. }
  assert (H3 : (CR ∉ text "2026 - root - ")).
  { apply (bool_decide_unpack _). by vm_compute. }
  assert (H4 : (CR ∉ text "ERROR - mavproxy error")).
  { apply (bool_decide_unpack _). by vm_compute. }
  split; [reflexivity|]. split; [reflexivity|]. split; [discriminate|].
  split; [exact H1|]. split; [exact H3|]. split; [exact H2|].
  split; [exact H4|].
  exact (proj1 (publish_logs_splits_partial_line
                  (publish_logs {| logfile := tail_history; position := None;
                                   console := []; over := false |})
                  (text "2026 - root - ") (text "ERROR - mavproxy error")
                  eq_refl eq_refl ltac:(discriminate) H1 H3 H2 H4)).
Defined.

(** ** The log follower's thread *)

Lemma log_thread_main_step (o : Outcome) (s : State) :
  log_thread (main_step o s) =
  match main s with
  | MStartLog => Some (length (pool s))
  | _ => log_thread s
  end.
Proof. unfold main_step, handle_flags. by repeat case_match. Qed.

Lemma follower_pending_main_step (o : Outcome) (s : State) (h : nat) :
  (h, PublishLogs) ∈ pending (main (main_step o s)) ->
  (h, PublishLogs) ∈ pending (main s).
Proof.
  unfold main_step.
  destruct (main s) as [| | | | | | |l|l|l| | |e] eqn:E; simpl;
    try (intros H; by apply elem_of_nil in H).
  - destruct (enumerate (args s)).
    + destruct (enumerate_devices (answering o)) as [[[]|e] world]; simpl;
        intros H; by apply elem_of_nil in H.
    + simpl. intros H. by apply elem_of_nil in H.
  - destruct (read_name (thread1 s)); simpl; intros H.
    + apply list_elem_of_singleton in H. discriminate.
    + by apply elem_of_nil in H.
  - destruct (t265_enabled s); [|done].
    destruct (read_name (thread2 s)); simpl; intros H.
    + apply elem_of_app in H as [H | H]; [done|].
      apply list_elem_of_singleton in H. discriminate.
    + by apply elem_of_nil in H.
  - destruct (d4xx_enabled s); [|done].
    destruct (read_name (thread3 s)); simpl; intros H.
    + apply elem_of_app in H as [H | H]; [done|].
      apply list_elem_of_singleton in H. discriminate.
    + by apply elem_of_nil in H.
  - destruct l as [|[h' f] l]; simpl; intros H.
    + by apply elem_of_nil in H.
    + by right.
  - rewrite E. simpl. intros H. by apply elem_of_nil in H.
  - rewrite E. simpl. intros H. by apply elem_of_nil in H.
Qed.

Lemma spawns_follower (s : State) :
  spawns s = Some PublishLogs ->
  main s = MStartLog \/ exists h, (h, PublishLogs) ∈ pending (main s).
Proof.
  unfold spawns.
  destruct (main s) as [| | | | | | |l|l|l| | |e]; simpl; try done.
  - by left.
  - by destruct (t265_enabled s).
  - by destruct (d4xx_enabled s).
  - destruct l as [|[h f] l]; [done|]. destruct (is_alive h s); [done|].
    intros [= ->]. right. exists h. by left.
Qed.

Lemma follower_inv_init (a : Args) :
  enumerate a = false -> follower_inv (init a).
Proof.
  intros H. split; simpl; try done; try lia.
  intros h Hin. by apply elem_of_nil in Hin.
Qed.

Lemma follower_inv_step (s : State) (i : Input) :
  follower_inv s -> follower_inv (step s i).
Proof.
  intros [Hnone Hone Hpend Hmode].
  assert (Hkeep : (forall o, i <> RunMain o) ->
            (forall tid th, pool (step s i) !! tid = Some th ->
               exists th', pool s !! tid = Some th' /\ target th' = target th)
            -> follower_inv (step s i)).
  { intros Hi Hlook.
    assert (Hlog : log_thread (step s i) = log_thread s).
    { destruct i as [o | t o | t]; simpl.
      - by destruct (Hi o).
      - unfold thread_step. by destruct (pool s !! t).
      - by destruct (thread_fail_frame t s) as (_&_&_&_&_&_&_&_& -> & _). }
    split; rewrite ?main_step_other, ?args_step, ?Hlog by done; try done.
    - intros Hr tid th Hl. destruct (Hlook _ _ Hl) as (th' & Hl' & <-).
      by apply (Hnone Hr tid).
    - intros Hr. destruct (Hone Hr) as (h & th & Hl1 & Hl & Ht & Huniq).
      destruct (target_step s i h th Hl) as (th' & Hl' & Ht').
      exists h, th'. split; [done|]. split; [done|]. split; [congruence|].
      intros tid th2 Hl2 Ht2. destruct (Hlook _ _ Hl2) as (th3 & Hl3 & Heq).
      apply (Huniq tid th3 Hl3). congruence. }
  destruct i as [o | t o | t].
  - simpl. pose proof (rank_main_step o s Hmode) as Hrank. split.
    + intros Hr tid th. rewrite pool_main_step. intros Hl.
      apply lookup_app_Some in Hl as [Hl | [_ Hl]];
        [apply (Hnone ltac:(lia) tid th Hl)|].
      destruct (spawns s) as [f|] eqn:Es; [|done].
      apply list_lookup_singleton_Some in Hl as [_ <-]. simpl. intros ->.
      apply spawns_follower in Es as [Es | [h Es]].
      * rewrite Es in Hrank. simpl in Hrank. lia.
      * by destruct (Hpend h).
    + intros Hr. rewrite log_thread_main_step, pool_main_step.
      destruct (decide (2 <= rank (main s))) as [Hold | Hold].
      * destruct (Hone Hold) as (h & th & Hlog & Hl & Ht & Huniq).
        exists h, th. split.
        { destruct (main s); simpl in Hold; try done; lia. }
        split; [by apply lookup_app_l_Some|]. split; [done|].
        intros tid th' Hl' Ht'.
        apply lookup_app_Some in Hl' as [Hl' | [_ Hl']]; [eauto|].
        destruct (spawns s) as [f|] eqn:Es; [|done].
        apply list_lookup_singleton_Some in Hl' as [_ <-]. simpl in Ht'.
        subst f. apply spawns_follower in Es as [Es | [h' Es]].
        -- rewrite Es in Hold. simpl in Hold. lia.
        -- by destruct (Hpend h').
      * assert (Hm : main s = MStartLog).
        { destruct (main s); simpl in Hold, Hrank; try done; lia. }
        unfold spawns. rewrite Hm.
        exists (length (pool s)), {| target := PublishLogs; pc := Entry |}.
        split; [done|]. split.
        { by rewrite lookup_app_r, Nat.sub_diag. }
        split; [done|]. intros tid th' Hl' Ht'.
        apply lookup_app_Some in Hl' as [Hl' | [Hle Hl']].
        -- rewrite Hm in Hnone. by destruct (Hnone ltac:(simpl; lia) tid th' Hl').
        -- apply list_lookup_singleton_Some in Hl' as [Hi _]. lia.
    + intros h Hin. apply follower_pending_main_step in Hin. by apply (Hpend h).
    + by rewrite args_main_step.
  - apply Hkeep; [done|]. intros tid th. simpl. rewrite pool_thread_step.
    case_decide; [|eauto]. subst t.
    destruct (pool s !! tid) as [th'|]; [|done]. simpl. intros [= <-]. eauto.
  - apply Hkeep; [done|]. intros tid th Hl. simpl in Hl.
    apply pool_thread_fail_inv in Hl as [Hl | (_ & -> & p & Hl)]; eauto.
Qed.

Lemma follower_inv_run (ins : list Input) (s : State) :
  follower_inv s -> follower_inv (run s ins).
Proof.
  revert s. induction ins as [|i ins IH]; intros s H; [done|].
  rewrite run_cons. apply IH. by apply follower_inv_step.
Qed.

Lemma filter_none {A} (f : A -> bool) (l : list A) :
  (forall x, f x = false) -> List.filter f l = [].
Proof.
  intros H. induction l as [|x l IH]; [done|]. simpl. by rewrite H.
Qed.

(** X15. In supervision mode the log follower is started exactly once,
    by the second statement of the main thread: that statement creates a
    thread of [publish_logs], alive at its entry, and binds it to
    [log_thread]; before it no thread runs [publish_logs], and in every
    later state that thread is the only one that does, whatever the
    monitoring loop restarts. The follower is not supervised: once its
    thread has ended, no thread follows the log file for the rest of the
    execution. *)
Theorem log_follower_started_once (a : Args) (ins : list Input) :
  enumerate a = false ->
  let s := run (init a) ins in
  (main_steps ins < 2 ->
   forall tid th, pool s !! tid = Some th -> target th <> PublishLogs)
  /\ (2 <= main_steps ins ->
      exists before o after,
        ins = before ++ RunMain o :: after /\ main_steps before = 1
        /\ pool (step (run (init a) before) (RunMain o))
             !! length (pool (run (init a) before))
           = Some {| target := PublishLogs; pc := Entry |}
        /\ is_alive (length (pool (run (init a) before)))
                    (step (run (init a) before) (RunMain o)) = true
        /\ log_thread s = Some (length (pool (run (init a) before)))
        /\ (forall tid th, pool s !! tid = Some th ->
              target th = PublishLogs ->
              tid = length (pool (run (init a) before)))
        /\ (is_alive (length (pool (run (init a) before))) s = false ->
            forall later, live_runs PublishLogs (run s later) = [])).
Proof.
  intros Ha s.
  assert (Hinv : forall l, follower_inv (run (init a) l)).
  { intros l. apply follower_inv_run. by apply follower_inv_init. }
  split.
  - intros Hlt. apply (follower_none s (Hinv ins)).
    unfold s. rewrite rank_run by done. lia.
  - intros Hsteps.
    destruct (startup_statement a ins 1 Ha ltac:(lia) ltac:(lia))
      as (before & o & after & Hins & Hb & Hrank).
    set (sb := run (init a) before) in *.
    exists before, o, after. split; [done|]. split; [done|].
    assert (Hm : main sb = MStartLog).
    { destruct (main sb); simpl in Hrank; try done; lia. }
    destruct (spawns_alive o sb PublishLogs) as [Hnew Halive].
    { unfold spawns. by rewrite Hm. }
    split; [done|]. split; [done|].
    assert (Hs : s = run (step sb (RunMain o)) after).
    { unfold s, sb. by rewrite Hins, run_app. }
    assert (Hlog : log_thread s = Some (length (pool sb))).
    { rewrite Hs. destruct (names_run after (step sb (RunMain o))) as (-> & _).
      - simpl. by rewrite log_thread_main_step, Hm.
      - simpl. rewrite rank_main_step, Hm by (unfold sb; by rewrite args_run).
        simpl. lia. }
    assert (Huniq : forall l tid th,
              pool (run s l) !! tid = Some th ->
              target th = PublishLogs -> tid = length (pool sb)).
    { intros l tid th Hl Ht.
      assert (Hr : 2 <= rank (main (run s l))).
      { pose proof (rank_run_le l s). unfold s in *.
        rewrite rank_run in * by done. lia. }
      unfold s in *. rewrite <- run_app in *.
      destruct (follower_one _ (Hinv (ins ++ l)) Hr)
        as (h & th' & Hlog' & _ & _ & Hu).
      rewrite run_app in Hlog'.
      destruct (names_run l (run (init a) ins)) as (Hn & _).
      rewrite Hn in Hlog' by (rewrite rank_run by done; lia).
      rewrite (Hu tid th Hl Ht). congruence. }
    split; [done|]. split; [apply (Huniq [])|].
    intros Hdead later. unfold live_runs. apply filter_none. intros tid.
    unfold is_live_run.
    destruct (pool (run s later) !! tid) as [th|] eqn:El; [|done].
    destruct (decide (target th = PublishLogs)) as [Ht | Ht];
      [|by rewrite bool_decide_eq_false_2].
    pose proof (Huniq later tid th El Ht) as Etid. subst tid.
    destruct (follower_one s (Hinv ins)) as (h & th0 & Hlog0 & Hl0 & Ht0 & _).
    { unfold s. rewrite rank_run by done. lia. }
    assert (h = length (pool sb)) by congruence. subst h.
    assert (Hfin : pool s !! length (pool sb)
                   = Some {| target := PublishLogs; pc := Finished |}).
    { fold sb in Hdead. unfold is_alive in Hdead. rewrite Hl0 in Hdead.
      rewrite Hl0.
      destruct th0 as [f p]. simpl in *. subst f. by destruct p. }
    destruct (finished_run later _ _ s Hfin) as [Hfin' _].
    unfold is_alive. rewrite Hfin'. simpl. apply andb_false_r.
Qed.

Lemma log_follower_started_once_witness :
  let ins := repeat (RunMain clean_exit) 6 ++ [RunThread 0 clean_exit;
                                               FailThread 0] in
  enumerate no_flags = false
  /\ 2 <= main_steps ins
  /\ is_alive 0 (run (init no_flags) ins) = false
  /\ exists before o after,
       ins = before ++ RunMain o :: after /\ main_steps before = 1
       /\ log_thread (run (init no_flags) ins)
          = Some (length (pool (run (init no_flags) before))).
Proof.
  intros ins.
  assert (H : 2 <= main_steps ins) by (vm_compute; lia).
  split; [reflexivity|]. split; [exact H|]. split; [reflexivity|].
  destruct (proj2 (log_follower_started_once no_flags ins eq_refl) H)
    as (before & o & after & H1 & H2 & _ & _ & H3 & _).
  exact (ex_intro _ before (ex_intro _ o (ex_intro _ after
           (conj H1 (conj H2 H3))))).
Defined.

(** ** Workers enabled at startup *)

Lemma startup_inv_init (w : Worker) (a : Args) :
  enumerate a = false -> sik_only a = false -> disable_flag w a = false ->
  startup_inv w (init a).
Proof.
  intros H1 H2 H3. split; simpl; try done.
  - intros _. split; [by destruct w | done].
  - destruct w; simpl; lia.
Qed.

Lemma handle_main_step (w : Worker) (o : Outcome) (s : State) :
  start_rank w < rank (main s) ->
  handle_of w (main_step o s) = handle_of w s.
Proof.
  intros H. unfold main_step, handle_flags.
  destruct (main s); destruct w; simpl in H; try lia;
    repeat case_match; done.
Qed.

Lemma startup_inv_step (w : Worker) (s : State) (i : Input) :
  startup_inv w s -> startup_inv w (step s i).
Proof.
  intros [(Ha1 & Ha2 & Ha3) Hb Haft]. destruct i as [o | t o | t]; simpl.
  3: { destruct (thread_fail_frame t s)
         as (Ea & _ & _ & Em & _ & _ & E2 & E3 & _).
       assert (Hh : handle_of w (thread_fail t s) = handle_of w s).
       { by destruct w. }
       split; rewrite ?Ea, ?Em, ?Hh, ?enabled_thread_fail; try done.
       - intros Hr. destruct (Hb Hr) as [Hen Hno]. split; [done|].
         intros tid th Hl. apply pool_thread_fail_inv in Hl
           as [Hl | (_ & -> & _)]; [eauto | done].
       - intros Hr. destruct (Haft Hr) as (h & th & Hh' & Hl & Ht).
         exists h, th. split; [done|]. split; [|done].
         rewrite pool_thread_fail. case_decide; [|done]. subst t.
         rewrite Hl. simpl. by rewrite Ht. }
  - pose proof (rank_main_step o s Ha1) as Hrank.
    assert (Hs : start_rank w <= 5) by (destruct w; simpl; lia).
    split.
    + by rewrite args_main_step.
    + intros Hr. destruct (Hb ltac:(lia)) as [Hen Hno]. split.
      * destruct (main s) eqn:E;
          try (rewrite enabled_main_step_other by (by rewrite E); done).
        unfold main_step. rewrite E, Ha1, enabled_goto. unfold handle_flags.
        rewrite Ha2. destruct w; simpl in *.
        -- rewrite Ha3. by destruct (disable_d4xx (args s)).
        -- destruct (disable_t265 (args s)); simpl; by rewrite Ha3.
      * intros tid th. rewrite pool_main_step. intros Hl.
        apply lookup_app_Some in Hl as [Hl | [_ Hl]]; [eauto|].
        destruct (spawns s) as [f|] eqn:Es; [|done].
        apply list_lookup_singleton_Some in Hl as [_ <-]. simpl. intros ->.
        unfold spawns in Es.
        destruct (main s); destruct w; simpl in *; try done; try lia.
        by destruct (t265_enabled s).
    + intros Hr. destruct (decide (start_rank w < rank (main s))) as [Ho | Ho].
      * destruct (Haft Ho) as (h & th & Hh & Hl & Ht). exists h, th.
        rewrite handle_main_step, pool_main_step by done.
        split; [done|]. split; [|done]. by apply lookup_app_l_Some.
      * destruct (Hb ltac:(lia)) as [Hen Hno].
        exists (length (pool s)), {| target := Run w; pc := Entry |}.
        rewrite pool_main_step. unfold main_step, spawns.
        destruct (main s); destruct w; simpl in *; try lia;
          rewrite Hen; simpl; by rewrite lookup_app_r, Nat.sub_diag.
  - destruct (main_thread_step t o s) as (Hm & Hargs & _ & H2 & H3).
    assert (Hh : handle_of w (thread_step t o s) = handle_of w s).
    { by destruct w. }
    assert (Hlook : forall tid th, pool (thread_step t o s) !! tid = Some th ->
              exists th', pool s !! tid = Some th' /\ target th' = target th).
    { intros tid th. rewrite pool_thread_step. case_decide; [|eauto].
      subst t. destruct (pool s !! tid) as [th'|]; [|done]. simpl.
      intros [= <-]. eauto. }
    split; rewrite ?Hm, ?Hargs, ?Hh; try done.
    + intros Hr. destruct (Hb Hr) as [Hen Hno]. split.
      * rewrite enabled_thread_step.
        destruct (pool s !! t) as [th|] eqn:E; [|done].
        unfold cleared. rewrite bool_decide_eq_false_2, andb_false_r; [done|].
        by apply (Hno t).
      * intros tid th Hl. destruct (Hlook _ _ Hl) as (th' & Hl' & <-).
        by apply (Hno tid).
    + intros Hr. destruct (Haft Hr) as (h & th & Hh' & Hl & Ht).
      exists h. rewrite pool_thread_step. case_decide.
      * subst t. rewrite Hl. simpl. eauto.
      * eauto.
Qed.

Lemma startup_inv_run (w : Worker) (ins : list Input) (s : State) :
  startup_inv w s -> startup_inv w (run s ins).
Proof.
  revert s. induction ins as [|i ins IH]; intros s H; [done|].
  rewrite run_cons. apply IH. by apply startup_inv_step.
Qed.

(** X16. In supervision mode a worker that no startup flag disables is
    started, whatever the other threads do meanwhile. Before the main
    thread has executed the statement that starts it (lines 150-152 for
    the T265, lines 154-156 for the D4XX) the worker is enabled and has no
    thread. That statement creates a thread whose target is the worker's
    run loop, alive at its entry, and binds it to [thread2] (for the
    T265) or [thread3] (for the D4XX); in every later state the name
    still holds that thread and it is a thread of the worker. *)
Theorem enabled_worker_is_started (w : Worker) (a : Args) (ins : list Input) :
  enumerate a = false -> sik_only a = false -> disable_flag w a = false ->
  let s := run (init a) ins in
  (main_steps ins <= start_rank w ->
   enabled w s = true
   /\ forall tid th, pool s !! tid = Some th -> target th <> Run w)
  /\ (start_rank w < main_steps ins ->
      exists before o after,
        ins = before ++ RunMain o :: after
        /\ main_steps before = start_rank w
        /\ pool (step (run (init a) before) (RunMain o))
             !! length (pool (run (init a) before))
           = Some {| target := Run w; pc := Entry |}
        /\ is_alive (length (pool (run (init a) before)))
                    (step (run (init a) before) (RunMain o)) = true
        /\ handle_of w s = Some (length (pool (run (init a) before)))
        /\ exists th, pool s !! length (pool (run (init a) before)) = Some th
                      /\ target th = Run w).
Proof.
  intros H1 H2 H3 s.
  assert (Hinv : forall l, startup_inv w (run (init a) l)).
  { intros l. apply startup_inv_run. by apply startup_inv_init. }
  assert (Hs : start_rank w <= 5) by (destruct w; simpl; lia).
  split; intros Hsteps.
  - apply (startup_before w s (Hinv ins)).
    unfold s. rewrite rank_run by done. lia.
  - destruct (startup_statement a ins (start_rank w) H1 Hsteps ltac:(lia))
      as (before & o & after & Hins & Hb & Hrank).
    set (sb := run (init a) before) in *.
    exists before, o, after. fold sb. split; [done|]. split; [done|].
    destruct (startup_before w sb (Hinv before) ltac:(lia)) as [Hen _].
    assert (Hsp : spawns sb = Some (Run w)).
    { unfold spawns. destruct w; simpl in *;
        destruct (main sb); simpl in Hrank; try done; try lia;
        by rewrite Hen. }
    destruct (spawns_alive o sb (Run w) Hsp) as [Hnew Halive].
    split; [done|]. split; [done|].
    assert (Hrun : s = run (step sb (RunMain o)) after).
    { unfold s, sb. by rewrite Hins, run_app. }
    assert (Hrank' : rank (main (step sb (RunMain o))) = S (start_rank w)).
    { simpl. rewrite rank_main_step by (unfold sb; by rewrite args_run). lia. }
    split.
    + rewrite Hrun.
      destruct (names_run after (step sb (RunMain o))) as (_ & _ & N2 & N3).
      assert (Hh : handle_of w (step sb (RunMain o)) = Some (length (pool sb))).
      { simpl. unfold main_step. destruct w; simpl in *;
          destruct (main sb); simpl in Hrank; try done; try lia;
          by rewrite Hen. }
      rewrite <- Hh. destruct w; simpl in *; [apply N2 | apply N3]; lia.
    + rewrite Hrun. destruct (target_run after _ _ _ Hnew) as (th & Hl & Ht).
      by exists th.
Qed.

Lemma enabled_worker_is_started_witness :
  enumerate no_flags = false /\ sik_only no_flags = false
  /\ disable_flag D4XX no_flags = false
  /\ start_rank D4XX < main_steps probe_schedule
  /\ exists before o after,
       probe_schedule = before ++ RunMain o :: after
       /\ main_steps before = start_rank D4XX
       /\ is_alive (length (pool (run (init no_flags) before)))
                   (step (run (init no_flags) before) (RunMain o)) = true
       /\ handle_of D4XX (run (init no_flags) probe_schedule)
          = Some (length (pool (run (init no_flags) before))).
Proof.
  assert (H : start_rank D4XX < main_steps probe_schedule).
  { vm_compute. lia. }
  split; [reflexivity|]. split; [reflexivity|]. split; [reflexivity|].
  split; [exact H|].
  destruct (proj2 (enabled_worker_is_started D4XX no_flags probe_schedule
                     eq_refl eq_refl eq_refl) H)
    as (before & o & after & E1 & E2 & _ & E3 & E4 & _).
  exact (ex_intro _ before (ex_intro _ o (ex_intro _ after
           (conj E1 (conj E2 (conj E3 E4)))))).
Defined.
